(** * Tetris Ultra: the game engine of the [TetrisGame] component

    A shallow embedding of the component's logic (board, collision test,
    rotation with wall kicks, ghost projection, locking, line clearing,
    scoring, hold, spawn and the key handler), followed by the properties
    of the specification that were checked against it.

    Conventions of the embedding.
    - JavaScript numbers that the engine manipulates are integers; they are
      modelled by [Z].  The score alone can become [NaN] (a table lookup past
      the end of the points table), so it has the type [num].
    - Arrays are lists, read with stdpp's lookup.  Reading [a[i]] outside the
      array gives [undefined]; reading a property of [undefined] raises a
      [TypeError].  Both are written out where the source can meet them.
    - Every function of the component closes over the values that the state
      hooks had at the render that created it, and every [setX] call is queued
      for the next render.  A function is therefore modelled as a computation
      that reads the render's values [c] and transforms the pending state.
    - The key listener and the gravity interval are installed by effects, and
      the button takes its handler from the render on screen; the render and
      its effects come some time after the updates were queued.  [step]
      handles an event with the functions of the latest state; [occur] keeps
      the pending state, the render on screen and the render whose effects ran
      last apart, so that an event can meet the functions of an earlier
      render. *)

From stdpp Require Import base tactics option list strings.
From Stdlib Require Import ZArith Lia.

#[local] Open Scope Z_scope.

(** ** Outcomes of a call *)

(** A call returns a value, raises a [TypeError], or never returns (a
    [while] loop whose test stays true). *)
Inductive result (A : Type) : Type :=
  | Done (a : A)
  | TypeError
  | Diverges.
Arguments Done {A} a.
Arguments TypeError {A}.
Arguments Diverges {A}.

Definition rbind {A B} (r : result A) (k : A -> result B) : result B :=
  match r with
  | Done a => k a
  | TypeError => TypeError
  | Diverges => Diverges
  end.

(** ** Data model *)

(** The seven kinds; the constructors carry a prefix because [I], [O], [S]
    and [Z] are taken. *)
Inductive TetrominoType : Type := TI | TO | TT | TS | TZ | TJ | TL.

(** [type Position = { x: number; y: number }] *)
Record Position : Type := mkPosition { px : Z; py : Z }.

(** A board cell is [string | null]; [Undefined] is what a read past the end
    of a row yields, and what fills the gap when a write lands past the end
    of a row. *)
Inductive Cell : Type :=
  | Null
  | Undefined
  | Color (s : string).

Abbreviation Board := (list (list Cell)).

(** [interface Tetromino].  A shape cell is a number; the engine only ever
    tests it for truthiness, so a missing entry ([undefined]) is represented
    by [0]. *)
Record Tetromino : Type := mkTetromino {
  type : TetrominoType;
  shape : list (list Z);
  color : string
}.

(** The score: a number or [NaN]. *)
Inductive num : Type :=
  | Int (z : Z)
  | NaN.

Definition addNum (a b : num) : num :=
  match a, b with
  | Int m, Int n => Int (m + n)
  | _, _ => NaN
  end.

Definition BOARD_WIDTH : Z := 10.
Definition BOARD_HEIGHT : Z := 20.
Definition INITIAL_SPEED : Z := 1000.
Definition MIN_SPEED : Z := 100.

(** [const TETROMINOES] together with the [{ type, ...TETROMINOES[type] }]
    of [createRandomTetromino]. *)
Definition TETROMINOES (t : TetrominoType) : Tetromino :=
  match t with
  | TI => mkTetromino TI [[1; 1; 1; 1]] "#00f0f0"
  | TO => mkTetromino TO [[1; 1]; [1; 1]] "#f0f000"
  | TT => mkTetromino TT [[0; 1; 0]; [1; 1; 1]] "#a000f0"
  | TS => mkTetromino TS [[0; 1; 1]; [1; 1; 0]] "#00f000"
  | TZ => mkTetromino TZ [[1; 1; 0]; [0; 1; 1]] "#f00000"
  | TJ => mkTetromino TJ [[1; 0; 0]; [1; 1; 1]] "#0000f0"
  | TL => mkTetromino TL [[0; 0; 1]; [1; 1; 1]] "#f0a000"
  end.

(** *** Truthiness and reads *)

(** [if (n)] on a number. *)
Definition truthy (n : Z) : bool := negb (n =? 0).

(** [if (cell)] on a board cell: [null], [undefined] and the empty string
    are falsy. *)
Definition cellTruthy (cell : Cell) : bool :=
  match cell with
  | Color s => negb (String.eqb s EmptyString)
  | Null | Undefined => false
  end.

(** [cell !== null] *)
Definition notNull (cell : Cell) : bool :=
  match cell with
  | Null => false
  | Undefined | Color _ => true
  end.

(** [row[x]] on a row of the board. *)
Definition rowAt (row : list Cell) (x : Z) : Cell :=
  if x <? 0 then Undefined else default Undefined (row !! Z.to_nat x).

(** [board[y][x]] as an observer of a board whose row [y] exists; used to
    state properties, the engine's own reads are in [checkRow]. *)
Definition cellAt (b : Board) (r c : Z) : Cell :=
  if r <? 0 then Undefined
  else match b !! Z.to_nat r with
       | Some row => rowAt row c
       | None => Undefined
       end.

(** [row[c]] on a row of a shape, [0] where there is no such entry. *)
Definition entryAt (row : list Z) (c : Z) : Z :=
  if c <? 0 then 0 else default 0 (row !! Z.to_nat c).

(** [shape[r][c]], [0] where there is no such entry. *)
Definition shapeAt (s : list (list Z)) (r c : Z) : Z :=
  if r <? 0 then 0
  else match s !! Z.to_nat r with
       | Some row => entryAt row c
       | None => 0
       end.

(** [createEmptyBoard] *)
Definition emptyRow : list Cell := replicate (Z.to_nat BOARD_WIDTH) Null.

Definition createEmptyBoard : Board :=
  replicate (Z.to_nat BOARD_HEIGHT) emptyRow.

(** ** Rotation *)

(** [rotatePiece]: one new row per entry [i] of the first row, made of the
    [i]-th entries of all rows, reversed.  [piece.shape[0]] is [undefined]
    for a shape without rows, and [.map] on it raises. *)
Definition rotatePiece (piece : Tetromino) : result Tetromino :=
  match shape piece with
  | [] => TypeError
  | row0 :: _ =>
      let rotated :=
        imap (fun i _ =>
                reverse ((fun row => default 0 (row !! i)) <$> shape piece))
             row0 in
      Done (mkTetromino (type piece) rotated (color piece))
  end.

(** ** Collision validator *)

(** The inner [for] of [isValidPosition], from column [x] of shape row [y]:
    [Done false] is the early [return false], [Done true] means the row was
    scanned to its end. *)
Fixpoint checkRow (checkBoard : Board) (pos : Position) (y : Z)
    (row : list Z) (x : Z) : result bool :=
  match row with
  | [] => Done true
  | v :: row' =>
      if truthy v then
        let newX := px pos + x in
        let newY := py pos + y in
        if (newX <? 0) || (BOARD_WIDTH <=? newX) || (BOARD_HEIGHT <=? newY)
        then Done false
        else if 0 <=? newY then
          match checkBoard !! Z.to_nat newY with
          | None => TypeError
          | Some line =>
              if cellTruthy (rowAt line newX) then Done false
              else checkRow checkBoard pos y row' (x + 1)
          end
        else checkRow checkBoard pos y row' (x + 1)
      else checkRow checkBoard pos y row' (x + 1)
  end.

(** The outer [for], from shape row [y]. *)
Fixpoint checkRows (checkBoard : Board) (pos : Position)
    (rows : list (list Z)) (y : Z) : result bool :=
  match rows with
  | [] => Done true
  | row :: rows' =>
      match checkRow checkBoard pos y row 0 with
      | Done true => checkRows checkBoard pos rows' (y + 1)
      | other => other
      end
  end.

(** [isValidPosition] on an explicit board. *)
Definition isValidOn (checkBoard : Board) (piece : Tetromino)
    (pos : Position) : result bool :=
  checkRows checkBoard pos (shape piece) 0.

(** ** Ghost projection and the hard-drop loop *)

(** The [while] of [calculateGhostPosition].  A test that succeeds at row
    [ghostY + 1] puts every occupied cell of the piece above [BOARD_HEIGHT],
    so a piece with an occupied cell leaves the loop after at most
    [BOARD_HEIGHT - pos.y] rounds; the loop that is still running after that
    many rounds never ends ([ghostLoop_Diverges]). *)
Fixpoint ghostLoop (rounds : nat) (checkBoard : Board) (piece : Tetromino)
    (x ghostY : Z) : result Z :=
  match rounds with
  | O => Diverges
  | S rounds' =>
      match isValidOn checkBoard piece (mkPosition x (ghostY + 1)) with
      | Done true => ghostLoop rounds' checkBoard piece x (ghostY + 1)
      | Done false => Done ghostY
      | TypeError => TypeError
      | Diverges => Diverges
      end
  end.

Definition loopBound (y : Z) : nat := S (Z.to_nat (BOARD_HEIGHT - y)).

Definition ghostOn (checkBoard : Board) (piece : Tetromino)
    (pos : Position) : result Position :=
  rbind (ghostLoop (loopBound (py pos)) checkBoard piece (px pos) (py pos))
        (fun ghostY => Done (mkPosition (px pos) ghostY)).

(** The [while] of [hardDrop]: [newPos.y++; dropDistance++] as long as the
    row below is free. *)
Fixpoint dropLoop (rounds : nat) (checkBoard : Board) (piece : Tetromino)
    (newPos : Position) (dropDistance : Z) : result (Position * Z) :=
  match rounds with
  | O => Diverges
  | S rounds' =>
      match isValidOn checkBoard piece
              (mkPosition (px newPos) (py newPos + 1)) with
      | Done true =>
          dropLoop rounds' checkBoard piece
                   (mkPosition (px newPos) (py newPos + 1)) (dropDistance + 1)
      | Done false => Done (newPos, dropDistance)
      | TypeError => TypeError
      | Diverges => Diverges
      end
  end.

Definition dropOn (checkBoard : Board) (piece : Tetromino)
    (pos : Position) : result (Position * Z) :=
  dropLoop (loopBound (py pos)) checkBoard piece pos 0.

(** ** Locking a piece into the board *)

(** [row[x] = v] on an array: a negative index creates a property that no
    read of the engine ever sees, an index past the end grows the array. *)
Definition writeAt (row : list Cell) (x : Z) (v : Cell) : list Cell :=
  if x <? 0 then row
  else if (Z.to_nat x <? length row)%nat then <[Z.to_nat x := v]> row
  else row ++ replicate (Z.to_nat x - length row)%nat Undefined ++ [v].

(** The inner [for] of [mergePiece], from column [x] of shape row [y].
    [newBoard[boardY]] is [undefined] for a row past the last one, and the
    assignment to its entry raises. *)
Fixpoint lockRow (newBoard : Board) (paint : string) (pos : Position)
    (y : Z) (row : list Z) (x : Z) : result Board :=
  match row with
  | [] => Done newBoard
  | v :: row' =>
      if truthy v then
        let boardY := py pos + y in
        let boardX := px pos + x in
        if 0 <=? boardY then
          match newBoard !! Z.to_nat boardY with
          | None => TypeError
          | Some line =>
              lockRow (<[Z.to_nat boardY := writeAt line boardX (Color paint)]>
                         newBoard)
                      paint pos y row' (x + 1)
          end
        else lockRow newBoard paint pos y row' (x + 1)
      else lockRow newBoard paint pos y row' (x + 1)
  end.

Fixpoint lockRows (newBoard : Board) (paint : string) (pos : Position)
    (rows : list (list Z)) (y : Z) : result Board :=
  match rows with
  | [] => Done newBoard
  | row :: rows' =>
      rbind (lockRow newBoard paint pos y row 0)
            (fun newBoard' => lockRows newBoard' paint pos rows' (y + 1))
  end.

(** The board that [mergePiece] builds before it hands it to [checkLines]:
    a copy of the board with the piece's colour written under every
    occupied shape cell whose row is not above the board. *)
Definition lockCells (b : Board) (piece : Tetromino) (pos : Position)
    : result Board :=
  lockRows b (color piece) pos (shape piece) 0.

(** ** Line clearing *)

(** [row.every(cell => cell !== null)] *)
Definition isFull (row : list Cell) : bool := forallb notNull row.

(** The [filter] of [checkLines] with its counter [linesCleared]. *)
Fixpoint filterRows (rows : Board) (linesCleared : Z) : Board * Z :=
  match rows with
  | [] => ([], linesCleared)
  | row :: rows' =>
      if isFull row then filterRows rows' (linesCleared + 1)
      else let '(kept, n) := filterRows rows' linesCleared in (row :: kept, n)
  end.

(** [while (newBoard.length < BOARD_HEIGHT) newBoard.unshift(...)]: each
    round adds a row, so the test fails after at most [BOARD_HEIGHT]
    rounds. *)
Fixpoint unshiftLoop (rounds : nat) (newBoard : Board) : Board :=
  match rounds with
  | O => newBoard
  | S rounds' =>
      if Z.of_nat (length newBoard) <? BOARD_HEIGHT
      then unshiftLoop rounds' (emptyRow :: newBoard)
      else newBoard
  end.

(** The first half of [checkLines]: the compacted board and the number of
    rows removed. *)
Definition clearRows (currentBoard : Board) : Board * Z :=
  let '(kept, linesCleared) := filterRows currentBoard 0 in
  (unshiftLoop (Z.to_nat BOARD_HEIGHT) kept, linesCleared).

(** [[0, 100, 300, 500, 800][linesCleared]] *)
Definition pointsTable : list Z := [0; 100; 300; 500; 800].

(** [(basePoints + comboBonus) * levelBonus]; [basePoints] is [undefined]
    past the end of the table and the sum is then [NaN]. *)
Definition linePoints (linesCleared newCombo levelBonus : Z) : num :=
  match pointsTable !! Z.to_nat linesCleared with
  | Some basePoints => Int ((basePoints + newCombo * 50) * levelBonus)
  | None => NaN
  end.

(** ** Component state *)

(** The values of the [useState] hooks. *)
Record State : Type := mkState {
  board : Board;
  currentPiece : option Tetromino;
  position : Position;
  nextPiece : option Tetromino;
  heldPiece : option Tetromino;
  canHold : bool;
  score : num;
  level : Z;
  lines : Z;
  gameOver : bool;
  paused : bool;
  gameStarted : bool;
  speed : Z;
  combo : Z;
  ghostPosition : Position
}.

(** The initial values passed to [useState]. *)
Definition initialState : State :=
  mkState createEmptyBoard None (mkPosition 0 0) None None true (Int 0) 1 0
          false false false INITIAL_SPEED 0 (mkPosition 0 0).

(** What lies outside a render: the pending state (the state the next
    render will see), the number of [Math.random] draws made so far, and the
    callbacks handed to [setTimeout] that have not fired yet.  The only such
    callback is [() => { mergePiece(); spawnNewPiece() }]; it is recorded
    by the render values it closes over. *)
Record World : Type := mkWorld {
  now : State;
  draws : nat;
  timeouts : list State
}.

Definition M (A : Type) : Type := World -> result (A * World).

#[global] Instance M_ret : MRet M := fun A a w => Done (a, w).
#[global] Instance M_bind : MBind M := fun A B k m w =>
  match m w with
  | Done (a, w') => k a w'
  | TypeError => TypeError
  | Diverges => Diverges
  end.

Definition lift {A} (r : result A) : M A := fun w =>
  rbind r (fun a => Done (a, w)).

(** A queued state update. *)
Definition update (f : State -> State) : M unit := fun w =>
  Done (tt, mkWorld (f (now w)) (draws w) (timeouts w)).

(** The state with one hook's value replaced. *)
Definition withBoard (v : Board) (s : State) : State :=
  mkState v (currentPiece s) (position s) (nextPiece s) (heldPiece s)
    (canHold s) (score s) (level s) (lines s) (gameOver s) (paused s)
    (gameStarted s) (speed s) (combo s) (ghostPosition s).
Definition withCurrentPiece (v : option Tetromino) (s : State) : State :=
  mkState (board s) v (position s) (nextPiece s) (heldPiece s)
    (canHold s) (score s) (level s) (lines s) (gameOver s) (paused s)
    (gameStarted s) (speed s) (combo s) (ghostPosition s).
Definition withPosition (v : Position) (s : State) : State :=
  mkState (board s) (currentPiece s) v (nextPiece s) (heldPiece s)
    (canHold s) (score s) (level s) (lines s) (gameOver s) (paused s)
    (gameStarted s) (speed s) (combo s) (ghostPosition s).
Definition withNextPiece (v : option Tetromino) (s : State) : State :=
  mkState (board s) (currentPiece s) (position s) v (heldPiece s)
    (canHold s) (score s) (level s) (lines s) (gameOver s) (paused s)
    (gameStarted s) (speed s) (combo s) (ghostPosition s).
Definition withHeldPiece (v : option Tetromino) (s : State) : State :=
  mkState (board s) (currentPiece s) (position s) (nextPiece s) v
    (canHold s) (score s) (level s) (lines s) (gameOver s) (paused s)
    (gameStarted s) (speed s) (combo s) (ghostPosition s).
Definition withCanHold (v : bool) (s : State) : State :=
  mkState (board s) (currentPiece s) (position s) (nextPiece s) (heldPiece s)
    v (score s) (level s) (lines s) (gameOver s) (paused s)
    (gameStarted s) (speed s) (combo s) (ghostPosition s).
Definition withScore (v : num) (s : State) : State :=
  mkState (board s) (currentPiece s) (position s) (nextPiece s) (heldPiece s)
    (canHold s) v (level s) (lines s) (gameOver s) (paused s)
    (gameStarted s) (speed s) (combo s) (ghostPosition s).
Definition withLevel (v : Z) (s : State) : State :=
  mkState (board s) (currentPiece s) (position s) (nextPiece s) (heldPiece s)
    (canHold s) (score s) v (lines s) (gameOver s) (paused s)
    (gameStarted s) (speed s) (combo s) (ghostPosition s).
Definition withLines (v : Z) (s : State) : State :=
  mkState (board s) (currentPiece s) (position s) (nextPiece s) (heldPiece s)
    (canHold s) (score s) (level s) v (gameOver s) (paused s)
    (gameStarted s) (speed s) (combo s) (ghostPosition s).
Definition withGameOver (v : bool) (s : State) : State :=
  mkState (board s) (currentPiece s) (position s) (nextPiece s) (heldPiece s)
    (canHold s) (score s) (level s) (lines s) v (paused s)
    (gameStarted s) (speed s) (combo s) (ghostPosition s).
Definition withPaused (v : bool) (s : State) : State :=
  mkState (board s) (currentPiece s) (position s) (nextPiece s) (heldPiece s)
    (canHold s) (score s) (level s) (lines s) (gameOver s) v
    (gameStarted s) (speed s) (combo s) (ghostPosition s).
Definition withGameStarted (v : bool) (s : State) : State :=
  mkState (board s) (currentPiece s) (position s) (nextPiece s) (heldPiece s)
    (canHold s) (score s) (level s) (lines s) (gameOver s) (paused s)
    v (speed s) (combo s) (ghostPosition s).
Definition withSpeed (v : Z) (s : State) : State :=
  mkState (board s) (currentPiece s) (position s) (nextPiece s) (heldPiece s)
    (canHold s) (score s) (level s) (lines s) (gameOver s) (paused s)
    (gameStarted s) v (combo s) (ghostPosition s).
Definition withCombo (v : Z) (s : State) : State :=
  mkState (board s) (currentPiece s) (position s) (nextPiece s) (heldPiece s)
    (canHold s) (score s) (level s) (lines s) (gameOver s) (paused s)
    (gameStarted s) (speed s) v (ghostPosition s).
Definition withGhostPosition (v : Position) (s : State) : State :=
  mkState (board s) (currentPiece s) (position s) (nextPiece s) (heldPiece s)
    (canHold s) (score s) (level s) (lines s) (gameOver s) (paused s)
    (gameStarted s) (speed s) (combo s) v.

(** The setters; [setScore], [setLines] and [setPaused] are the ones the
    component calls with an updater function [prev => ...]. *)
Definition setBoard (v : Board) : M unit := update (withBoard v).
Definition setCurrentPiece (v : option Tetromino) : M unit := update (withCurrentPiece v).
Definition setPosition (v : Position) : M unit := update (withPosition v).
Definition setNextPiece (v : option Tetromino) : M unit := update (withNextPiece v).
Definition setHeldPiece (v : option Tetromino) : M unit := update (withHeldPiece v).
Definition setCanHold (v : bool) : M unit := update (withCanHold v).
Definition setScore (f : num -> num) : M unit :=
  update (fun s => withScore (f (score s)) s).
Definition setLevel (v : Z) : M unit := update (withLevel v).
Definition setLines (f : Z -> Z) : M unit :=
  update (fun s => withLines (f (lines s)) s).
Definition setGameOver (v : bool) : M unit := update (withGameOver v).
Definition setPaused (f : bool -> bool) : M unit :=
  update (fun s => withPaused (f (paused s)) s).
Definition setGameStarted (v : bool) : M unit := update (withGameStarted v).
Definition setSpeed (v : Z) : M unit := update (withSpeed v).
Definition setCombo (v : Z) : M unit := update (withCombo v).
Definition setGhostPosition (v : Position) : M unit := update (withGhostPosition v).

(** [setTimeout(() => { mergePiece(); spawnNewPiece() }, 50)] issued by the
    render whose values are [c]. *)
Definition setTimeout (c : State) : M unit := fun w =>
  Done (tt, mkWorld (now w) (draws w) (timeouts w ++ [c])).

(** [Math.floor(BOARD_WIDTH / 2) - Math.floor(piece.shape[0].length / 2)] *)
Definition startXOf (piece : Tetromino) : result Z :=
  match shape piece with
  | [] => TypeError
  | row0 :: _ => Done (BOARD_WIDTH / 2 - Z.of_nat (length row0) / 2)
  end.

(** The wall kicks of [rotate], in the order of the source. *)
Definition kicks : list Position :=
  [ mkPosition 0 0; mkPosition (-1) 0; mkPosition 1 0;
    mkPosition 0 (-1); mkPosition (-2) 0; mkPosition 2 0 ].

(** [e.code] of a key event, as far as [handleKeyPress] tells codes apart. *)
Inductive KeyCode : Type :=
  | ArrowLeft | ArrowRight | ArrowDown | ArrowUp | KeyX | Space | KeyC
  | ShiftLeft | Escape | OtherKey.

#[global] Instance KeyCode_eq_dec : EqDecision KeyCode.
Proof. solve_decision. Defined.

(** ** The functions of one render *)

Section TetrisGame.

(** The kinds that successive [Math.random] draws select. *)
Variable random : nat -> TetrominoType.

(** The values of the state hooks at this render. *)
Variable c : State.

Definition createRandomTetromino : M Tetromino := fun w =>
  Done (TETROMINOES (random (draws w)),
        mkWorld (now w) (S (draws w)) (timeouts w)).

(** [isValidPosition(piece, pos)]; no call site passes [testBoard], so
    [checkBoard] is the board of this render. *)
Definition isValidPosition (piece : Tetromino) (pos : Position)
    : result bool :=
  isValidOn (board c) piece pos.

Definition calculateGhostPosition (piece : Tetromino) (pos : Position)
    : result Position :=
  ghostOn (board c) piece pos.

Definition checkLines (currentBoard : Board) : M unit :=
  let '(newBoard, linesCleared) := clearRows currentBoard in
  if 0 <? linesCleared then
    setBoard newBoard ;;
    setLines (fun prev => prev + linesCleared) ;;
    let newCombo := combo c + 1 in
    setCombo newCombo ;;
    setScore (fun prev => addNum prev (linePoints linesCleared newCombo (level c))) ;;
    let newLevel := lines c / 10 + 1 in
    if negb (newLevel =? level c) then
      setLevel newLevel ;;
      setSpeed (Z.max MIN_SPEED (INITIAL_SPEED - (newLevel - 1) * 100))
    else mret tt
  else setCombo 0.

Definition mergePiece : M unit :=
  match currentPiece c with
  | None => mret tt
  | Some piece =>
      newBoard ← lift (lockCells (board c) piece (position c)) ;
      setBoard newBoard ;;
      checkLines newBoard ;;
      setCanHold true
  end.

Definition spawnNewPiece : M unit :=
  piece ← match nextPiece c with
          | Some p => mret p
          | None => createRandomTetromino
          end ;
  newNext ← createRandomTetromino ;
  startX ← lift (startXOf piece) ;
  let startY := 0 in
  valid ← lift (isValidPosition piece (mkPosition startX startY)) ;
  if negb valid then setGameOver true
  else
    setCurrentPiece (Some piece) ;;
    setPosition (mkPosition startX startY) ;;
    setNextPiece (Some newNext) ;;
    ghost ← lift (calculateGhostPosition piece (mkPosition startX startY)) ;
    setGhostPosition ghost.

(** The shared body of [moveLeft], [moveRight] and the first branch of
    [moveDown]: commit [newPos] and recompute the ghost. *)
Definition commitMove (piece : Tetromino) (newPos : Position) : M unit :=
  setPosition newPos ;;
  ghost ← lift (calculateGhostPosition piece newPos) ;
  setGhostPosition ghost.

Definition moveDown : M unit :=
  match currentPiece c with
  | None => mret tt
  | Some piece =>
      if gameOver c || paused c then mret tt
      else
        let newPos := mkPosition (px (position c)) (py (position c) + 1) in
        valid ← lift (isValidPosition piece newPos) ;
        if (valid : bool) then commitMove piece newPos
        else mergePiece ;; spawnNewPiece
  end.

Definition moveLeft : M unit :=
  match currentPiece c with
  | None => mret tt
  | Some piece =>
      if gameOver c || paused c then mret tt
      else
        let newPos := mkPosition (px (position c) - 1) (py (position c)) in
        valid ← lift (isValidPosition piece newPos) ;
        if (valid : bool) then commitMove piece newPos else mret tt
  end.

Definition moveRight : M unit :=
  match currentPiece c with
  | None => mret tt
  | Some piece =>
      if gameOver c || paused c then mret tt
      else
        let newPos := mkPosition (px (position c) + 1) (py (position c)) in
        valid ← lift (isValidPosition piece newPos) ;
        if (valid : bool) then commitMove piece newPos else mret tt
  end.

(** The [for (const kick of kicks)] of [rotate]. *)
Fixpoint tryKicks (rotated : Tetromino) (ks : list Position) : M unit :=
  match ks with
  | [] => mret tt
  | kick :: ks' =>
      let newPos := mkPosition (px (position c) + px kick)
                               (py (position c) + py kick) in
      valid ← lift (isValidPosition rotated newPos) ;
      if (valid : bool) then
        setCurrentPiece (Some rotated) ;;
        setPosition newPos ;;
        ghost ← lift (calculateGhostPosition rotated newPos) ;
        setGhostPosition ghost
      else tryKicks rotated ks'
  end.

Definition rotate : M unit :=
  match currentPiece c with
  | None => mret tt
  | Some piece =>
      if gameOver c || paused c then mret tt
      else
        rotated ← lift (rotatePiece piece) ;
        tryKicks rotated kicks
  end.

Definition hardDrop : M unit :=
  match currentPiece c with
  | None => mret tt
  | Some piece =>
      if gameOver c || paused c then mret tt
      else
        '(newPos, dropDistance) ← lift (dropOn (board c) piece (position c)) ;
        setPosition newPos ;;
        setScore (fun prev => addNum prev (Int (dropDistance * 2))) ;;
        setTimeout c
  end.

(** The callback that [hardDrop] schedules. *)
Definition hardDropTimeout : M unit :=
  mergePiece ;; spawnNewPiece.

Definition holdPiece : M unit :=
  match currentPiece c with
  | None => mret tt
  | Some piece =>
      if negb (canHold c) || gameOver c || paused c then mret tt
      else
        setCanHold false ;;
        match heldPiece c with
        | Some temp =>
            setHeldPiece (Some piece) ;;
            setCurrentPiece (Some temp) ;;
            startX ← lift (startXOf temp) ;
            setPosition (mkPosition startX 0) ;;
            ghost ← lift (calculateGhostPosition temp (mkPosition startX 0)) ;
            setGhostPosition ghost
        | None =>
            setHeldPiece (Some piece) ;;
            spawnNewPiece
        end
  end.

Definition startGame : M unit :=
  setBoard createEmptyBoard ;;
  setScore (fun _ => Int 0) ;;
  setLevel 1 ;;
  setLines (fun _ => 0) ;;
  setCombo 0 ;;
  setGameOver false ;;
  setPaused (fun _ => false) ;;
  setGameStarted true ;;
  setSpeed INITIAL_SPEED ;;
  setHeldPiece None ;;
  setCanHold true ;;
  next ← createRandomTetromino ;
  setNextPiece (Some next) ;;
  spawnNewPiece.

Definition handleKeyPress (code : KeyCode) : M unit :=
  if negb (gameStarted c) && bool_decide (code = Space) then startGame
  else if bool_decide (code = Escape) then setPaused negb
  else
    match code with
    | ArrowLeft => moveLeft
    | ArrowRight => moveRight
    | ArrowDown => moveDown ;; setScore (fun prev => addNum prev (Int 1))
    | ArrowUp | KeyX => rotate
    | Space => hardDrop
    | KeyC | ShiftLeft => holdPiece
    | Escape | OtherKey => mret tt
    end.

End TetrisGame.

(** ** Events *)

(** What can happen to the mounted component: a key goes down, the gravity
    interval fires, a timeout set by a hard drop fires, the PLAY AGAIN button
    is clicked. *)
Inductive Event : Type :=
  | KeyDown (code : KeyCode)
  | Tick
  | TimeoutFires
  | PlayAgain.

Definition run (m : M unit) (w : World) : result World :=
  rbind (m w) (fun r => Done (snd r)).

(** One event, handled to completion by the functions of the render that
    shows the latest state: the re-render that followed the previous event
    and its effects have taken place before this event arrives.  A timeout
    callback reads the values of the render that scheduled it.  The interval
    is armed only while the game is started, not over and not paused; the
    button is rendered only when the game is over.  An event that arrives
    earlier meets the functions of an older render; that is [stepAt]. *)
Definition step (random : nat -> TetrominoType) (e : Event) (w : World)
    : result World :=
  match e with
  | KeyDown code => run (handleKeyPress random (now w) code) w
  | Tick =>
      if gameStarted (now w) && negb (gameOver (now w)) && negb (paused (now w))
      then run (moveDown random (now w)) w
      else Done w
  | TimeoutFires =>
      match timeouts w with
      | [] => Done w
      | c :: rest =>
          run (hardDropTimeout random c) (mkWorld (now w) (draws w) rest)
      end
  | PlayAgain =>
      if gameOver (now w) then run (startGame random (now w)) w else Done w
  end.

(** ** Renders and effects *)

(** One event handled by the functions of the render whose values are [h]:
    [handleKeyPress] and [moveDown] as the effects of that render installed
    them (the interval exists when that render was started, not over and not
    paused), [startGame] as the button of that render has it (the button
    exists when that render was over).  [step] is the case [h = now w]. *)
Definition stepAt (random : nat -> TetrominoType) (h : State) (e : Event)
    (w : World) : result World :=
  match e with
  | KeyDown code => run (handleKeyPress random h code) w
  | Tick =>
      if gameStarted h && negb (gameOver h) && negb (paused h)
      then run (moveDown random h) w
      else Done w
  | TimeoutFires =>
      match timeouts w with
      | [] => Done w
      | c :: rest =>
          run (hardDropTimeout random c) (mkWorld (now w) (draws w) rest)
      end
  | PlayAgain =>
      if gameOver h then run (startGame random h) w else Done w
  end.

(** The mounted component: what lies outside a render, the values of the
    render on screen, and the values of the render whose effects ran last.
    The key listener and the interval callback are replaced by the effects
    of a render (the two [useEffect] of the component), which run after the
    render is on screen; until then events are handled by the functions of
    the older render. *)
Record Mounted : Type := mkMounted {
  world : World;
  committed : State;
  installed : State
}.

(** What can happen to the mounted component: an event is handled, the
    pending state is rendered and put on screen, the effects of the render
    on screen run. *)
Inductive Occurrence : Type :=
  | Handle (e : Event)
  | Render
  | Effects.

(** The render whose functions handle an event: the button belongs to the
    render on screen, the key listener and the interval to the render whose
    effects ran last (a timeout callback brings its own values). *)
Definition closureOf (m : Mounted) (e : Event) : State :=
  match e with
  | PlayAgain => committed m
  | KeyDown _ | Tick | TimeoutFires => installed m
  end.

Definition occur (random : nat -> TetrominoType) (o : Occurrence)
    (m : Mounted) : result Mounted :=
  match o with
  | Handle e =>
      rbind (stepAt random (closureOf m e) e (world m))
            (fun w' => Done (mkMounted w' (committed m) (installed m)))
  | Render => Done (mkMounted (world m) (now (world m)) (installed m))
  | Effects => Done (mkMounted (world m) (committed m) (committed m))
  end.

(** The component after a handler has raised: a timeout that fired is off
    the list, and nothing was queued, for in every handler the statement
    that can raise comes before the first setter (it is the board write of
    [mergePiece], see [mergePiece_returns_or_raises]). *)
Definition afterRaise (e : Event) (m : Mounted) : Mounted :=
  match e with
  | TimeoutFires =>
      mkMounted (mkWorld (now (world m)) (draws (world m))
                   (tail (timeouts (world m))))
                (committed m) (installed m)
  | KeyDown _ | Tick | PlayAgain => m
  end.

(** The component after its first render and the effects of that render. *)
Definition mounted : Mounted :=
  mkMounted (mkWorld initialState 0 []) initialState initialState.

(** A sequence of occurrences, each handled to completion. *)
Fixpoint occurAll (random : nat -> TetrominoType) (os : list Occurrence)
    (m : Mounted) : result Mounted :=
  match os with
  | [] => Done m
  | o :: os' => rbind (occur random o m) (occurAll random os')
  end.

(** ** Rendering *)

(** The inner [for] of the two painting loops of [renderBoard], from column
    [x] of shape row [y].  Both loops write [mark] under the occupied shape
    cells that fall on the board; the ghost loop ([ifFree]) first reads the
    cell and leaves it alone when it is truthy.  [displayBoard[boardY]] is
    [undefined] when the board has fewer rows, and the read or write of its
    entry raises. *)
Fixpoint paintRow (displayBoard : Board) (mark : string) (ifFree : bool)
    (pos : Position) (y : Z) (row : list Z) (x : Z) : result Board :=
  match row with
  | [] => Done displayBoard
  | v :: row' =>
      if truthy v then
        let boardY := py pos + y in
        let boardX := px pos + x in
        if (0 <=? boardY) && (boardY <? BOARD_HEIGHT)
           && (0 <=? boardX) && (boardX <? BOARD_WIDTH) then
          match displayBoard !! Z.to_nat boardY with
          | None => TypeError
          | Some line =>
              if ifFree && cellTruthy (rowAt line boardX) then
                paintRow displayBoard mark ifFree pos y row' (x + 1)
              else
                paintRow
                  (<[Z.to_nat boardY := writeAt line boardX (Color mark)]>
                     displayBoard)
                  mark ifFree pos y row' (x + 1)
          end
        else paintRow displayBoard mark ifFree pos y row' (x + 1)
      else paintRow displayBoard mark ifFree pos y row' (x + 1)
  end.

Fixpoint paintRows (displayBoard : Board) (mark : string) (ifFree : bool)
    (pos : Position) (rows : list (list Z)) (y : Z) : result Board :=
  match rows with
  | [] => Done displayBoard
  | row :: rows' =>
      rbind (paintRow displayBoard mark ifFree pos y row 0)
            (fun displayBoard' =>
               paintRows displayBoard' mark ifFree pos rows' (y + 1))
  end.

(** [renderBoard] of the render whose values are [c]: a copy of the board
    with the ghost marker, unless the ghost is on the row of the piece, and
    then the active piece painted over it. *)
Definition renderBoard (c : State) : result Board :=
  match currentPiece c with
  | None => Done (board c)
  | Some piece =>
      rbind
        (if negb (py (ghostPosition c) =? py (position c))
         then paintRows (board c) "ghost" true (ghostPosition c)
                (shape piece) 0
         else Done (board c))
        (fun displayBoard =>
           paintRows displayBoard (color piece) false (position c)
             (shape piece) 0)
  end.

(** The cell is on the board. *)
Definition onBoard (r c : Z) : bool :=
  (0 <=? r) && (r <? BOARD_HEIGHT) && (0 <=? c) && (c <? BOARD_WIDTH).

(** ** Well-formedness *)

(** A board of [BOARD_HEIGHT] rows of [BOARD_WIDTH] cells. *)
Definition wfBoard (b : Board) : bool :=
  (length b =? Z.to_nat BOARD_HEIGHT)%nat
  && forallb (fun row => (length row =? Z.to_nat BOARD_WIDTH)%nat) b.

(** The piece has at least one occupied cell. *)
Definition hasCell (piece : Tetromino) : bool :=
  existsb (existsb truthy) (shape piece).

(** Every occupied cell of the piece at [pos] lies between the walls and
    above the floor: the validator accepts it on the empty board. *)
Definition withinWalls (piece : Tetromino) (pos : Position) : bool :=
  match isValidOn createEmptyBoard piece pos with
  | Done true => true
  | _ => false
  end.

(** The board cell at row [r], column [c] lies under an occupied cell of
    the piece at [pos]. *)
Definition covered (piece : Tetromino) (pos : Position) (r c : Z) : bool :=
  (0 <=? r) && truthy (shapeAt (shape piece) (r - py pos) (c - px pos)).

(** The pieces of the game: the catalogue and what rotation makes of it. *)
Inductive GamePiece : Tetromino -> Prop :=
  | GamePiece_fresh t : GamePiece (TETROMINOES t)
  | GamePiece_rotated p q :
      GamePiece p -> rotatePiece p = Done q -> GamePiece q.

(** ** Vocabulary of the statements *)

(** All rows of the shape have one length. *)
Definition rectangular (piece : Tetromino) : Prop :=
  exists n, forall row, row ∈ shape piece -> length row = n.

(** The piece that a spawn brings in: the queued one, or a fresh draw when
    the queue is empty. *)
Definition spawnedPiece (random : nat -> TetrominoType) (c : State)
    (w : World) : Tetromino :=
  match nextPiece c with
  | Some p => p
  | None => TETROMINOES (random (draws w))
  end.

Definition spawnDraws (c : State) (w : World) : nat :=
  match nextPiece c with
  | Some _ => S (draws w)
  | None => S (S (draws w))
  end.

(** The state that [checkLines] leaves, as a function of the pending one. *)
Definition afterCheckLines (c : State) (currentBoard : Board) (s : State)
    : State :=
  let newBoard := fst (clearRows currentBoard) in
  let linesCleared := snd (clearRows currentBoard) in
  if 0 <? linesCleared then
    let scored :=
      withScore (addNum (score s)
                   (linePoints linesCleared (combo c + 1) (level c)))
        (withCombo (combo c + 1)
           (withLines (lines s + linesCleared) (withBoard newBoard s))) in
    if lines c / 10 + 1 =? level c then scored
    else withSpeed (Z.max MIN_SPEED
                      (INITIAL_SPEED - (lines c / 10 + 1 - 1) * 100))
           (withLevel (lines c / 10 + 1) scored)
  else withCombo 0 s.

(** All rows of the shape are as long as the first. *)
Definition rectb (piece : Tetromino) : bool :=
  match shape piece with
  | [] => true
  | row0 :: rows =>
      forallb (fun row => (length row =? length row0)%nat) rows
  end.

(** The shape has at most four rows and four columns. *)
Definition small (piece : Tetromino) : bool :=
  (length (shape piece) <=? 4)%nat
  && match shape piece with
     | [] => true
     | row0 :: _ => (length row0 <=? 4)%nat
     end.

Definition okPiece (piece : Tetromino) : bool :=
  hasCell piece && rectb piece && small piece.

Definition okSlot (slot : option Tetromino) : bool :=
  match slot with
  | Some piece => okPiece piece
  | None => true
  end.

Definition wfState (s : State) : bool :=
  wfBoard (board s) && okSlot (currentPiece s) && okSlot (nextPiece s)
  && okSlot (heldPiece s)
  && match currentPiece s with
     | Some piece => withinWalls piece (position s)
     | None => true
     end.

Definition kicked (pos kick : Position) : Position :=
  mkPosition (px pos + px kick) (py pos + py kick).

(** [moveDown] would lock the piece: there is an active piece, the game
    runs, and the validator does not accept the position one row down. *)
Definition locks (s : State) : bool :=
  match currentPiece s with
  | Some piece =>
      negb (gameOver s || paused s)
      && match isValidPosition s piece
                 (mkPosition (px (position s)) (py (position s) + 1)) with
         | Done true => false
         | _ => true
         end
  | None => false
  end.

(** [holdPiece] gets past its guard. *)
Definition holds (s : State) : bool :=
  match currentPiece s with
  | Some _ => canHold s && negb (gameOver s) && negb (paused s)
  | None => false
  end.

Definition wfWorld (w : World) : bool :=
  wfState (now w) && forallb wfState (timeouts w).

(** The value of [canHold] that an event leaves: a start and a lock raise
    it, an accepted hold lowers it, nothing else touches it. *)
Definition canHoldAfter (e : Event) (w : World) : bool :=
  let s := now w in
  match e with
  | KeyDown code =>
      if negb (gameStarted s) && bool_decide (code = Space) then true
      else
        match code with
        | ArrowDown => if locks s then true else canHold s
        | KeyC | ShiftLeft => if holds s then false else canHold s
        | _ => canHold s
        end
  | Tick =>
      if gameStarted s && negb (gameOver s) && negb (paused s) && locks s
      then true else canHold s
  | TimeoutFires =>
      match timeouts w with
      | c :: _ =>
          match currentPiece c with Some _ => true | None => canHold s end
      | [] => canHold s
      end
  | PlayAgain => if gameOver s then true else canHold s
  end.

(** The states that the mounted component can be in, whatever the order of
    events, renders and effects: every occurrence that returns gives a next
    state, and so does an event whose handler raises. *)
Inductive reachable (random : nat -> TetrominoType) : Mounted -> Prop :=
  | reachable_mount : reachable random mounted
  | reachable_occur m o m' :
      reachable random m -> occur random o m = Done m' ->
      reachable random m'
  | reachable_raise m e :
      reachable random m -> occur random (Handle e) m = TypeError ->
      reachable random (afterRaise e m).

(** ** Scenarios *)

(** A source of draws that goes through the catalogue in order. *)
Definition inOrder (n : nat) : TetrominoType :=
  match n with
  | 0 => TI | 1 => TO | 2 => TT | 3 => TS | 4 => TZ | 5 => TJ | _ => TL
  end%nat.

(** The world right after the first start with [inOrder]: the first draw
    was queued and then replaced, the second is the active piece, the third
    is queued. *)
Definition freshGame : World :=
  mkWorld
    (mkState createEmptyBoard (Some (TETROMINOES TO)) (mkPosition 4 0)
       (Some (TETROMINOES TT)) None true (Int 0) 1 0 false false true
       INITIAL_SPEED 0 (mkPosition 4 18))
    3 [].

(** A bottom row that lacks its four leftmost cells, under nineteen empty
    rows. *)
Definition lineBoard : Board :=
  replicate 19 emptyRow
  ++ [replicate 4 Null ++ replicate 6 (Color "#f00000")].

(** Nine lines cleared so far, level 1; the I piece lies in the gap of the
    bottom row, so the next step down locks it and completes the row. *)
Definition lineState : State :=
  mkState lineBoard (Some (TETROMINOES TI)) (mkPosition 0 19)
    (Some (TETROMINOES TO)) None true (Int 0) 1 9 false false true
    INITIAL_SPEED 0 (mkPosition 0 19).

(** The same game, paused. *)
Definition pausedState : State := withPaused true lineState.

(** Column 5 filled from row 1 down to the floor. *)
Definition towerBoard : Board :=
  emptyRow
  :: replicate 19 (replicate 5 Null ++ [Color "#f00000"] ++ replicate 4 Null).

(** The I piece rests on the floor next to the tower; the T piece is
    queued, and its spawn cells overlap the tower. *)
Definition towerState : State :=
  mkState towerBoard (Some (TETROMINOES TI)) (mkPosition 0 19)
    (Some (TETROMINOES TT)) None true (Int 0) 1 0 false false true
    INITIAL_SPEED 0 (mkPosition 0 19).

(** The T piece, turned once, standing against the right wall of an empty
    board. *)
Definition wallState : State :=
  mkState createEmptyBoard
    (Some (mkTetromino TT [[1; 0]; [1; 1]; [1; 0]] "#a000f0"))
    (mkPosition 8 5) (Some (TETROMINOES TO)) None true (Int 0) 1 0
    false false true INITIAL_SPEED 0 (mkPosition 8 17).

(** Two full rows with a partial row between them, under seventeen empty
    rows. *)
Definition stackBoard : Board :=
  replicate 17 emptyRow
  ++ [ replicate 10 (Color "#f00000");
       replicate 4 Null ++ replicate 6 (Color "#f00000");
       replicate 10 (Color "#00f000") ].

(** The two bottom rows lack their two rightmost cells; the O piece sits in
    the gap.  Level 1, no combo. *)
Definition twoLineState : State :=
  mkState
    (replicate 18 emptyRow
     ++ replicate 2 (replicate 8 (Color "#f00000") ++ replicate 2 Null))
    (Some (TETROMINOES TO)) (mkPosition 8 18) (Some (TETROMINOES TT)) None
    true (Int 0) 1 0 false false true INITIAL_SPEED 0 (mkPosition 8 18).

(** The four bottom rows lack their leftmost cell; the I piece stands
    upright in the gap.  Level 3, twenty lines, no combo. *)
Definition tetrisState : State :=
  mkState
    (replicate 16 emptyRow
     ++ replicate 4 (Null :: replicate 9 (Color "#f00000")))
    (Some (mkTetromino TI [[1]; [1]; [1]; [1]] "#00f0f0")) (mkPosition 0 16)
    (Some (TETROMINOES TT)) None true (Int 0) 3 20 false false true 800 0
    (mkPosition 0 16).

(** The world in which the lock of [towerState] has queued its updates and
    the spawn that follows it is about to run. *)
Definition lockedTower : World :=
  match mergePiece towerState (mkWorld towerState 0 []) with
  | Done (_, w) => w
  | TypeError | Diverges => mkWorld towerState 0 []
  end.

(** A source of draws that makes the I piece the first active piece and
    draws the O piece ever after. *)
Definition iThenO (n : nat) : TetrominoType :=
  match n with 1%nat => TI | _ => TO end.

(** An event that is followed by its render and the effects of the render
    before anything else happens. *)
Definition inSync (e : Event) : list Occurrence := [Handle e; Render; Effects].

(** The mounted component after the occurrences [os]. *)
Definition after (random : nat -> TetrominoType) (os : list Occurrence)
    : Mounted :=
  match occurAll random os mounted with
  | Done m => m
  | TypeError | Diverges => mounted
  end.

(** Start, then nineteen gravity ticks: with [iThenO] the I piece lies flat
    on the floor, at x = 3, y = 19. *)
Definition toFloor : list Occurrence :=
  inSync (KeyDown Space) ++ concat (replicate 19 (inSync Tick)).

(** The tick that locks the I piece and spawns the O piece, and then
    ArrowLeft before the render: the key is handled by the listener of the
    render that still had the I piece at (3, 19), which moves "the piece" to
    (2, 19). *)
Definition staleLeft : list Occurrence :=
  toFloor ++ [Handle Tick; Handle (KeyDown ArrowLeft); Render; Effects].

(** Start, a quarter turn, five steps to the right and sixteen ticks: with
    [iThenO] the I piece stands upright at x = 8, y = 16. *)
Definition toWall : list Occurrence :=
  inSync (KeyDown Space) ++ inSync (KeyDown ArrowUp)
  ++ concat (replicate 5 (inSync (KeyDown ArrowRight)))
  ++ concat (replicate 16 (inSync Tick)).

(** The tick that locks the upright I piece, ArrowRight before the render
    (the O piece lands at x = 9), and the tick that locks the O piece. *)
Definition staleRight : list Occurrence :=
  toWall ++ [Handle Tick; Handle (KeyDown ArrowRight); Render; Effects;
             Handle Tick].

(** ** Further vocabulary *)

(** Every occupied cell of the piece at [pos] is between the walls, above
    the floor and, when it is on the board, over a free cell. *)
Definition cellsFree (b : Board) (piece : Tetromino) (pos : Position) : Prop :=
  forall i j,
    truthy (shapeAt (shape piece) i j) = true ->
    0 <= px pos + j < BOARD_WIDTH /\ py pos + i < BOARD_HEIGHT /\
    (0 <= py pos + i ->
     cellTruthy (cellAt b (py pos + i) (px pos + j)) = false).

(** [rotatePiece] applied [n] times. *)
Fixpoint rotateTimes (n : nat) (piece : Tetromino) : result Tetromino :=
  match n with
  | O => Done piece
  | S n' => rbind (rotatePiece piece) (rotateTimes n')
  end.

(** The shape has [R] rows of [C] entries each. *)
Definition hasDims (s : list (list Z)) (R C : nat) : bool :=
  (length s =? R)%nat && forallb (fun row => (length row =? C)%nat) s.

(** The number of full rows of a board. *)
Definition fullRows (b : Board) : nat :=
  length (filter (fun row => isFull row = true) b).

(** The position at which a piece is brought in. *)
Definition spawnPosition (piece : Tetromino) : Position :=
  mkPosition
    (BOARD_WIDTH / 2 - Z.of_nat (length (default [] (head (shape piece)))) / 2)
    0.

(** The state that [startGame] queues before it spawns. *)
Definition resetState (next : Tetromino) (s : State) : State :=
  mkState createEmptyBoard (currentPiece s) (position s) (Some next) None
    true (Int 0) 1 0 false false true INITIAL_SPEED 0 (ghostPosition s).

(** The score is a number. *)
Definition isNumber (n : num) : bool :=
  match n with Int _ => true | NaN => false end.

(** The board has no full row, the score is a number, the counters are in
    their ranges and the speed is the one that belongs to the level. *)
Definition tidy (s : State) : bool :=
  (fullRows (board s) =? 0)%nat && isNumber (score s)
  && (0 <=? lines s) && (1 <=? level s) && (0 <=? combo s)
  && (speed s =? Z.max MIN_SPEED (INITIAL_SPEED - (level s - 1) * 100)).

(** Nothing that [tidy] looks at changes, except that the score may move to
    another number. *)
Definition calm (s s' : State) : Prop :=
  board s' = board s /\ lines s' = lines s /\ level s' = level s /\
  combo s' = combo s /\ speed s' = speed s /\
  (isNumber (score s) = true -> isNumber (score s') = true).

(** The three slots hold well-formed pieces. *)
Definition okSlots (s : State) : bool :=
  okSlot (currentPiece s) && okSlot (nextPiece s) && okSlot (heldPiece s).

(** The board has 20 rows, none shorter than 10 cells. *)
Definition tallBoard (b : Board) : bool :=
  (length b =? Z.to_nat BOARD_HEIGHT)%nat
  && forallb (fun row => (Z.to_nat BOARD_WIDTH <=? length row)%nat) b.

(** What holds of every state of the component, also when events were
    handled by the functions of earlier renders. *)
Definition sound (s : State) : bool :=
  tidy s && okSlots s && tallBoard (board s).

Definition soundMounted (m : Mounted) : bool :=
  sound (now (world m)) && forallb sound (timeouts (world m))
  && sound (committed m) && sound (installed m).

(** The board write of [mergePiece] raises at this render. *)
Definition lockRaises (c : State) : bool :=
  match currentPiece c with
  | Some piece =>
      match lockCells (board c) piece (position c) with
      | TypeError => true
      | Done _ | Diverges => false
      end
  | None => false
  end.

(** An occupied cell of the piece at [pos] lies below the last row of the
    board. *)
Definition belowFloor (piece : Tetromino) (pos : Position) : Prop :=
  exists i j,
    truthy (shapeAt (shape piece) i j) = true /\ BOARD_HEIGHT <= py pos + i.

(** * Properties *)

(** ** Boards and the validator *)

Lemma wfBoard_length b : wfBoard b = true -> length b = Z.to_nat BOARD_HEIGHT.
Proof.
  unfold wfBoard. intros H. apply andb_prop in H as [H _].
  by apply Nat.eqb_eq in H.
Qed.

Lemma wfBoard_row b i row :
  wfBoard b = true -> b !! i = Some row -> length row = Z.to_nat BOARD_WIDTH.
Proof.
  unfold wfBoard. intros H Hrow. apply andb_prop in H as [_ H].
  rewrite forallb_forall in H.
  apply Nat.eqb_eq, H, list_elem_of_In. by eapply list_elem_of_lookup_2.
Qed.

Lemma tall_lookup (b : Board) r :
  (Z.to_nat BOARD_HEIGHT <= length b)%nat -> 0 <= r < BOARD_HEIGHT ->
  exists row, b !! Z.to_nat r = Some row.
Proof.
  intros Hlen Hr. apply lookup_lt_is_Some_2. unfold BOARD_HEIGHT in *. lia.
Qed.

Lemma checkRow_total b pos y row x :
  (Z.to_nat BOARD_HEIGHT <= length b)%nat ->
  exists v, checkRow b pos y row x = Done v.
Proof.
  intros Hlen. revert x. induction row as [|v row IH]; intros x; simpl.
  - by eexists.
  - destruct (truthy v); [|apply IH].
    destruct (_ || _) eqn:Hout; [by eexists|].
    apply orb_false_elim in Hout as [_ Hh]. apply Z.leb_gt in Hh.
    destruct (0 <=? py pos + y) eqn:Hy; [|apply IH].
    apply Z.leb_le in Hy.
    destruct (tall_lookup b (py pos + y)) as [line ->]; [done|lia|].
    destruct (cellTruthy _); [by eexists|apply IH].
Qed.

Lemma checkRows_total b pos rows y :
  (Z.to_nat BOARD_HEIGHT <= length b)%nat ->
  exists v, checkRows b pos rows y = Done v.
Proof.
  intros Hlen. revert y. induction rows as [|row rows IH]; intros y; simpl.
  - by eexists.
  - destruct (checkRow_total b pos y row 0 Hlen) as [[] ->]; [apply IH|by eexists].
Qed.

Lemma isValidOn_total b piece pos :
  wfBoard b = true -> exists v, isValidOn b piece pos = Done v.
Proof.
  intros Hb. apply checkRows_total. by rewrite (wfBoard_length b Hb).
Qed.

(** An accepted position keeps every occupied row above the floor. *)

Lemma checkRow_true_floor b pos y row x :
  checkRow b pos y row x = Done true -> existsb truthy row = true ->
  py pos + y < BOARD_HEIGHT.
Proof.
  revert x. induction row as [|v row IH]; intros x; simpl; [done|].
  destruct (truthy v); simpl.
  - intros H _. destruct (_ || _) eqn:Hout; [done|].
    apply orb_false_elim in Hout as [_ Hh]. by apply Z.leb_gt in Hh.
  - apply IH.
Qed.

Lemma checkRows_true_floor b pos rows y :
  checkRows b pos rows y = Done true -> existsb (existsb truthy) rows = true ->
  0 <= y -> py pos + y < BOARD_HEIGHT.
Proof.
  revert y. induction rows as [|row rows IH]; intros y; simpl; [done|].
  destruct (checkRow b pos y row 0) as [[]| |] eqn:Hrow; try done.
  intros Hrows Hcell Hy. apply orb_prop in Hcell as [Hcell|Hcell].
  - by eapply checkRow_true_floor.
  - specialize (IH (y + 1) Hrows Hcell). lia.
Qed.

Lemma isValidOn_true_floor b piece pos :
  isValidOn b piece pos = Done true -> hasCell piece = true ->
  py pos < BOARD_HEIGHT.
Proof.
  intros Hv Hc. pose proof (checkRows_true_floor _ _ _ _ Hv Hc). lia.
Qed.

(** ** The ghost loop and the hard-drop loop *)

(** With enough rounds the ghost loop returns the first row, from the start
    downwards, below which the validator rejects the piece. *)

Lemma ghostLoop_resting rounds b piece x y0 :
  wfBoard b = true -> hasCell piece = true ->
  (Z.to_nat (BOARD_HEIGHT - y0) < rounds)%nat ->
  exists g,
    ghostLoop rounds b piece x y0 = Done g /\ y0 <= g /\
    isValidOn b piece (mkPosition x (g + 1)) = Done false /\
    (forall k, y0 < k <= g -> isValidOn b piece (mkPosition x k) = Done true).
Proof.
  intros Hb Hc. revert y0.
  induction rounds as [|rounds IH]; intros y0 Hr; [lia|]. simpl.
  destruct (isValidOn_total b piece (mkPosition x (y0 + 1)) Hb) as [[] Hv];
    rewrite Hv.
  - pose proof (isValidOn_true_floor _ _ _ Hv Hc) as Hfloor. simpl in Hfloor.
    destruct (IH (y0 + 1)) as (g & Hg & Hle & Hrest & Hbetween); [lia|].
    exists g. repeat split; [done|lia|done|].
    intros k Hk. destruct (decide (k = y0 + 1)) as [->|]; [done|].
    apply Hbetween. lia.
  - exists y0. repeat split; [lia|done|]. intros k Hk. lia.
Qed.

(** The hard-drop loop is the ghost loop with a step counter. *)

Lemma dropLoop_ghostLoop rounds b piece pos d :
  dropLoop rounds b piece pos d =
  rbind (ghostLoop rounds b piece (px pos) (py pos))
        (fun g => Done (mkPosition (px pos) g, d + (g - py pos))).
Proof.
  revert pos d. induction rounds as [|rounds IH]; intros [x y] d; simpl; [done|].
  destruct (isValidOn b piece _) as [[]| |]; try done.
  - rewrite IH. simpl. destruct (ghostLoop _ _ _ _ _) as [g| |]; simpl; try done.
    replace (d + 1 + (g - (y + 1))) with (d + (g - y)) by lia. done.
  - simpl. replace (d + (y - y)) with d by lia. done.
Qed.

(** A piece without an occupied cell is accepted everywhere, so the two
    loops never end for it; this is the only way they can fail to end. *)

Lemma checkRow_no_cell b pos y row x :
  existsb truthy row = false -> checkRow b pos y row x = Done true.
Proof.
  revert x. induction row as [|v row IH]; intros x; simpl; [done|].
  intros H. apply orb_false_elim in H as [-> H]. by apply IH.
Qed.

Lemma isValidOn_no_cell b piece pos :
  hasCell piece = false -> isValidOn b piece pos = Done true.
Proof.
  unfold hasCell, isValidOn. generalize 0.
  induction (shape piece) as [|row rows IH]; intros y; simpl; [done|].
  intros H. apply orb_false_elim in H as [Hrow H].
  rewrite checkRow_no_cell by done. by apply IH.
Qed.

Lemma ghostLoop_no_cell rounds b piece x y0 :
  hasCell piece = false -> ghostLoop rounds b piece x y0 = Diverges.
Proof.
  intros Hc. revert y0. induction rounds as [|rounds IH]; intros y0; simpl;
    [done|]. rewrite isValidOn_no_cell by done. apply IH.
Qed.

Lemma ghostLoop_Diverges b piece pos :
  wfBoard b = true ->
  ghostLoop (loopBound (py pos)) b piece (px pos) (py pos) = Diverges <->
  hasCell piece = false.
Proof.
  intros Hb. split.
  - intros Hd. destruct (hasCell piece) eqn:Hc; [|done].
    destruct (ghostLoop_resting (loopBound (py pos)) b piece (px pos) (py pos))
      as (g & Hg & _); [done|done|unfold loopBound; lia|congruence].
  - apply ghostLoop_no_cell.
Qed.

(** ** Rotation *)

Lemma rotatePiece_shape piece row0 rows :
  shape piece = row0 :: rows ->
  exists q,
    rotatePiece piece = Done q /\ type q = type piece /\ color q = color piece /\
    length (shape q) = length row0 /\
    (forall row, row ∈ shape q -> length row = length (shape piece)) /\
    (forall r c,
       0 <= r < Z.of_nat (length row0) ->
       0 <= c < Z.of_nat (length (shape piece)) ->
       shapeAt (shape q) r c =
       shapeAt (shape piece) (Z.of_nat (length (shape piece)) - 1 - c) r).
Proof.
  intros Hs. unfold rotatePiece. rewrite Hs, <- Hs.
  eexists. split; [done|]. simpl. repeat split.
  - by rewrite length_imap.
  - intros row Hrow. apply elem_of_lookup_imap_1 in Hrow as (i & v & -> & _).
    by rewrite length_reverse, length_fmap.
  - intros r c Hr Hc. unfold shapeAt, entryAt.
    destruct (r <? 0) eqn:E1; [apply Z.ltb_lt in E1; lia|].
    destruct (c <? 0) eqn:E2; [apply Z.ltb_lt in E2; lia|].
    destruct (_ - 1 - c <? 0) eqn:E3; [apply Z.ltb_lt in E3; lia|]. simpl.
    rewrite list_lookup_imap.
    destruct (lookup_lt_is_Some_2 row0 (Z.to_nat r)) as [v ->]; [lia|]. simpl.
    rewrite reverse_lookup by (rewrite length_fmap; lia).
    rewrite length_fmap, list_lookup_fmap.
    replace (length (shape piece) - S (Z.to_nat c))%nat
      with (Z.to_nat (Z.of_nat (length (shape piece)) - 1 - c)) by lia.
    destruct (lookup_lt_is_Some_2 (shape piece)
                (Z.to_nat (Z.of_nat (length (shape piece)) - 1 - c)))
      as [row ->]; [lia|]. done.
Qed.

Lemma shapeAt_truthy s r c :
  truthy (shapeAt s r c) = true <->
  0 <= r /\ 0 <= c /\
  exists row v, s !! Z.to_nat r = Some row /\ row !! Z.to_nat c = Some v /\
                truthy v = true.
Proof.
  unfold shapeAt, entryAt. split.
  - destruct (r <? 0) eqn:E1; [done|].
    destruct (s !! Z.to_nat r) as [row|]; [|done].
    destruct (c <? 0) eqn:E2; [done|].
    apply Z.ltb_ge in E1, E2.
    destruct (row !! Z.to_nat c) as [v|] eqn:Hv; [|done]. simpl. eauto 10.
  - intros (Hr & Hc & row & v & -> & -> & Hv).
    destruct (r <? 0) eqn:E1; [apply Z.ltb_lt in E1; lia|].
    destruct (c <? 0) eqn:E2; [apply Z.ltb_lt in E2; lia|]. done.
Qed.

Lemma hasCell_shapeAt piece :
  hasCell piece = true <->
  exists r c, truthy (shapeAt (shape piece) r c) = true.
Proof.
  unfold hasCell. rewrite existsb_exists. split.
  - intros (row & Hrow & Hex). apply existsb_exists in Hex as (v & Hv & Ht).
    apply list_elem_of_In, list_elem_of_lookup in Hrow as [i Hi].
    apply list_elem_of_In, list_elem_of_lookup in Hv as [j Hj].
    exists (Z.of_nat i), (Z.of_nat j). apply shapeAt_truthy.
    rewrite !Nat2Z.id. repeat split; [lia|lia|eauto].
  - intros (r & c & H). apply shapeAt_truthy in H
      as (_ & _ & row & v & Hrow & Hv & Ht).
    exists row. split; [eapply list_elem_of_In, list_elem_of_lookup_2, Hrow|].
    apply existsb_exists. exists v.
    split; [eapply list_elem_of_In, list_elem_of_lookup_2, Hv|done].
Qed.

Lemma rotatePiece_hasCell p q :
  rectangular p -> hasCell p = true -> rotatePiece p = Done q ->
  rectangular q /\ hasCell q = true.
Proof.
  intros [n Hn] Hc Hq.
  destruct (shape p) as [|row0 rows] eqn:Hs;
    [by unfold hasCell in Hc; rewrite Hs in Hc|].
  rewrite <- Hs in Hn.
  destruct (rotatePiece_shape p row0 rows Hs)
    as (q' & Hq' & _ & _ & Hlen & Hrows & Hcells).
  assert (q' = q) as -> by congruence. split; [by eexists|].
  apply hasCell_shapeAt in Hc as (r & c & Hrc).
  pose proof Hrc as Hrc'.
  apply shapeAt_truthy in Hrc' as (Hr & Hc & row & v & Hrow & Hv & _).
  apply hasCell_shapeAt.
  exists c, (Z.of_nat (length (shape p)) - 1 - r).
  rewrite Hcells.
  - by replace (Z.of_nat (length (shape p)) - 1 -
                (Z.of_nat (length (shape p)) - 1 - r)) with r by lia.
  - apply lookup_lt_Some in Hv.
    assert (length row = n) as Hnrow
      by (eapply Hn, list_elem_of_lookup_2, Hrow).
    assert (length row0 = n) as Hn0
      by (apply Hn; rewrite Hs; apply list_elem_of_here).
    lia.
  - apply lookup_lt_Some in Hrow. lia.
Qed.

(** ** Line clearing *)

Lemma filterRows_spec rows n :
  filterRows rows n =
  (filter (fun row => isFull row = false) rows,
   n + Z.of_nat (length (filter (fun row => isFull row = true) rows))).
Proof.
  revert n. induction rows as [|row rows IH]; intros n.
  - simpl. f_equal. lia.
  - cbn [filterRows]. rewrite !filter_cons. destruct (isFull row) eqn:Hfull.
    + rewrite decide_False, decide_True by done. rewrite IH. simpl.
      f_equal. lia.
    + rewrite decide_True, decide_False by done. by rewrite IH.
Qed.

Lemma unshiftLoop_spec rounds (b : Board) :
  (Z.to_nat BOARD_HEIGHT - length b <= rounds)%nat ->
  unshiftLoop rounds b =
  replicate (Z.to_nat BOARD_HEIGHT - length b) emptyRow ++ b.
Proof.
  revert b. induction rounds as [|rounds IH]; intros b Hr; simpl.
  - by replace (Z.to_nat BOARD_HEIGHT - length b)%nat with 0%nat by lia.
  - destruct (Z.of_nat (length b) <? BOARD_HEIGHT) eqn:Hlt.
    + apply Z.ltb_lt in Hlt. rewrite IH by (cbn [length]; lia).
      cbn [length].
      replace (Z.to_nat BOARD_HEIGHT - length b)%nat
        with (S (Z.to_nat BOARD_HEIGHT - S (length b)))%nat by lia.
      rewrite replicate_S_end, <- app_assoc. done.
    + apply Z.ltb_ge in Hlt.
      by replace (Z.to_nat BOARD_HEIGHT - length b)%nat with 0%nat by lia.
Qed.

Lemma length_filter_split (rows : Board) :
  (length (filter (fun row => isFull row = true) rows)
   + length (filter (fun row => isFull row = false) rows) = length rows)%nat.
Proof.
  induction rows as [|row rows IH]; [done|]. rewrite !filter_cons.
  destruct (isFull row).
  - rewrite decide_True, decide_False by done. simpl. lia.
  - rewrite decide_False, decide_True by done. simpl. lia.
Qed.

Lemma clearRows_spec b :
  clearRows b =
  (replicate (Z.to_nat BOARD_HEIGHT
              - length (filter (fun row => isFull row = false) b)) emptyRow
     ++ filter (fun row => isFull row = false) b,
   Z.of_nat (length (filter (fun row => isFull row = true) b))).
Proof.
  unfold clearRows. rewrite filterRows_spec. f_equal.
  apply unshiftLoop_spec. lia.
Qed.

Lemma wfBoard_forall b :
  wfBoard b = true <->
  length b = Z.to_nat BOARD_HEIGHT /\
  (forall row, row ∈ b -> length row = Z.to_nat BOARD_WIDTH).
Proof.
  unfold wfBoard. rewrite andb_true_iff, Nat.eqb_eq, forallb_forall.
  split; intros [Hl Hr]; (split; [done|]); intros row Hrow.
  - apply Nat.eqb_eq, Hr. by apply list_elem_of_In.
  - apply Nat.eqb_eq, Hr. by apply list_elem_of_In.
Qed.

Lemma clearRows_wfBoard b : wfBoard b = true -> wfBoard (fst (clearRows b)) = true.
Proof.
  rewrite !wfBoard_forall. intros [Hl Hr]. rewrite clearRows_spec. simpl.
  pose proof (length_filter_split b). split.
  - rewrite length_app, length_replicate. lia.
  - intros row [Hrow|Hrow]%elem_of_app.
    + apply elem_of_replicate in Hrow as [-> _]. apply length_replicate.
    + apply list_elem_of_filter in Hrow as [_ Hrow]. by apply Hr.
Qed.

(** ** What an accepted position says about the cells *)

Lemma entryAt_cons v row j :
  entryAt (v :: row) j = if j =? 0 then v else entryAt row (j - 1).
Proof.
  unfold entryAt. destruct (j =? 0) eqn:E0.
  - apply Z.eqb_eq in E0 as ->. done.
  - apply Z.eqb_neq in E0. destruct (j <? 0) eqn:E1.
    + apply Z.ltb_lt in E1. by destruct (j - 1 <? 0) eqn:E2;
        [|apply Z.ltb_ge in E2; lia].
    + apply Z.ltb_ge in E1. destruct (j - 1 <? 0) eqn:E2;
        [apply Z.ltb_lt in E2; lia|].
      replace (Z.to_nat j) with (S (Z.to_nat (j - 1))) by lia. done.
Qed.

Lemma entryAt_nil j : entryAt [] j = 0.
Proof. unfold entryAt. by destruct (j <? 0). Qed.

Lemma shapeAt_cons row rows i j :
  shapeAt (row :: rows) i j =
  if i =? 0 then entryAt row j else shapeAt rows (i - 1) j.
Proof.
  unfold shapeAt. destruct (i =? 0) eqn:E0.
  - apply Z.eqb_eq in E0 as ->. done.
  - apply Z.eqb_neq in E0. destruct (i <? 0) eqn:E1.
    + apply Z.ltb_lt in E1. by destruct (i - 1 <? 0) eqn:E2;
        [|apply Z.ltb_ge in E2; lia].
    + apply Z.ltb_ge in E1. destruct (i - 1 <? 0) eqn:E2;
        [apply Z.ltb_lt in E2; lia|].
      replace (Z.to_nat i) with (S (Z.to_nat (i - 1))) by lia. done.
Qed.

Lemma shapeAt_nil i j : shapeAt [] i j = 0.
Proof. unfold shapeAt. by destruct (i <? 0). Qed.

Lemma checkRow_cons_true b pos y v row x :
  checkRow b pos y (v :: row) x = Done true ->
  checkRow b pos y row (x + 1) = Done true.
Proof.
  simpl. destruct (truthy v); [|done].
  destruct (_ || _); [done|]. destruct (0 <=? _); [|done].
  destruct (b !! _); [|done]. by destruct (cellTruthy _).
Qed.

(** What an accepted position says about each occupied cell. *)
Lemma checkRow_true_cells b pos y row x j :
  checkRow b pos y row x = Done true -> truthy (entryAt row j) = true ->
  0 <= px pos + x + j < BOARD_WIDTH /\ py pos + y < BOARD_HEIGHT /\
  (0 <= py pos + y ->
   cellTruthy (cellAt b (py pos + y) (px pos + x + j)) = false).
Proof.
  revert x j. induction row as [|v row IH]; intros x j Hrow Hj.
  - by rewrite entryAt_nil in Hj.
  - rewrite entryAt_cons in Hj. destruct (j =? 0) eqn:E0.
    + apply Z.eqb_eq in E0 as ->. rewrite Z.add_0_r.
      simpl in Hrow. rewrite Hj in Hrow.
      destruct (_ || _) eqn:Hout; [done|].
      apply orb_false_elim in Hout as [Hout Hh].
      apply orb_false_elim in Hout as [Hl Hw].
      apply Z.ltb_ge in Hl. apply Z.leb_gt in Hw, Hh.
      repeat split; try lia. intros Hy.
      destruct (0 <=? py pos + y) eqn:Hy'; [|apply Z.leb_gt in Hy'; lia].
      destruct (b !! Z.to_nat (py pos + y)) as [line|] eqn:Hline; [|done].
      destruct (cellTruthy (rowAt line (px pos + x))) eqn:Hcell; [done|].
      unfold cellAt.
      destruct (py pos + y <? 0) eqn:E; [apply Z.ltb_lt in E; lia|].
      by rewrite Hline.
    + apply checkRow_cons_true in Hrow.
      specialize (IH (x + 1) (j - 1) Hrow Hj).
      by replace (px pos + (x + 1) + (j - 1)) with (px pos + x + j) in IH
        by lia.
Qed.

Lemma checkRows_true_cells b pos rows y i j :
  checkRows b pos rows y = Done true -> truthy (shapeAt rows i j) = true ->
  0 <= px pos + j < BOARD_WIDTH /\ py pos + y + i < BOARD_HEIGHT /\
  (0 <= py pos + y + i ->
   cellTruthy (cellAt b (py pos + y + i) (px pos + j)) = false).
Proof.
  revert y i. induction rows as [|row rows IH]; intros y i; simpl.
  - by rewrite shapeAt_nil.
  - rewrite shapeAt_cons.
    destruct (checkRow b pos y row 0) as [[]| |] eqn:Hrow; try done.
    intros Hrows Hij. destruct (i =? 0) eqn:E0.
    + apply Z.eqb_eq in E0 as ->. rewrite Z.add_0_r.
      pose proof (checkRow_true_cells _ _ _ _ _ _ Hrow Hij) as H.
      by rewrite Z.add_0_r in H.
    + specialize (IH (y + 1) (i - 1) Hrows Hij).
      by replace (py pos + (y + 1) + (i - 1)) with (py pos + y + i) in IH
        by lia.
Qed.

Lemma isValidOn_true_cells b piece pos i j :
  isValidOn b piece pos = Done true ->
  truthy (shapeAt (shape piece) i j) = true ->
  0 <= px pos + j < BOARD_WIDTH /\ py pos + i < BOARD_HEIGHT /\
  (0 <= py pos + i -> cellTruthy (cellAt b (py pos + i) (px pos + j)) = false).
Proof.
  intros Hv Hij. pose proof (checkRows_true_cells _ _ _ _ _ _ Hv Hij) as H.
  by rewrite Z.add_0_r in H.
Qed.

Lemma withinWalls_cells piece pos i j :
  withinWalls piece pos = true ->
  truthy (shapeAt (shape piece) i j) = true ->
  0 <= px pos + j < BOARD_WIDTH /\ py pos + i < BOARD_HEIGHT.
Proof.
  unfold withinWalls. intros Hw Hij.
  destruct (isValidOn createEmptyBoard piece pos) as [[]| |] eqn:Hv; try done.
  destruct (isValidOn_true_cells _ _ _ _ _ Hv Hij) as (? & ? & _). done.
Qed.

(** ** Locking *)

Lemma rowAt_writeAt line C v c :
  0 <= C -> rowAt (writeAt line C v) c = if c =? C then v else rowAt line c.
Proof.
  intros HC. unfold rowAt, writeAt.
  destruct (C <? 0) eqn:E; [apply Z.ltb_lt in E; lia|]. clear E.
  destruct (c =? C) eqn:EcC.
  - apply Z.eqb_eq in EcC as ->.
    destruct (C <? 0) eqn:E; [apply Z.ltb_lt in E; lia|]. clear E.
    destruct (Z.to_nat C <? length line)%nat eqn:Hin.
    + apply Nat.ltb_lt in Hin. by rewrite list_lookup_insert_eq.
    + apply Nat.ltb_ge in Hin.
      rewrite lookup_app_r by done.
      rewrite lookup_app_r by (rewrite length_replicate; lia).
      rewrite length_replicate.
      by replace (Z.to_nat C - length line
                  - (Z.to_nat C - length line))%nat with 0%nat by lia.
  - apply Z.eqb_neq in EcC. destruct (c <? 0) eqn:Ec; [done|].
    apply Z.ltb_ge in Ec.
    destruct (Z.to_nat C <? length line)%nat eqn:Hin.
    + by rewrite list_lookup_insert_ne by lia.
    + apply Nat.ltb_ge in Hin.
      destruct (decide (Z.to_nat c < length line)%nat) as [Hlt|Hge].
      * by rewrite lookup_app_l.
      * rewrite lookup_app_r by lia.
        rewrite (lookup_ge_None_2 line) by lia. simpl.
        destruct (decide (Z.to_nat c < Z.to_nat C)%nat) as [Hgap|Hpast].
        -- rewrite lookup_app_l by (rewrite length_replicate; lia).
           rewrite lookup_replicate_2 by lia. done.
        -- rewrite lookup_ge_None_2; [done|].
           rewrite length_app, length_replicate. simpl. lia.
Qed.

Lemma cellAt_insert (b : Board) R line' r c :
  (R < length b)%nat ->
  cellAt (<[R := line']> b) r c =
  if r =? Z.of_nat R then rowAt line' c else cellAt b r c.
Proof.
  intros HR. unfold cellAt. destruct (r <? 0) eqn:Er.
  - apply Z.ltb_lt in Er.
    by destruct (r =? Z.of_nat R) eqn:E; [apply Z.eqb_eq in E; lia|].
  - apply Z.ltb_ge in Er. destruct (r =? Z.of_nat R) eqn:E.
    + apply Z.eqb_eq in E as ->. rewrite Nat2Z.id.
      by rewrite list_lookup_insert_eq.
    + apply Z.eqb_neq in E. by rewrite list_lookup_insert_ne by lia.
Qed.

Lemma wfBoard_insert b R line line' :
  wfBoard b = true -> b !! R = Some line -> length line' = length line ->
  wfBoard (<[R := line']> b) = true.
Proof.
  rewrite !wfBoard_forall. intros [Hl Hr] Hline Hlen. split.
  - by rewrite length_insert.
  - intros row Hrow. apply list_elem_of_lookup in Hrow as [i Hi].
    destruct (decide (i = R)) as [->|Hne].
    + rewrite list_lookup_insert_eq in Hi by (by eapply lookup_lt_Some).
      injection Hi as <-. rewrite Hlen.
      by eapply Hr, list_elem_of_lookup_2.
    + rewrite list_lookup_insert_ne in Hi by done.
      by eapply Hr, list_elem_of_lookup_2.
Qed.

Lemma length_writeAt line C v :
  0 <= C < Z.of_nat (length line) -> length (writeAt line C v) = length line.
Proof.
  intros HC. unfold writeAt.
  destruct (C <? 0); [done|].
  destruct (Z.to_nat C <? length line)%nat eqn:Hin.
  - by rewrite length_insert.
  - apply Nat.ltb_ge in Hin. lia.
Qed.

(** The inner loop of the lock writes the colour under the occupied
    entries of one shape row and nothing else. *)
Lemma lockRow_spec paint pos y row : forall nb x,
  wfBoard nb = true ->
  (forall j, truthy (entryAt row j) = true ->
             0 <= px pos + x + j < BOARD_WIDTH /\ py pos + y < BOARD_HEIGHT) ->
  exists nb',
    lockRow nb paint pos y row x = Done nb' /\ wfBoard nb' = true /\
    forall r c,
      cellAt nb' r c =
      if (0 <=? r) && (r =? py pos + y)
         && truthy (entryAt row (c - px pos - x))
      then Color paint else cellAt nb r c.
Proof.
  induction row as [|v row IH]; intros nb x Hwf Hcols; simpl.
  - exists nb. repeat split; [done|]. intros r c.
    rewrite entryAt_nil. by rewrite andb_false_r.
  - assert (forall j, truthy (entryAt row j) = true ->
                      0 <= px pos + (x + 1) + j < BOARD_WIDTH
                      /\ py pos + y < BOARD_HEIGHT) as Hcols'.
    { intros j Hj. specialize (Hcols (j + 1)). rewrite entryAt_cons in Hcols.
      destruct (j + 1 =? 0) eqn:E.
      - apply Z.eqb_eq in E. unfold entryAt in Hj.
        by destruct (j <? 0) eqn:E'; [|apply Z.ltb_ge in E'; lia].
      - replace (j + 1 - 1) with j in Hcols by lia.
        specialize (Hcols Hj). lia. }
    assert (forall nb1 : Board,
      (forall r c, cellAt nb1 r c =
         if (0 <=? r) && (r =? py pos + y) && (c =? px pos + x) && truthy v
         then Color paint else cellAt nb r c) ->
      forall nb', (forall r c, cellAt nb' r c =
         if (0 <=? r) && (r =? py pos + y)
            && truthy (entryAt row (c - px pos - (x + 1)))
         then Color paint else cellAt nb1 r c) ->
      forall r c, cellAt nb' r c =
         if (0 <=? r) && (r =? py pos + y)
            && truthy (entryAt (v :: row) (c - px pos - x))
         then Color paint else cellAt nb r c) as Hglue.
    { intros nb1 H1 nb' H' r c. rewrite H', H1, entryAt_cons.
      replace (c - px pos - (x + 1)) with (c - px pos - x - 1) by lia.
      destruct (c - px pos - x =? 0) eqn:E0.
      - apply Z.eqb_eq in E0.
        assert ((c =? px pos + x) = true) as -> by (apply Z.eqb_eq; lia).
        rewrite E0. unfold entryAt at 1. simpl.
        rewrite !andb_false_r, andb_true_r. done.
      - apply Z.eqb_neq in E0.
        assert ((c =? px pos + x) = false) as -> by (apply Z.eqb_neq; lia).
        rewrite andb_false_r. simpl.
        by destruct ((0 <=? r) && (r =? py pos + y) && _). }
    destruct (truthy v) eqn:Hv.
    + destruct (0 <=? py pos + y) eqn:Hy0.
      * apply Z.leb_le in Hy0.
        assert (0 <= px pos + x < BOARD_WIDTH /\ py pos + y < BOARD_HEIGHT)
          as [Hx Hy].
        { specialize (Hcols 0). rewrite entryAt_cons in Hcols. simpl in Hcols.
          specialize (Hcols Hv). lia. }
        destruct (tall_lookup nb (py pos + y)) as [line Hline];
          [by rewrite (wfBoard_length nb Hwf)|lia|]. rewrite Hline.
        pose proof (wfBoard_row _ _ _ Hwf Hline) as Hlen.
        set (nb1 := <[Z.to_nat (py pos + y) :=
                       writeAt line (px pos + x) (Color paint)]> nb).
        assert (wfBoard nb1 = true) as Hwf1.
        { eapply wfBoard_insert; [done..|]. apply length_writeAt.
          unfold BOARD_WIDTH in *. lia. }
        destruct (IH nb1 (x + 1) Hwf1 Hcols') as (nb' & -> & Hwf' & Hc').
        exists nb'. repeat split; [done|]. apply (Hglue nb1); [|done].
        intros r c. unfold nb1.
        rewrite cellAt_insert by (by eapply lookup_lt_Some).
        rewrite Z2Nat.id by done. rewrite rowAt_writeAt by lia.
        destruct (r =? py pos + y) eqn:Er.
        -- apply Z.eqb_eq in Er as ->.
           assert ((0 <=? py pos + y) = true) as -> by by apply Z.leb_le.
           simpl. rewrite andb_true_r.
           destruct (c =? px pos + x); [done|].
           unfold cellAt.
           destruct (py pos + y <? 0) eqn:E; [apply Z.ltb_lt in E; lia|].
           by rewrite Hline.
        -- by rewrite andb_false_r.
      * apply Z.leb_gt in Hy0.
        destruct (IH nb (x + 1) Hwf Hcols') as (nb' & -> & Hwf' & Hc').
        exists nb'. repeat split; [done|]. apply (Hglue nb); [|done].
        intros r c. destruct (0 <=? r) eqn:Er; [|done].
        apply Z.leb_le in Er.
        by destruct (r =? py pos + y) eqn:E; [apply Z.eqb_eq in E; lia|].
    + destruct (IH nb (x + 1) Hwf Hcols') as (nb' & -> & Hwf' & Hc').
      exists nb'. repeat split; [done|]. apply (Hglue nb); [|done].
      intros r c. by rewrite andb_false_r.
Qed.

Lemma lockRows_spec paint pos rows : forall nb y,
  wfBoard nb = true ->
  (forall i j, truthy (shapeAt rows i j) = true ->
               0 <= px pos + j < BOARD_WIDTH
               /\ py pos + y + i < BOARD_HEIGHT) ->
  exists nb',
    lockRows nb paint pos rows y = Done nb' /\ wfBoard nb' = true /\
    forall r c,
      cellAt nb' r c =
      if (0 <=? r) && truthy (shapeAt rows (r - py pos - y) (c - px pos))
      then Color paint else cellAt nb r c.
Proof.
  induction rows as [|row rows IH]; intros nb y Hwf Hin; simpl.
  - exists nb. repeat split; [done|]. intros r c.
    by rewrite shapeAt_nil, andb_false_r.
  - destruct (lockRow_spec paint pos y row nb 0 Hwf)
      as (nb1 & -> & Hwf1 & Hc1).
    { intros j Hj. specialize (Hin 0 j). rewrite shapeAt_cons in Hin.
      simpl in Hin. specialize (Hin Hj). lia. }
    simpl. destruct (IH nb1 (y + 1) Hwf1) as (nb' & -> & Hwf' & Hc').
    { intros i j Hij. specialize (Hin (i + 1) j).
      rewrite shapeAt_cons in Hin.
      destruct (i + 1 =? 0) eqn:E.
      - apply Z.eqb_eq in E. unfold shapeAt in Hij.
        by destruct (i <? 0) eqn:E'; [|apply Z.ltb_ge in E'; lia].
      - replace (i + 1 - 1) with i in Hin by lia. specialize (Hin Hij). lia. }
    exists nb'. repeat split; [done|]. intros r c.
    rewrite Hc', Hc1, shapeAt_cons.
    replace (r - py pos - (y + 1)) with (r - py pos - y - 1) by lia.
    replace (c - px pos - 0) with (c - px pos) by lia.
    destruct (r - py pos - y =? 0) eqn:E0.
    + apply Z.eqb_eq in E0.
      assert ((r =? py pos + y) = true) as -> by (apply Z.eqb_eq; lia).
      rewrite E0. unfold shapeAt at 1. simpl.
      by rewrite andb_false_r, andb_true_r.
    + apply Z.eqb_neq in E0.
      assert ((r =? py pos + y) = false) as -> by (apply Z.eqb_neq; lia).
      by rewrite andb_false_r.
Qed.

Lemma lockCells_spec b piece pos :
  wfBoard b = true -> withinWalls piece pos = true ->
  exists nb,
    lockCells b piece pos = Done nb /\ wfBoard nb = true /\
    forall r c,
      cellAt nb r c =
      if covered piece pos r c then Color (color piece) else cellAt b r c.
Proof.
  intros Hwf Hin.
  destruct (lockRows_spec (color piece) pos (shape piece) b 0 Hwf)
    as (nb & Hnb & Hwf' & Hcells).
  { intros i j Hij. rewrite Z.add_0_r. by eapply withinWalls_cells. }
  exists nb. repeat split; [done..|]. intros r c. rewrite Hcells.
  unfold covered. by rewrite Z.sub_0_r.
Qed.

(** ** Running the state functions *)

Lemma ghostOn_total b piece pos :
  wfBoard b = true -> hasCell piece = true ->
  exists ghost, ghostOn b piece pos = Done ghost.
Proof.
  intros Hb Hc. unfold ghostOn.
  destruct (ghostLoop_resting (loopBound (py pos)) b piece (px pos) (py pos))
    as (g & -> & _); [done|done|unfold loopBound; lia|].
  by eexists.
Qed.

Lemma hasCell_startXOf piece :
  hasCell piece = true -> exists row0 rest,
    shape piece = row0 :: rest /\
    startXOf piece = Done (BOARD_WIDTH / 2 - Z.of_nat (length row0) / 2).
Proof.
  unfold hasCell, startXOf. destruct (shape piece) as [|row0 rest]; [done|].
  intros _. by exists row0, rest.
Qed.

Lemma spawnNewPiece_run random c w piece row0 rest start valid :
  spawnedPiece random c w = piece ->
  shape piece = row0 :: rest ->
  start = mkPosition (BOARD_WIDTH / 2 - Z.of_nat (length row0) / 2) 0 ->
  isValidPosition c piece start = Done valid ->
  spawnNewPiece random c w =
  if valid then
    rbind (calculateGhostPosition c piece start) (fun ghost =>
      Done (tt, mkWorld
        (withGhostPosition ghost
          (withNextPiece
             (Some (TETROMINOES (random (Nat.pred (spawnDraws c w)))))
             (withPosition start (withCurrentPiece (Some piece) (now w)))))
        (spawnDraws c w) (timeouts w)))
  else Done (tt, mkWorld (withGameOver true (now w)) (spawnDraws c w)
                         (timeouts w)).
Proof.
  intros Hp Hs Hstart Hv. unfold spawnNewPiece, spawnedPiece, spawnDraws in *.
  destruct (nextPiece c) as [p|]; subst piece;
    unfold mbind, M_bind, mret, M_ret, createRandomTetromino, lift, startXOf;
    rewrite Hs; simpl; rewrite <- Hstart, Hv; simpl;
    destruct valid; simpl; try done;
    by destruct (calculateGhostPosition c _ start).
Qed.

Ltac unfold_setters :=
  unfold setBoard, setCurrentPiece, setPosition, setNextPiece, setHeldPiece,
    setCanHold, setScore, setLevel, setLines, setGameOver, setPaused,
    setGameStarted, setSpeed, setCombo, setGhostPosition, setTimeout, update.

Ltac unfold_m :=
  unfold mbind, M_bind, mret, M_ret, lift; unfold_setters.

Lemma checkLines_run c currentBoard w :
  checkLines c currentBoard w =
  Done (tt, mkWorld (afterCheckLines c currentBoard (now w)) (draws w)
                    (timeouts w)).
Proof.
  unfold checkLines, afterCheckLines.
  destruct (clearRows currentBoard) as [newBoard linesCleared]. simpl.
  destruct (0 <? linesCleared); [|done].
  unfold_m. simpl. by destruct (lines c / 10 + 1 =? level c).
Qed.

Lemma mergePiece_run c w piece nb :
  currentPiece c = Some piece ->
  lockCells (board c) piece (position c) = Done nb ->
  mergePiece c w =
  Done (tt, mkWorld (withCanHold true
                       (afterCheckLines c nb (withBoard nb (now w))))
                    (draws w) (timeouts w)).
Proof.
  intros Hp Hnb. unfold mergePiece. rewrite Hp. unfold mbind, M_bind, lift.
  rewrite Hnb. simpl. unfold setBoard, update. simpl.
  rewrite checkLines_run. done.
Qed.

(** ** Well-formed pieces and states *)

Lemma rectb_rectangular piece : rectb piece = true -> rectangular piece.
Proof.
  unfold rectb, rectangular. destruct (shape piece) as [|row0 rows].
  - intros _. exists 0%nat. intros row Hrow. by apply elem_of_nil in Hrow.
  - rewrite forallb_forall. intros H. exists (length row0). intros row Hrow.
    apply elem_of_cons in Hrow as [->|Hrow]; [done|].
    by apply Nat.eqb_eq, H, list_elem_of_In.
Qed.

Lemma rectangular_rectb piece : rectangular piece -> rectb piece = true.
Proof.
  unfold rectb, rectangular. intros [n Hn].
  destruct (shape piece) as [|row0 rows]; [done|].
  apply forallb_forall. intros row Hrow. apply Nat.eqb_eq.
  rewrite (Hn row), (Hn row0); [done|apply list_elem_of_here|].
  by apply list_elem_of_further, list_elem_of_In.
Qed.

Lemma okPiece_TETROMINOES t : okPiece (TETROMINOES t) = true.
Proof. by destruct t. Qed.

Lemma okPiece_rotatePiece piece :
  okPiece piece = true ->
  exists rotated, rotatePiece piece = Done rotated /\ okPiece rotated = true.
Proof.
  unfold okPiece. intros [[Hc Hr]%andb_prop Hsm]%andb_prop.
  destruct (hasCell_startXOf piece Hc) as (row0 & rest & Hs & _).
  destruct (rotatePiece_shape piece row0 rest Hs)
    as (q & Hq & _ & _ & Hlen & Hrows & _).
  exists q. split; [done|].
  destruct (rotatePiece_hasCell piece q) as [Hr' Hc'];
    [by apply rectb_rectangular|done|done|].
  rewrite Hc', rectangular_rectb by done. simpl.
  unfold small in *. rewrite Hs in Hsm. rewrite <- Hs in Hsm.
  apply andb_prop in Hsm as [Hsm1 Hsm2].
  apply Nat.leb_le in Hsm1, Hsm2. rewrite Hlen.
  apply andb_true_intro. split; [by apply Nat.leb_le|].
  destruct (shape q) as [|q0 qs] eqn:Hsq; [done|].
  apply Nat.leb_le. rewrite (Hrows q0); [done|apply list_elem_of_here].
Qed.

Lemma GamePiece_okPiece p : GamePiece p -> okPiece p = true.
Proof.
  induction 1 as [t|p q _ IH Hq]; [apply okPiece_TETROMINOES|].
  destruct (okPiece_rotatePiece p IH) as (q' & Hq' & Hok). congruence.
Qed.

Lemma okPiece_hasCell p : okPiece p = true -> hasCell p = true.
Proof. by intros [[? _]%andb_prop _]%andb_prop. Qed.

Lemma wfState_fields s :
  wfState s = true ->
  wfBoard (board s) = true /\ okSlot (currentPiece s) = true /\
  okSlot (nextPiece s) = true /\ okSlot (heldPiece s) = true /\
  (forall piece, currentPiece s = Some piece ->
                 withinWalls piece (position s) = true).
Proof.
  unfold wfState. rewrite !andb_true_iff. intros [[[[? ?] ?] ?] Hw].
  repeat split; try done. intros piece Hp. by rewrite Hp in Hw.
Qed.

(** ** Within the walls *)

Lemma createEmptyBoard_lookup r :
  0 <= r < BOARD_HEIGHT -> createEmptyBoard !! Z.to_nat r = Some emptyRow.
Proof.
  intros Hr. unfold createEmptyBoard. apply lookup_replicate_2.
  unfold BOARD_HEIGHT in *. lia.
Qed.

Lemma rowAt_emptyRow x : cellTruthy (rowAt emptyRow x) = false.
Proof.
  unfold rowAt, emptyRow. destruct (x <? 0); [done|].
  destruct (replicate _ _ !! _) as [cell|] eqn:Hcell; [|done].
  by apply lookup_replicate in Hcell as [-> _].
Qed.

Lemma checkRow_on_empty b pos y row x :
  checkRow b pos y row x = Done true ->
  checkRow createEmptyBoard pos y row x = Done true.
Proof.
  revert x. induction row as [|v row IH]; intros x; simpl; [done|].
  destruct (truthy v); [|apply IH].
  destruct (_ || _) eqn:Hout; [done|].
  apply orb_false_elim in Hout as [_ Hh]. apply Z.leb_gt in Hh.
  destruct (0 <=? py pos + y) eqn:Hy; [|apply IH]. apply Z.leb_le in Hy.
  rewrite createEmptyBoard_lookup by lia. rewrite rowAt_emptyRow.
  destruct (b !! _); [|done]. destruct (cellTruthy _); [done|apply IH].
Qed.

Lemma isValidOn_withinWalls b piece pos :
  isValidOn b piece pos = Done true -> withinWalls piece pos = true.
Proof.
  unfold withinWalls, isValidOn. generalize 0.
  induction (shape piece) as [|row rows IH]; intros y; simpl; [done|].
  destruct (checkRow b pos y row 0) as [[]| |] eqn:Hrow; try done.
  rewrite (checkRow_on_empty _ _ _ _ _ Hrow). apply IH.
Qed.

Lemma checkRow_empty_intro pos y row x :
  (forall j, truthy (entryAt row j) = true ->
             0 <= px pos + x + j < BOARD_WIDTH /\ py pos + y < BOARD_HEIGHT) ->
  checkRow createEmptyBoard pos y row x = Done true.
Proof.
  revert x. induction row as [|v row IH]; intros x Hin; simpl; [done|].
  assert (checkRow createEmptyBoard pos y row (x + 1) = Done true) as Hrest.
  { apply IH. intros j Hj. specialize (Hin (j + 1)).
    rewrite entryAt_cons in Hin. destruct (j + 1 =? 0) eqn:E.
    - apply Z.eqb_eq in E. unfold entryAt in Hj.
      by destruct (j <? 0) eqn:E'; [|apply Z.ltb_ge in E'; lia].
    - replace (j + 1 - 1) with j in Hin by lia. specialize (Hin Hj). lia. }
  destruct (truthy v) eqn:Hv; [|done].
  specialize (Hin 0). rewrite entryAt_cons in Hin. simpl in Hin.
  specialize (Hin Hv).
  destruct (_ || _) eqn:Hout.
  { apply orb_prop in Hout as [[Hl|Hr]%orb_prop|Hh].
    - apply Z.ltb_lt in Hl. lia.
    - apply Z.leb_le in Hr. lia.
    - apply Z.leb_le in Hh. lia. }
  destruct (0 <=? py pos + y) eqn:Hy; [|done]. apply Z.leb_le in Hy.
  rewrite createEmptyBoard_lookup by lia. by rewrite rowAt_emptyRow.
Qed.

Lemma checkRows_empty_intro pos rows : forall y,
  (forall i j, truthy (shapeAt rows i j) = true ->
               0 <= px pos + j < BOARD_WIDTH
               /\ py pos + y + i < BOARD_HEIGHT) ->
  checkRows createEmptyBoard pos rows y = Done true.
Proof.
  induction rows as [|row rows IH]; intros y Hin; simpl; [done|].
  rewrite checkRow_empty_intro.
  - apply IH. intros i j Hij. specialize (Hin (i + 1) j).
    rewrite shapeAt_cons in Hin. destruct (i + 1 =? 0) eqn:E.
    + apply Z.eqb_eq in E. unfold shapeAt in Hij.
      by destruct (i <? 0) eqn:E'; [|apply Z.ltb_ge in E'; lia].
    + replace (i + 1 - 1) with i in Hin by lia. specialize (Hin Hij). lia.
  - intros j Hj. specialize (Hin 0 j). rewrite shapeAt_cons in Hin.
    simpl in Hin. specialize (Hin Hj). lia.
Qed.

Lemma withinWalls_intro piece pos :
  (forall i j, truthy (shapeAt (shape piece) i j) = true ->
               0 <= px pos + j < BOARD_WIDTH /\ py pos + i < BOARD_HEIGHT) ->
  withinWalls piece pos = true.
Proof.
  unfold withinWalls, isValidOn. intros Hin.
  rewrite checkRows_empty_intro; [done|].
  intros i j Hij. rewrite Z.add_0_r. by apply Hin.
Qed.

(** A well-formed piece placed at its spawn column on the top row lies
    within the walls. *)
Lemma okPiece_spawn_withinWalls piece row0 rest :
  okPiece piece = true -> shape piece = row0 :: rest ->
  withinWalls piece
    (mkPosition (BOARD_WIDTH / 2 - Z.of_nat (length row0) / 2) 0) = true.
Proof.
  unfold okPiece. intros [[_ Hr]%andb_prop Hsm]%andb_prop Hs.
  apply rectb_rectangular in Hr as [n Hn].
  unfold small in Hsm. rewrite Hs in Hsm. rewrite <- Hs in Hsm.
  apply andb_prop in Hsm as [Hrows Hcols]. apply Nat.leb_le in Hrows, Hcols.
  apply withinWalls_intro. intros i j Hij. cbn [px py].
  apply shapeAt_truthy in Hij as (Hi & Hj & row & v & Hrow & Hv & _).
  assert (length row = length row0) as Hlen.
  { rewrite (Hn row), (Hn row0); [done| |].
    - rewrite Hs. apply list_elem_of_here.
    - by eapply list_elem_of_lookup_2. }
  apply lookup_lt_Some in Hrow, Hv. rewrite Hlen in Hv.
  unfold BOARD_WIDTH, BOARD_HEIGHT. Z.div_mod_to_equations. lia.
Qed.

Lemma wfState_intro s :
  wfBoard (board s) = true -> okSlot (currentPiece s) = true ->
  okSlot (nextPiece s) = true -> okSlot (heldPiece s) = true ->
  (forall piece, currentPiece s = Some piece ->
                 withinWalls piece (position s) = true) ->
  wfState s = true.
Proof.
  intros Hb Hc Hn Hh Hw. unfold wfState. rewrite Hb, Hc, Hn, Hh. simpl.
  destruct (currentPiece s); [by apply Hw|done].
Qed.

Lemma wfBoard_afterCheckLines c nb s :
  wfBoard nb = true -> wfBoard (board (afterCheckLines c nb (withBoard nb s))) = true.
Proof.
  intros Hnb. unfold afterCheckLines.
  destruct (0 <? _); [|done].
  destruct (_ =? _); simpl; by apply clearRows_wfBoard.
Qed.

Lemma afterCheckLines_pieces c nb s :
  let s' := afterCheckLines c nb s in
  currentPiece s' = currentPiece s /\ position s' = position s /\
  nextPiece s' = nextPiece s /\ heldPiece s' = heldPiece s /\
  canHold s' = canHold s /\ gameOver s' = gameOver s /\
  paused s' = paused s /\ gameStarted s' = gameStarted s.
Proof.
  unfold afterCheckLines. destruct (0 <? _); [|done]. by destruct (_ =? _).
Qed.

Lemma afterCheckLines_cleared c nb s :
  0 < snd (clearRows nb) ->
  board (afterCheckLines c nb s) = fst (clearRows nb) /\
  lines (afterCheckLines c nb s) = lines s + snd (clearRows nb) /\
  combo (afterCheckLines c nb s) = combo c + 1 /\
  score (afterCheckLines c nb s) =
    addNum (score s)
      (linePoints (snd (clearRows nb)) (combo c + 1) (level c)).
Proof.
  intros Hpos. unfold afterCheckLines.
  destruct (0 <? snd (clearRows nb)) eqn:E; [|apply Z.ltb_ge in E; lia].
  by destruct (_ =? _).
Qed.

(** ** The functions of a well-formed render *)

Section Render.

Variable random : nat -> TetrominoType.

(** The values of the state hooks at the render, well formed. *)
Variable c : State.
Hypothesis Hwf : wfState c = true.

Lemma isValidPosition_total piece pos :
  exists v, isValidPosition c piece pos = Done v.
Proof. apply isValidOn_total. by apply wfState_fields in Hwf as [? _]. Qed.

Lemma calculateGhostPosition_total piece pos :
  okPiece piece = true ->
  exists ghost, calculateGhostPosition c piece pos = Done ghost.
Proof.
  intros Hok. apply ghostOn_total; [|by apply okPiece_hasCell].
  by apply wfState_fields in Hwf as [? _].
Qed.

Lemma commitMove_run piece newPos w :
  okPiece piece = true ->
  exists ghost,
    calculateGhostPosition c piece newPos = Done ghost /\
    commitMove c piece newPos w =
    Done (tt, mkWorld (withGhostPosition ghost (withPosition newPos (now w)))
                      (draws w) (timeouts w)).
Proof.
  intros Hok. destruct (calculateGhostPosition_total piece newPos Hok)
    as [ghost Hg].
  exists ghost. split; [done|]. unfold commitMove. unfold_m. simpl.
  by rewrite Hg.
Qed.

Lemma spawnedPiece_ok w : okPiece (spawnedPiece random c w) = true.
Proof.
  unfold spawnedPiece. apply wfState_fields in Hwf as (_ & _ & Hn & _).
  destruct (nextPiece c); [done|apply okPiece_TETROMINOES].
Qed.

(** A spawn returns, and either only raises the game-over flag or only
    installs the new piece, its position, the queue and the ghost. *)
Lemma spawnNewPiece_total w :
  exists w', spawnNewPiece random c w = Done (tt, w') /\
    timeouts w' = timeouts w /\
    (now w' = withGameOver true (now w) \/
     exists piece pos next ghost,
       okPiece piece = true /\ okPiece next = true /\
       withinWalls piece pos = true /\
       now w' = withGhostPosition ghost
                  (withNextPiece (Some next)
                     (withPosition pos
                        (withCurrentPiece (Some piece) (now w))))).
Proof.
  pose proof (spawnedPiece_ok w) as Hok.
  destruct (hasCell_startXOf _ (okPiece_hasCell _ Hok))
    as (row0 & rest & Hs & _).
  remember (mkPosition (BOARD_WIDTH / 2 - Z.of_nat (length row0) / 2) 0)
    as start eqn:Hstart.
  destruct (isValidPosition_total (spawnedPiece random c w) start)
    as [valid Hv].
  rewrite (spawnNewPiece_run random c w _ row0 rest start valid
             eq_refl Hs Hstart Hv).
  destruct valid.
  - destruct (calculateGhostPosition_total (spawnedPiece random c w) start Hok)
      as [ghost ->]. simpl. eexists. split; [done|]. split; [done|].
    right. eexists _, _, _, _. repeat split; try done.
    + apply okPiece_TETROMINOES.
    + by eapply isValidOn_withinWalls.
  - eexists. split; [done|]. split; [done|]. by left.
Qed.
Lemma mergePiece_total w piece :
  currentPiece c = Some piece ->
  exists nb,
    lockCells (board c) piece (position c) = Done nb /\
    wfBoard nb = true /\
    mergePiece c w =
    Done (tt, mkWorld (withCanHold true
                         (afterCheckLines c nb (withBoard nb (now w))))
                      (draws w) (timeouts w)).
Proof.
  intros Hp. pose proof (wfState_fields c Hwf) as (Hb & _ & _ & _ & Hin).
  destruct (lockCells_spec (board c) piece (position c) Hb (Hin _ Hp))
    as (nb & Hnb & Hwfnb & _).
  exists nb. repeat split; [done..|]. by apply (mergePiece_run c w piece nb).
Qed.

Lemma tryKicks_first rotated pre kick post ghost w :
  (forall k, k ∈ pre ->
     isValidPosition c rotated (kicked (position c) k) = Done false) ->
  isValidPosition c rotated (kicked (position c) kick) = Done true ->
  calculateGhostPosition c rotated (kicked (position c) kick) = Done ghost ->
  tryKicks c rotated (pre ++ kick :: post) w =
  Done (tt, mkWorld
    (withGhostPosition ghost
       (withPosition (kicked (position c) kick)
          (withCurrentPiece (Some rotated) (now w))))
    (draws w) (timeouts w)).
Proof.
  intros Hpre Hk Hg. induction pre as [|k pre IH]; simpl.
  - unfold kicked in *. unfold_m. rewrite Hk. simpl. by rewrite Hg.
  - unfold_m. pose proof (Hpre k (list_elem_of_here _ _)) as Hk'.
    unfold kicked in Hk'. rewrite Hk'. simpl. apply IH.
    intros k' Hin. by apply Hpre, list_elem_of_further.
Qed.

Lemma tryKicks_none rotated ks w :
  (forall k, k ∈ ks ->
     isValidPosition c rotated (kicked (position c) k) = Done false) ->
  tryKicks c rotated ks w = Done (tt, w).
Proof.
  intros Hks. induction ks as [|k ks IH]; simpl; [done|].
  unfold_m. pose proof (Hks k (list_elem_of_here _ _)) as Hk.
  unfold kicked in Hk. rewrite Hk. simpl. apply IH.
  intros k' Hin. by apply Hks, list_elem_of_further.
Qed.

(** The kick loop either leaves the world alone or installs the rotated
    piece at an accepted position. *)
Lemma tryKicks_total rotated ks w :
  okPiece rotated = true ->
  tryKicks c rotated ks w = Done (tt, w) \/
  exists kick ghost,
    kick ∈ ks /\
    isValidPosition c rotated (kicked (position c) kick) = Done true /\
    tryKicks c rotated ks w =
    Done (tt, mkWorld
      (withGhostPosition ghost
         (withPosition (kicked (position c) kick)
            (withCurrentPiece (Some rotated) (now w))))
      (draws w) (timeouts w)).
Proof.
  intros Hok. induction ks as [|k ks IH]; simpl; [by left|].
  destruct (isValidPosition_total rotated (kicked (position c) k))
    as [[] Hv].
  - right.
    destruct (calculateGhostPosition_total rotated
                (kicked (position c) k) Hok) as [ghost Hg].
    exists k, ghost. split; [apply list_elem_of_here|]. split; [done|].
    apply (tryKicks_first rotated [] k ks ghost w); [|done..].
    intros k' Hin. by apply elem_of_nil in Hin.
  - unfold_m. unfold kicked in Hv. rewrite Hv. simpl.
    destruct IH as [IH|(kick & ghost & Hin & Hvk & IH)]; [by left|].
    right. exists kick, ghost. split; [by apply list_elem_of_further|].
    by split.
Qed.

Lemma dropOn_total piece pos :
  okPiece piece = true -> withinWalls piece pos = true ->
  exists ghostY,
    py pos <= ghostY /\
    withinWalls piece (mkPosition (px pos) ghostY) = true /\
    dropOn (board c) piece pos =
    Done (mkPosition (px pos) ghostY, ghostY - py pos).
Proof.
  intros Hok Hin. pose proof (wfState_fields c Hwf) as (Hb & _).
  unfold dropOn. rewrite dropLoop_ghostLoop.
  destruct (ghostLoop_resting (loopBound (py pos)) (board c) piece
              (px pos) (py pos)) as (g & -> & Hle & _ & Hbetween);
    [done|by apply okPiece_hasCell|unfold loopBound; lia|].
  exists g. split; [done|]. split; [|simpl; by rewrite Z.add_0_l].
  destruct (decide (g = py pos)) as [->|Hne]; [by destruct pos|].
  eapply isValidOn_withinWalls, Hbetween. lia.
Qed.
Lemma mergePiece_ok w piece :
  currentPiece c = Some piece -> wfState (now w) = true ->
  exists w', mergePiece c w = Done (tt, w') /\ wfState (now w') = true /\
    timeouts w' = timeouts w /\ draws w' = draws w /\
    canHold (now w') = true.
Proof.
  intros Hp Hw. destruct (mergePiece_total w piece Hp)
    as (nb & _ & Hnb & ->).
  eexists. split; [done|]. simpl. repeat split; try done.
  pose proof (wfState_fields _ Hw) as (_ & Hc & Hn & Hh & Hin).
  destruct (afterCheckLines_pieces c nb (withBoard nb (now w)))
    as (Ec & Ep & En & Eh & _).
  apply wfState_intro; simpl.
  - by apply wfBoard_afterCheckLines.
  - by rewrite Ec.
  - by rewrite En.
  - by rewrite Eh.
  - rewrite Ec, Ep. apply Hin.
Qed.

Lemma spawnNewPiece_ok w :
  wfState (now w) = true ->
  exists w', spawnNewPiece random c w = Done (tt, w') /\
    wfState (now w') = true /\ timeouts w' = timeouts w /\
    canHold (now w') = canHold (now w).
Proof.
  intros Hw. destruct (spawnNewPiece_total w)
    as (w' & -> & Ht & Hnow).
  exists w'. split; [done|].
  pose proof (wfState_fields _ Hw) as (Hb & Hc & Hn & Hh & Hin).
  destruct Hnow as [->|(piece & pos & next & ghost & Hp & Hnx & Hwalls & ->)].
  - by repeat split.
  - repeat split; try done. apply wfState_intro; simpl; try done.
    by intros ? [= <-].
Qed.

Lemma commitMove_ok piece newPos w :
  currentPiece c = Some piece -> currentPiece (now w) = Some piece ->
  isValidPosition c piece newPos = Done true ->
  wfState (now w) = true ->
  exists w', commitMove c piece newPos w = Done (tt, w') /\
    wfState (now w') = true /\ timeouts w' = timeouts w /\
    canHold (now w') = canHold (now w).
Proof.
  intros Hp Hpw Hv Hw.
  pose proof (wfState_fields _ Hwf) as (_ & Hc & _).
  rewrite Hp in Hc. simpl in Hc.
  destruct (commitMove_run piece newPos w Hc) as (ghost & _ & ->).
  eexists. split; [done|]. simpl. repeat split; try done.
  pose proof (wfState_fields _ Hw) as (Hb & Hcw & Hn & Hh & Hin).
  apply wfState_intro; simpl; try done.
  rewrite Hpw. intros ? [= <-]. by eapply isValidOn_withinWalls.
Qed.
End Render.

(** ** The handlers of the latest render *)

(** Each handler, run on the state it closes over, returns, keeps the state
    well formed and treats [canHold] as [canHoldAfter] says. *)
Section Handlers.

Variable random : nat -> TetrominoType.
Variable w : World.
Hypothesis Hwf : wfState (now w) = true.

Lemma moveDown_ok :
  exists w', moveDown random (now w) w = Done (tt, w') /\
    wfState (now w') = true /\ timeouts w' = timeouts w /\
    canHold (now w') = if locks (now w) then true else canHold (now w).
Proof.
  unfold moveDown, locks.
  destruct (currentPiece (now w)) as [piece|] eqn:Hp; [|by eexists].
  destruct (gameOver (now w) || paused (now w)); [by eexists|]. simpl.
  destruct (isValidPosition_total (now w) Hwf piece
              (mkPosition (px (position (now w)))
                          (py (position (now w)) + 1))) as [valid Hv].
  unfold mbind, M_bind, lift. rewrite Hv. simpl. destruct valid.
  - by apply commitMove_ok.
  - destruct (mergePiece_ok (now w) Hwf w piece Hp Hwf)
      as (w1 & -> & Hw1 & Ht1 & _ & Hc1).
    destruct (spawnNewPiece_ok random (now w) Hwf w1 Hw1)
      as (w2 & -> & Hw2 & Ht2 & Hc2).
    exists w2. repeat split; [done|congruence|congruence].
Qed.

Lemma moveLeft_ok :
  exists w', moveLeft (now w) w = Done (tt, w') /\
    wfState (now w') = true /\ timeouts w' = timeouts w /\
    canHold (now w') = canHold (now w).
Proof.
  unfold moveLeft.
  destruct (currentPiece (now w)) as [piece|] eqn:Hp; [|by eexists].
  destruct (gameOver (now w) || paused (now w)); [by eexists|].
  destruct (isValidPosition_total (now w) Hwf piece
              (mkPosition (px (position (now w)) - 1)
                          (py (position (now w))))) as [valid Hv].
  unfold mbind, M_bind, lift. rewrite Hv. simpl. destruct valid.
  - by apply commitMove_ok.
  - by eexists.
Qed.

Lemma moveRight_ok :
  exists w', moveRight (now w) w = Done (tt, w') /\
    wfState (now w') = true /\ timeouts w' = timeouts w /\
    canHold (now w') = canHold (now w).
Proof.
  unfold moveRight.
  destruct (currentPiece (now w)) as [piece|] eqn:Hp; [|by eexists].
  destruct (gameOver (now w) || paused (now w)); [by eexists|].
  destruct (isValidPosition_total (now w) Hwf piece
              (mkPosition (px (position (now w)) + 1)
                          (py (position (now w))))) as [valid Hv].
  unfold mbind, M_bind, lift. rewrite Hv. simpl. destruct valid.
  - by apply commitMove_ok.
  - by eexists.
Qed.

Lemma rotate_ok :
  exists w', rotate (now w) w = Done (tt, w') /\
    wfState (now w') = true /\ timeouts w' = timeouts w /\
    canHold (now w') = canHold (now w).
Proof.
  unfold rotate.
  destruct (currentPiece (now w)) as [piece|] eqn:Hp; [|by eexists].
  destruct (gameOver (now w) || paused (now w)); [by eexists|].
  pose proof (wfState_fields _ Hwf) as (Hb & Hc & Hn & Hh & Hin).
  pose proof Hc as Hok. rewrite Hp in Hok. simpl in Hok.
  destruct (okPiece_rotatePiece piece Hok) as (rotated & Hrot & Hrok).
  unfold mbind, M_bind, lift. rewrite Hrot. cbn [rbind].
  destruct (tryKicks_total (now w) Hwf rotated kicks w Hrok)
    as [->|(kick & ghost & _ & Hv & ->)]; [by eexists|].
  eexists. split; [done|]. simpl. repeat split; try done.
  apply wfState_intro; simpl; try done.
  intros ? [= <-]. by eapply isValidOn_withinWalls.
Qed.

Lemma hardDrop_ok :
  exists w', hardDrop (now w) w = Done (tt, w') /\
    wfState (now w') = true /\
    (timeouts w' = timeouts w \/ timeouts w' = timeouts w ++ [now w]) /\
    canHold (now w') = canHold (now w).
Proof.
  unfold hardDrop.
  destruct (currentPiece (now w)) as [piece|] eqn:Hp;
    [|eexists; split; [done|]; split; [done|]; split; [by left|done]].
  destruct (gameOver (now w) || paused (now w));
    [eexists; split; [done|]; split; [done|]; split; [by left|done]|].
  pose proof (wfState_fields _ Hwf) as (Hb & Hc & Hn & Hh & Hin).
  pose proof Hc as Hok. rewrite Hp in Hok. simpl in Hok.
  destruct (dropOn_total (now w) Hwf piece (position (now w)) Hok
              (Hin _ Hp)) as (ghostY & _ & Hwalls & Hdrop).
  unfold mbind, M_bind, lift. rewrite Hdrop. simpl.
  eexists. split; [done|]. simpl. split; [|split; [by right|done]].
  apply wfState_intro; simpl; try done.
  rewrite Hp. by intros ? [= <-].
Qed.

Lemma holdPiece_ok :
  exists w', holdPiece random (now w) w = Done (tt, w') /\
    wfState (now w') = true /\ timeouts w' = timeouts w /\
    canHold (now w') = if holds (now w) then false else canHold (now w).
Proof.
  unfold holdPiece, holds.
  destruct (currentPiece (now w)) as [piece|] eqn:Hp; [|by eexists].
  destruct (canHold (now w)) eqn:Hcan; simpl; [|by eexists].
  destruct (gameOver (now w)); simpl; [by eexists|].
  destruct (paused (now w)); simpl; [by eexists|].
  pose proof (wfState_fields _ Hwf) as (Hb & Hc & Hn & Hh & Hin).
  pose proof Hc as Hok. rewrite Hp in Hok. simpl in Hok.
  destruct (heldPiece (now w)) as [temp|] eqn:Hheld.
  - simpl in Hh.
    destruct (hasCell_startXOf temp (okPiece_hasCell _ Hh))
      as (row0 & rest & Hs & HstartX).
    destruct (calculateGhostPosition_total (now w) Hwf temp
                (mkPosition (BOARD_WIDTH / 2 - Z.of_nat (length row0) / 2) 0)
                Hh) as [ghost Hg].
    unfold_m. simpl. rewrite HstartX. simpl. rewrite Hg. simpl.
    eexists. split; [done|]. simpl. repeat split; try done.
    apply wfState_intro; simpl; try done.
    intros ? [= <-]. by eapply okPiece_spawn_withinWalls.
  - unfold_m. simpl.
    set (w1 := mkWorld _ _ _).
    assert (wfState (now w1) = true) as Hw1.
    { by apply wfState_intro. }
    destruct (spawnNewPiece_ok random (now w) Hwf w1 Hw1)
      as (w2 & -> & Hw2 & Ht2 & Hc2).
    exists w2. repeat split; done.
Qed.

Lemma startGame_ok :
  exists w', startGame random (now w) w = Done (tt, w') /\
    wfState (now w') = true /\ timeouts w' = timeouts w /\
    canHold (now w') = true.
Proof.
  unfold startGame. unfold_m. unfold createRandomTetromino. simpl.
  set (w1 := mkWorld _ _ _).
  assert (wfState (now w1) = true) as Hw1.
  { pose proof (wfState_fields _ Hwf) as (Hb & Hc & Hn & Hh & Hin).
    apply wfState_intro; simpl; try done. apply okPiece_TETROMINOES. }
  destruct (spawnNewPiece_ok random (now w) Hwf w1 Hw1)
    as (w2 & -> & Hw2 & Ht2 & Hc2).
  exists w2. repeat split; done.
Qed.
End Handlers.

(** ** One event *)

Lemma hardDropTimeout_ok random c w :
  wfState c = true -> wfState (now w) = true ->
  exists w', hardDropTimeout random c w = Done (tt, w') /\
    wfState (now w') = true /\ timeouts w' = timeouts w /\
    canHold (now w') =
    match currentPiece c with Some _ => true | None => canHold (now w) end.
Proof.
  intros Hc Hw. unfold hardDropTimeout, mbind, M_bind.
  destruct (currentPiece c) as [piece|] eqn:Hp.
  - destruct (mergePiece_ok c Hc w piece Hp Hw)
      as (w1 & -> & Hw1 & Ht1 & _ & Hc1).
    destruct (spawnNewPiece_ok random c Hc w1 Hw1)
      as (w2 & -> & Hw2 & Ht2 & Hc2).
    exists w2. repeat split; [done|congruence|congruence].
  - unfold mergePiece. rewrite Hp. unfold mret, M_ret.
    destruct (spawnNewPiece_ok random c Hc w Hw)
      as (w2 & -> & Hw2 & Ht2 & Hc2).
    exists w2. by repeat split.
Qed.

Lemma step_ok random e w :
  wfWorld w = true ->
  exists w', step random e w = Done w' /\ wfWorld w' = true /\
             canHold (now w') = canHoldAfter e w.
Proof.
  unfold wfWorld. intros [Hwf Hts]%andb_prop.
  assert (forall (m : M unit) (b : bool),
    (exists w', m w = Done (tt, w') /\ wfState (now w') = true /\
                timeouts w' = timeouts w /\ canHold (now w') = b) ->
    exists w', run m w = Done w' /\
      wfState (now w') && forallb wfState (timeouts w') = true /\
      canHold (now w') = b) as Hrun.
  { intros m b (w' & Hm & Hw' & Ht & Hc). exists w'. unfold run.
    rewrite Hm. simpl. by rewrite Hw', Ht, Hts. }
  destruct e as [code| | |]; unfold step, canHoldAfter.
  - unfold handleKeyPress.
    destruct (negb (gameStarted (now w)) && bool_decide (code = Space));
      [by apply Hrun, startGame_ok|].
    destruct code; simpl.
    + by apply Hrun, moveLeft_ok.
    + by apply Hrun, moveRight_ok.
    + apply Hrun.
      destruct (moveDown_ok random w Hwf) as (w' & Hm & Hw' & Ht & Hc).
      unfold mbind, M_bind. rewrite Hm. by eexists.
    + by apply Hrun, rotate_ok.
    + by apply Hrun, rotate_ok.
    + destruct (hardDrop_ok w Hwf) as (w' & Hm & Hw' & Ht & Hc).
      exists w'. unfold run. rewrite Hm. simpl. rewrite Hw'. simpl.
      split; [done|]. split; [|done].
      destruct Ht as [->| ->]; [done|].
      rewrite forallb_app, Hts. simpl. by rewrite Hwf.
    + by apply Hrun, holdPiece_ok.
    + by apply Hrun, holdPiece_ok.
    + apply Hrun. by eexists.
    + apply Hrun. by eexists.
  - destruct (gameStarted (now w) && negb (gameOver (now w))
              && negb (paused (now w))); simpl.
    + by apply Hrun, moveDown_ok.
    + exists w. by rewrite Hwf, Hts.
  - destruct (timeouts w) as [|c rest] eqn:Hq.
    + exists w. by rewrite Hwf, Hq.
    + simpl in Hts. apply andb_prop in Hts as [Hc Hrest].
      destruct (hardDropTimeout_ok random c
                  (mkWorld (now w) (draws w) rest) Hc Hwf)
        as (w' & Hm & Hw' & Ht & Hcan).
      exists w'. unfold run. rewrite Hm. simpl. rewrite Hw', Ht. simpl.
      by rewrite Hrest.
  - destruct (gameOver (now w)).
    + by apply Hrun, startGame_ok.
    + exists w. by rewrite Hwf, Hts.
Qed.

(** ** The engine on concrete games *)

Example start_gives_freshGame :
  step inOrder (KeyDown Space) (mkWorld initialState 0 []) = Done freshGame.
Proof. reflexivity. Qed.

(** Scoring of a lock on concrete games: two lines at level 1 and four
    lines at level 3, each with the combo going from 0 to 1. *)
Example two_lines_add_350 :
  exists w',
    mergePiece twoLineState (mkWorld twoLineState 0 []) = Done (tt, w') /\
    lines (now w') = 2 /\ combo (now w') = 1 /\ score (now w') = Int 350.
Proof. eexists. split; [by cbv|]. by cbv. Qed.

Example tetris_adds_2550 :
  exists w',
    mergePiece tetrisState (mkWorld tetrisState 0 []) = Done (tt, w') /\
    lines (now w') = 24 /\ combo (now w') = 1 /\ score (now w') = Int 2550.
Proof. eexists. split; [by cbv|]. by cbv. Qed.

(** The callback that a hard drop schedules closes over the render in
    which the key went down: it locks the piece where that render saw it,
    not where the drop moved it.  On the fresh game the O piece is dropped
    from row 0 to row 18 for 36 points, and the timeout then writes it into
    rows 0 and 1. *)
Example hardDrop_locks_at_the_old_position :
  exists w1 w2,
    step inOrder (KeyDown Space) freshGame = Done w1 /\
    position (now w1) = mkPosition 4 18 /\ score (now w1) = Int 36 /\
    step inOrder TimeoutFires w1 = Done w2 /\
    cellAt (board (now w2)) 0 4 = Color "#f0f000" /\
    cellAt (board (now w2)) 19 4 = Null.
Proof.
  eexists. eexists. split; [by cbv|]. split; [by cbv|]. split; [by cbv|].
  split; [by cbv|]. by cbv.
Qed.

(** X20.  Every piece of the game is well formed: a piece of the catalogue,
    rotated any number of times, has rows of one length, at most four rows
    and four columns, and at least one occupied cell. *)
Theorem GamePiece_wellformed p :
  GamePiece p -> okPiece p = true /\ hasCell p = true.
Proof.
  intros Hp. pose proof (GamePiece_okPiece p Hp) as Hok.
  split; [done|by apply okPiece_hasCell].
Qed.

(** ** The claims of the specification *)

(** C1 (the code departs from the claim).  The claim: after every lock that
    clears a line the level is [floor(L/10) + 1] for the updated line count
    [L], so the lock that takes the count from 9 to 10 raises the level to 2
    and the speed to 900.  [checkLines] computes the new level from the
    [lines] of the render, which does not yet include the rows just
    cleared: in [lineState] (nine lines, level 1) the gravity tick locks
    the I piece, the count becomes 10, and level and speed stay 1 and
    1000. *)
Theorem level_lags_behind_lines random :
  exists w',
    step random Tick (mkWorld lineState 0 []) = Done w' /\
    lines lineState = 9 /\ lines (now w') = 10 /\
    level (now w') = 1 /\ speed (now w') = 1000 /\
    level (now w') <> lines (now w') / 10 + 1.
Proof. eexists. split; [by cbv|]. by cbv. Qed.

(** C2, as stated, fails: in [towerState] the lock of the I piece is
    followed by a spawn that the validator rejects; the game-over flag is
    raised, but the active-piece slot still holds the I piece. *)
Lemma rejected_spawn_keeps_active_piece :
  isValidPosition towerState (TETROMINOES TT) (mkPosition 4 0) = Done false /\
  exists w',
    moveDown inOrder towerState (mkWorld towerState 0 []) = Done (tt, w') /\
    gameOver (now w') = true /\
    currentPiece (now w') <> None.
Proof.
  split; [reflexivity|]. eexists. split; [by cbv|]. by cbv.
Qed.

(** C2 (amended).  A spawn takes the queued piece (a fresh draw when the
    queue is empty) and asks the validator about the position
    [x = floor(width/2) - floor(shapeWidth/2)], [y = 0]; the validator
    reads the board of the render.  Take a spawn for which that verdict is
    also the validator's verdict on the board the game continues with (the
    pending board: after a lock the board with the piece written in, after
    a start the empty board).  If the verdict is a rejection, the spawn
    raises the game-over flag and changes nothing else: the active-piece
    slot and the position keep the values they had before the attempt.
    Otherwise the piece becomes the active piece at that position, and the
    game-over flag is left alone.  Nothing is said of a spawn for which
    the two verdicts differ. *)
Theorem spawn_rejected_or_active random c w valid :
  wfState c = true ->
  isValidOn (board (now w)) (spawnedPiece random c w)
    (spawnPosition (spawnedPiece random c w)) = Done valid ->
  isValidPosition c (spawnedPiece random c w)
    (spawnPosition (spawnedPiece random c w)) = Done valid ->
  exists w',
    spawnNewPiece random c w = Done (tt, w') /\
    board (now w') = board (now w) /\
    if valid then
      currentPiece (now w') = Some (spawnedPiece random c w) /\
      position (now w') = spawnPosition (spawnedPiece random c w) /\
      gameOver (now w') = gameOver (now w)
    else now w' = withGameOver true (now w).
Proof.
  intros Hwf _ Hv. pose proof (spawnedPiece_ok random c Hwf w) as Hok.
  pose proof (wfState_fields c Hwf) as (Hb & _).
  destruct (hasCell_startXOf _ (okPiece_hasCell _ Hok))
    as (row0 & rest & Hs & _).
  assert (spawnPosition (spawnedPiece random c w)
          = mkPosition (BOARD_WIDTH / 2 - Z.of_nat (length row0) / 2) 0)
    as Hstart by (unfold spawnPosition; by rewrite Hs).
  rewrite Hstart in *.
  rewrite (spawnNewPiece_run random c w _ row0 rest _ valid
             eq_refl Hs eq_refl Hv).
  destruct valid.
  - destruct (ghostOn_total (board c) (spawnedPiece random c w)
                (mkPosition (BOARD_WIDTH / 2 - Z.of_nat (length row0) / 2) 0)
                Hb (okPiece_hasCell _ Hok)) as [ghost Hg].
    unfold calculateGhostPosition. rewrite Hg. simpl. by eexists.
  - by eexists.
Qed.

Lemma spawn_rejected_or_active_witness :
  exists w',
    spawnNewPiece inOrder towerState lockedTower = Done (tt, w') /\
    board (now w') = board (now lockedTower) /\
    now w' = withGameOver true (now lockedTower).
Proof.
  apply (spawn_rejected_or_active inOrder towerState lockedTower false);
    reflexivity.
Defined.

(** The spawns that the amended C2 leaves out: the spawn that follows a
    lock is validated on the board of the render, which lacks the piece
    just locked.  On the fresh game a hard drop and its timeout write the
    O piece into rows 0 and 1 and bring the T piece in at (4, 0); the
    validator rejects that position on the board the game continues with,
    and the game is not over. *)
Example spawn_after_a_lock_is_validated_on_the_old_board :
  exists w1 w2,
    step inOrder (KeyDown Space) freshGame = Done w1 /\
    step inOrder TimeoutFires w1 = Done w2 /\
    currentPiece (now w2) = Some (TETROMINOES TT) /\
    position (now w2) = mkPosition 4 0 /\
    gameOver (now w2) = false /\
    isValidOn (board (now w2)) (TETROMINOES TT) (mkPosition 4 0)
    = Done false.
Proof.
  eexists. eexists. split; [by cbv|]. split; [by cbv|]. by cbv.
Qed.

(** C3, as stated, fails: for the T piece the rotated cell at row 0,
    column 1 is empty, while the old cell at row 1, column [R - 1 - 0] is
    occupied. *)
Lemma rotatePiece_claimed_cell_differs :
  exists rotated,
    rotatePiece (TETROMINOES TT) = Done rotated /\
    shapeAt (shape rotated) 0 1
    <> shapeAt (shape (TETROMINOES TT)) 1
         (Z.of_nat (length (shape (TETROMINOES TT))) - 1 - 0).
Proof. eexists. split; [reflexivity|]. by vm_compute. Qed.

(** C3 (amended).  For every shape with [R] rows (at least one), the
    rotation produces a shape with one row per column of the first row,
    each of [R] entries, whose cell at row [r], column [c] equals the old
    shape's cell at row [R - 1 - c], column [r]: a clockwise quarter
    turn.  Kind and colour are kept. *)
Theorem rotatePiece_cell piece row0 rest :
  shape piece = row0 :: rest ->
  exists rotated,
    rotatePiece piece = Done rotated /\
    type rotated = type piece /\ color rotated = color piece /\
    length (shape rotated) = length row0 /\
    (forall row, row ∈ shape rotated -> length row = length (shape piece)) /\
    forall r c,
      0 <= r < Z.of_nat (length row0) ->
      0 <= c < Z.of_nat (length (shape piece)) ->
      shapeAt (shape rotated) r c =
      shapeAt (shape piece) (Z.of_nat (length (shape piece)) - 1 - c) r.
Proof. apply rotatePiece_shape. Qed.

Lemma rotatePiece_cell_witness :
  exists rotated,
    rotatePiece (TETROMINOES TT) = Done rotated /\
    type rotated = TT /\ color rotated = "#a000f0" /\
    length (shape rotated) = 3%nat /\
    (forall row, row ∈ shape rotated -> length row = 2%nat) /\
    forall r c,
      0 <= r < 3 -> 0 <= c < 2 ->
      shapeAt (shape rotated) r c =
      shapeAt [[0; 1; 0]; [1; 1; 1]] (2 - 1 - c) r.
Proof.
  apply (rotatePiece_cell (TETROMINOES TT) [0; 1; 0] [[1; 1; 1]]).
  reflexivity.
Defined.

(** C4 (the code departs from the claim).  The claim: a soft drop adds one
    point when the step down is accepted and none when it is rejected or
    when the action does nothing.  The key handler adds the point after
    [moveDown] whatever [moveDown] did: the paused game and the game that
    was never started gain a point and nothing else changes, and the press
    that locks the I piece of [lineState] gains the point on top of the
    150 points of the cleared line. *)
Theorem soft_drop_point_is_unconditional random :
  step random (KeyDown ArrowDown) (mkWorld pausedState 0 [])
    = Done (mkWorld (withScore (Int 1) pausedState) 0 []) /\
  step random (KeyDown ArrowDown) (mkWorld initialState 0 [])
    = Done (mkWorld (withScore (Int 1) initialState) 0 []) /\
  (exists w',
     step random (KeyDown ArrowDown) (mkWorld lineState 0 []) = Done w' /\
     locks lineState = true /\
     score (now w') = Int (150 + 1)).
Proof.
  split; [reflexivity|]. split; [reflexivity|].
  eexists. split; [by cbv|]. by cbv.
Qed.

(** C5 (the code departs from the claim).  The claim: [canHold] is false
    from a hold until the held-in piece locks.  The callback that a hard
    drop schedules locks the piece of the render in which the key went
    down, whatever has become of the active piece since.  On the fresh game:
    Space drops the O piece; KeyC, before the timeout fires, puts the O
    piece in the hold slot and brings the T piece in, [canHold] is false;
    the timeout then writes the O piece into the board and sets [canHold]
    to true, while the T piece is the active piece at its spawn position
    and no cell of it has been written; once this state is rendered, a
    second KeyC goes through and exchanges the two pieces. *)
Theorem stale_lock_reenables_hold_before_the_held_in_piece_locks :
  exists w1 w2 w3 w4 lockedO,
    step inOrder (KeyDown Space) freshGame = Done w1 /\
    step inOrder (KeyDown KeyC) w1 = Done w2 /\
    heldPiece (now w2) = Some (TETROMINOES TO) /\
    currentPiece (now w2) = Some (TETROMINOES TT) /\
    canHold (now w2) = false /\
    step inOrder TimeoutFires w2 = Done w3 /\
    lockCells createEmptyBoard (TETROMINOES TO) (mkPosition 4 0)
    = Done lockedO /\
    board (now w3) = lockedO /\
    currentPiece (now w3) = Some (TETROMINOES TT) /\
    position (now w3) = mkPosition 4 0 /\
    canHold (now w3) = true /\
    step inOrder (KeyDown KeyC) w3 = Done w4 /\
    heldPiece (now w4) = Some (TETROMINOES TT) /\
    currentPiece (now w4) = Some (TETROMINOES TO).
Proof.
  do 5 eexists. split; [by cbv|]. split; [by cbv|].
  split; [by cbv|]. split; [by cbv|]. split; [by cbv|].
  split; [by cbv|]. split; [by cbv|]. split; [by cbv|].
  split; [by cbv|]. split; [by cbv|]. split; [by cbv|].
  split; [by cbv|]. split; [by cbv|]. by cbv.
Qed.

(** C6.  With an active piece in a running game, [rotate] computes the
    rotated shape and tries it at the current position plus each of the
    offsets (0,0), (-1,0), (+1,0), (0,-1), (-2,0), (+2,0), in this order:
    the first offset that the validator accepts gives the new piece and
    position (and the ghost is recomputed for them); if the validator
    rejects all six, the world is left exactly as it was. *)
Theorem rotate_tries_kicks_in_order c w piece :
  wfState c = true ->
  currentPiece c = Some piece -> gameOver c = false -> paused c = false ->
  exists rotated,
    rotatePiece piece = Done rotated /\
    (forall pre kick post,
       [ mkPosition 0 0; mkPosition (-1) 0; mkPosition 1 0;
         mkPosition 0 (-1); mkPosition (-2) 0; mkPosition 2 0 ]
       = pre ++ kick :: post ->
       (forall k, k ∈ pre ->
          isValidPosition c rotated (kicked (position c) k) = Done false) ->
       isValidPosition c rotated (kicked (position c) kick) = Done true ->
       exists ghost,
         calculateGhostPosition c rotated (kicked (position c) kick)
           = Done ghost /\
         rotate c w =
         Done (tt, mkWorld
           (withGhostPosition ghost
              (withPosition (kicked (position c) kick)
                 (withCurrentPiece (Some rotated) (now w))))
           (draws w) (timeouts w))) /\
    ((forall k,
        k ∈ [ mkPosition 0 0; mkPosition (-1) 0; mkPosition 1 0;
              mkPosition 0 (-1); mkPosition (-2) 0; mkPosition 2 0 ] ->
        isValidPosition c rotated (kicked (position c) k) = Done false) ->
     rotate c w = Done (tt, w)).
Proof.
  intros Hwf Hp Hover Hpaused.
  pose proof (wfState_fields c Hwf) as (Hb & Hc & _).
  rewrite Hp in Hc. simpl in Hc.
  destruct (okPiece_rotatePiece piece Hc) as (rotated & Hrot & Hok).
  exists rotated. split; [done|].
  assert (rotate c w = tryKicks c rotated kicks w) as ->.
  { unfold rotate. rewrite Hp, Hover, Hpaused. simpl.
    unfold mbind, M_bind, lift. by rewrite Hrot. }
  split.
  - intros pre kick post Hsplit Hpre Hkick.
    destruct (ghostOn_total (board c) rotated (kicked (position c) kick)
                Hb (okPiece_hasCell _ Hok)) as [ghost Hg].
    exists ghost. split; [done|]. unfold kicks. rewrite Hsplit.
    by apply tryKicks_first.
  - apply tryKicks_none.
Qed.

Lemma rotate_tries_kicks_in_order_witness :
  exists ghost,
    calculateGhostPosition wallState
      (mkTetromino TT [[1; 1; 1]; [0; 1; 0]] "#a000f0") (mkPosition 7 5)
      = Done ghost /\
    rotate wallState (mkWorld wallState 0 []) =
    Done (tt, mkWorld
      (withGhostPosition ghost
         (withPosition (mkPosition 7 5)
            (withCurrentPiece
               (Some (mkTetromino TT [[1; 1; 1]; [0; 1; 0]] "#a000f0"))
               wallState)))
      0 []).
Proof.
  destruct (rotate_tries_kicks_in_order wallState (mkWorld wallState 0 [])
              (mkTetromino TT [[1; 0]; [1; 1]; [1; 0]] "#a000f0")
              eq_refl eq_refl eq_refl eq_refl)
    as (rotated & Hrot & Hfirst & _).
  injection Hrot as <-.
  apply (Hfirst [mkPosition 0 0] (mkPosition (-1) 0)
           [mkPosition 1 0; mkPosition 0 (-1); mkPosition (-2) 0;
            mkPosition 2 0]).
  - reflexivity.
  - intros k Hk. apply list_elem_of_singleton in Hk as ->. reflexivity.
  - reflexivity.
Defined.

(** C7.  A lock writes the piece into the board; when the resulting board
    has [count] full rows, [count] between 1 and 4, the score grows by
    exactly [(table[count] + combo' * 50) * level], where [table] is
    [0, 100, 300, 500, 800], [combo'] is the combo after its increment for
    this clear and [level] is the level of the render, before any change
    that this clear brings.  Two lines at [combo' = 1], level 1 add 350;
    four lines at [combo' = 1], level 3 add 2550. *)
Theorem lock_score_delta c w piece :
  wfState c = true -> currentPiece c = Some piece ->
  exists nb w',
    lockCells (board c) piece (position c) = Done nb /\
    mergePiece c w = Done (tt, w') /\
    forall count,
      Z.of_nat (length (filter (fun row => isFull row = true) nb)) = count ->
      1 <= count <= 4 ->
      combo (now w') = combo c + 1 /\
      score (now w') =
        addNum (score (now w))
          (Int ((nth (Z.to_nat count) [0; 100; 300; 500; 800] 0
                 + combo (now w') * 50) * level c)) /\
      (count = 2 -> combo (now w') = 1 -> level c = 1 ->
       score (now w') = addNum (score (now w)) (Int 350)) /\
      (count = 4 -> combo (now w') = 1 -> level c = 3 ->
       score (now w') = addNum (score (now w)) (Int 2550)).
Proof.
  intros Hwf Hp.
  destruct (mergePiece_total c Hwf w piece Hp) as (nb & Hnb & _ & Hrun).
  exists nb. rewrite Hrun. eexists. split; [done|]. split; [done|].
  intros count Hcount Hrange.
  cbn [now snd canHold score combo withCanHold].
  assert (snd (clearRows nb) = count) as Hsnd
    by (by rewrite clearRows_spec).
  destruct (afterCheckLines_cleared c nb (withBoard nb (now w)))
    as (_ & _ & Hcombo & Hscore); [lia|].
  rewrite Hsnd in Hscore. rewrite Hcombo, Hscore. cbn [score withBoard].
  assert (linePoints count (combo c + 1) (level c) =
          Int ((nth (Z.to_nat count) [0; 100; 300; 500; 800] 0
                + (combo c + 1) * 50) * level c)) as ->.
  { assert (count = 1 \/ count = 2 \/ count = 3 \/ count = 4)
      as [->|[->|[->| ->]]] by lia; reflexivity. }
  split; [done|]. split; [done|]. split.
  - intros -> Hc1 ->. rewrite Hc1. reflexivity.
  - intros -> Hc1 ->. rewrite Hc1. reflexivity.
Qed.

Lemma lock_score_delta_witness :
  exists nb w',
    lockCells lineBoard (TETROMINOES TI) (mkPosition 0 19) = Done nb /\
    mergePiece lineState (mkWorld lineState 0 []) = Done (tt, w') /\
    forall count,
      Z.of_nat (length (filter (fun row => isFull row = true) nb)) = count ->
      1 <= count <= 4 ->
      combo (now w') = 0 + 1 /\
      score (now w') =
        addNum (Int 0)
          (Int ((nth (Z.to_nat count) [0; 100; 300; 500; 800] 0
                 + combo (now w') * 50) * 1)) /\
      (count = 2 -> combo (now w') = 1 -> 1 = 1 ->
       score (now w') = addNum (Int 0) (Int 350)) /\
      (count = 4 -> combo (now w') = 1 -> 1 = 3 ->
       score (now w') = addNum (Int 0) (Int 2550)).
Proof.
  apply (lock_score_delta lineState (mkWorld lineState 0 [])
           (TETROMINOES TI)); reflexivity.
Defined.

(** C8.  For every board of 20 rows of 10 cells with exactly [k] full
    rows, the line clearing of [checkLines] counts [k] cleared lines and
    yields the rows that are not full, in their original order, under [k]
    empty rows; the result has 20 rows of 10 cells again. *)
Theorem clearRows_compacts b k :
  wfBoard b = true ->
  length (filter (fun row => isFull row = true) b) = k ->
  clearRows b =
    (replicate k emptyRow ++ filter (fun row => isFull row = false) b,
     Z.of_nat k) /\
  length (fst (clearRows b)) = Z.to_nat BOARD_HEIGHT /\
  wfBoard (fst (clearRows b)) = true.
Proof.
  intros Hb Hk. pose proof (clearRows_wfBoard b Hb) as Hwf.
  split; [|split; [by apply wfBoard_length|done]].
  rewrite clearRows_spec, Hk.
  pose proof (length_filter_split b) as Hsplit. apply wfBoard_length in Hb.
  by replace (Z.to_nat BOARD_HEIGHT
              - length (filter (fun row => isFull row = false) b))%nat
    with k by lia.
Qed.

Lemma clearRows_compacts_witness :
  clearRows stackBoard =
    (replicate 2 emptyRow
       ++ filter (fun row => isFull row = false) stackBoard, 2) /\
  length (fst (clearRows stackBoard)) = 20%nat /\
  wfBoard (fst (clearRows stackBoard)) = true.
Proof. apply (clearRows_compacts stackBoard 2); reflexivity. Defined.

(** C9.  For every board, every piece with an occupied cell and every
    position that the validator accepts, the ghost projection returns a
    position with the same [x] and a [y] not above the start, which the
    validator accepts and below which, one row down, it rejects; the loop
    of the hard drop started from the same position stops at this very
    position, after as many steps as the two rows are apart. *)
Theorem ghost_is_resting_position c piece pos :
  wfBoard (board c) = true -> hasCell piece = true ->
  isValidPosition c piece pos = Done true ->
  exists ghost,
    calculateGhostPosition c piece pos = Done ghost /\
    px ghost = px pos /\ py pos <= py ghost /\
    isValidPosition c piece ghost = Done true /\
    isValidPosition c piece (mkPosition (px ghost) (py ghost + 1))
      = Done false /\
    dropOn (board c) piece pos = Done (ghost, py ghost - py pos).
Proof.
  intros Hb Hc Hv. unfold calculateGhostPosition, isValidPosition, ghostOn,
    dropOn in *. rewrite dropLoop_ghostLoop.
  destruct (ghostLoop_resting (loopBound (py pos)) (board c) piece
              (px pos) (py pos)) as (g & -> & Hle & Hrest & Hbetween);
    [done|done|unfold loopBound; lia|].
  exists (mkPosition (px pos) g). simpl. repeat split; try done.
  destruct (decide (g = py pos)) as [->|Hne]; [by destruct pos|].
  apply Hbetween. lia.
Qed.

Lemma ghost_is_resting_position_witness :
  exists ghost,
    calculateGhostPosition (now freshGame) (TETROMINOES TO) (mkPosition 4 0)
      = Done ghost /\
    px ghost = 4 /\ 0 <= py ghost /\
    isValidPosition (now freshGame) (TETROMINOES TO) ghost = Done true /\
    isValidPosition (now freshGame) (TETROMINOES TO)
      (mkPosition (px ghost) (py ghost + 1)) = Done false /\
    dropOn createEmptyBoard (TETROMINOES TO) (mkPosition 4 0)
      = Done (ghost, py ghost - 0).
Proof.
  apply (ghost_is_resting_position (now freshGame) (TETROMINOES TO)
           (mkPosition 4 0)); reflexivity.
Defined.

(** C10.  Locking a piece that lies within the walls into a board of 20
    rows of 10 cells gives a board of the same dimensions in which every
    cell under an occupied shape cell, at a row index of at least 0, holds
    the colour of the piece, and every other cell holds the value it had
    (before any line is cleared). *)
Theorem lock_changes_only_covered_cells b piece pos :
  wfBoard b = true -> withinWalls piece pos = true ->
  exists nb,
    lockCells b piece pos = Done nb /\ wfBoard nb = true /\
    forall r c,
      cellAt nb r c =
      if covered piece pos r c then Color (color piece) else cellAt b r c.
Proof. apply lockCells_spec. Qed.

Lemma lock_changes_only_covered_cells_witness :
  exists nb,
    lockCells lineBoard (TETROMINOES TI) (mkPosition 0 19) = Done nb /\
    wfBoard nb = true /\
    forall r c,
      cellAt nb r c =
      if covered (TETROMINOES TI) (mkPosition 0 19) r c
      then Color "#00f0f0" else cellAt lineBoard r c.
Proof.
  apply (lock_changes_only_covered_cells lineBoard (TETROMINOES TI)
           (mkPosition 0 19)); reflexivity.
Defined.

(** * Further properties of the engine *)

(** ** The validator, cell by cell *)

Lemma checkRow_intro b pos y row x :
  (Z.to_nat BOARD_HEIGHT <= length b)%nat ->
  (forall j, truthy (entryAt row j) = true ->
     0 <= px pos + x + j < BOARD_WIDTH /\ py pos + y < BOARD_HEIGHT /\
     (0 <= py pos + y ->
      cellTruthy (cellAt b (py pos + y) (px pos + x + j)) = false)) ->
  checkRow b pos y row x = Done true.
Proof.
  intros Hlen. revert x. induction row as [|v row IH]; intros x Hin; simpl;
    [done|].
  assert (checkRow b pos y row (x + 1) = Done true) as Hrest.
  { apply IH. intros j Hj. specialize (Hin (j + 1)).
    rewrite entryAt_cons in Hin. destruct (j + 1 =? 0) eqn:E.
    - apply Z.eqb_eq in E. unfold entryAt in Hj.
      by destruct (j <? 0) eqn:E'; [|apply Z.ltb_ge in E'; lia].
    - replace (j + 1 - 1) with j in Hin by lia.
      replace (px pos + x + (j + 1)) with (px pos + (x + 1) + j) in Hin
        by lia.
      by apply Hin. }
  destruct (truthy v) eqn:Hv; [|done].
  specialize (Hin 0). rewrite entryAt_cons in Hin. simpl in Hin.
  rewrite Z.add_0_r in Hin. destruct (Hin Hv) as (Hx & Hy & Hfree).
  destruct (_ || _) eqn:Hout.
  { apply orb_prop in Hout as [[Hl|Hr]%orb_prop|Hh].
    - apply Z.ltb_lt in Hl. lia.
    - apply Z.leb_le in Hr. lia.
    - apply Z.leb_le in Hh. lia. }
  destruct (0 <=? py pos + y) eqn:Hy0; [|done]. apply Z.leb_le in Hy0.
  destruct (tall_lookup b (py pos + y)) as [line Hline]; [done|lia|].
  rewrite Hline. specialize (Hfree Hy0). unfold cellAt in Hfree.
  destruct (py pos + y <? 0) eqn:E; [apply Z.ltb_lt in E; lia|].
  rewrite Hline in Hfree. by rewrite Hfree.
Qed.

Lemma checkRows_intro b pos rows : forall y,
  (Z.to_nat BOARD_HEIGHT <= length b)%nat ->
  (forall i j, truthy (shapeAt rows i j) = true ->
     0 <= px pos + j < BOARD_WIDTH /\ py pos + y + i < BOARD_HEIGHT /\
     (0 <= py pos + y + i ->
      cellTruthy (cellAt b (py pos + y + i) (px pos + j)) = false)) ->
  checkRows b pos rows y = Done true.
Proof.
  induction rows as [|row rows IH]; intros y Hlen Hin; simpl; [done|].
  rewrite checkRow_intro; [|done|].
  - apply IH; [done|]. intros i j Hij. specialize (Hin (i + 1) j).
    rewrite shapeAt_cons in Hin. destruct (i + 1 =? 0) eqn:E.
    + apply Z.eqb_eq in E. unfold shapeAt in Hij.
      by destruct (i <? 0) eqn:E'; [|apply Z.ltb_ge in E'; lia].
    + replace (i + 1 - 1) with i in Hin by lia.
      replace (py pos + y + (i + 1)) with (py pos + (y + 1) + i) in Hin
        by lia.
      by apply Hin.
  - intros j Hj. specialize (Hin 0 j). rewrite shapeAt_cons in Hin.
    simpl in Hin. rewrite !Z.add_0_r in Hin.
    replace (px pos + 0 + j) with (px pos + j) by lia. by apply Hin.
Qed.

(** X1.  What the collision validator decides.  On a board of 20 rows of
    10 cells the validator returns, for every piece and every position, and
    it accepts exactly when every occupied cell of the shape lies between
    the side walls, above the floor and, unless it is above the top of the
    board, over a board cell that holds nothing.  There is no test against
    the top: rows above the board are free. *)
Theorem isValidOn_accepts_iff_cells_free b piece pos :
  wfBoard b = true ->
  exists valid,
    isValidOn b piece pos = Done valid /\
    (valid = true <-> cellsFree b piece pos).
Proof.
  intros Hb. destruct (isValidOn_total b piece pos Hb) as [valid Hv].
  exists valid. split; [done|]. split.
  - intros ->. intros i j Hij. by eapply isValidOn_true_cells.
  - intros Hfree. unfold isValidOn in Hv. rewrite checkRows_intro in Hv.
    + congruence.
    + by rewrite (wfBoard_length b Hb).
    + intros i j Hij. rewrite Z.add_0_r. by apply Hfree.
Qed.

Lemma isValidOn_accepts_iff_cells_free_witness :
  exists valid,
    isValidOn towerBoard (TETROMINOES TT) (mkPosition 4 0) = Done valid /\
    (valid = true <-> cellsFree towerBoard (TETROMINOES TT) (mkPosition 4 0)).
Proof.
  apply (isValidOn_accepts_iff_cells_free towerBoard (TETROMINOES TT)
           (mkPosition 4 0)).
  reflexivity.
Defined.

(** ** Four quarter turns *)

Lemma hasDims_spec s R C :
  hasDims s R C = true <->
  length s = R /\ forall row, row ∈ s -> length row = C.
Proof.
  unfold hasDims. rewrite andb_true_iff, Nat.eqb_eq, forallb_forall.
  split; intros [Hl Hr]; (split; [done|]); intros row Hrow.
  - apply Nat.eqb_eq, Hr. by apply list_elem_of_In.
  - apply Nat.eqb_eq, Hr. by apply list_elem_of_In.
Qed.

Lemma shapeAt_lookup s i j row v :
  s !! i = Some row -> row !! j = Some v ->
  shapeAt s (Z.of_nat i) (Z.of_nat j) = v.
Proof.
  intros Hrow Hv. unfold shapeAt, entryAt.
  destruct (Z.of_nat i <? 0) eqn:E; [apply Z.ltb_lt in E; lia|].
  rewrite Nat2Z.id, Hrow.
  destruct (Z.of_nat j <? 0) eqn:E'; [apply Z.ltb_lt in E'; lia|].
  by rewrite Nat2Z.id, Hv.
Qed.

(** Two shapes of the same dimensions with the same entries are equal. *)
Lemma shape_ext s s' R C :
  hasDims s R C = true -> hasDims s' R C = true ->
  (forall r c, 0 <= r < Z.of_nat R -> 0 <= c < Z.of_nat C ->
               shapeAt s r c = shapeAt s' r c) ->
  s = s'.
Proof.
  intros [HR HC]%hasDims_spec [HR' HC']%hasDims_spec Hcells.
  apply list_eq. intros i.
  destruct (decide (i < R)%nat) as [Hi|Hi].
  - destruct (lookup_lt_is_Some_2 s i) as [row Hrow]; [lia|].
    destruct (lookup_lt_is_Some_2 s' i) as [row' Hrow']; [lia|].
    rewrite Hrow, Hrow'. f_equal. apply list_eq. intros j.
    pose proof (HC row (list_elem_of_lookup_2 _ _ _ Hrow)) as Hlen.
    pose proof (HC' row' (list_elem_of_lookup_2 _ _ _ Hrow')) as Hlen'.
    destruct (decide (j < C)%nat) as [Hj|Hj].
    + destruct (lookup_lt_is_Some_2 row j) as [v Hv]; [lia|].
      destruct (lookup_lt_is_Some_2 row' j) as [v' Hv']; [lia|].
      rewrite Hv, Hv'. f_equal.
      rewrite <- (shapeAt_lookup s i j row v Hrow Hv).
      rewrite <- (shapeAt_lookup s' i j row' v' Hrow' Hv').
      apply Hcells; lia.
    + by rewrite !lookup_ge_None_2 by lia.
  - by rewrite !lookup_ge_None_2 by lia.
Qed.

(** One quarter turn on a shape of [R] rows and [C] columns. *)
Lemma rotatePiece_dims piece R C :
  hasDims (shape piece) R C = true -> (0 < R)%nat ->
  exists rotated,
    rotatePiece piece = Done rotated /\
    type rotated = type piece /\ color rotated = color piece /\
    hasDims (shape rotated) C R = true /\
    forall r c, 0 <= r < Z.of_nat C -> 0 <= c < Z.of_nat R ->
      shapeAt (shape rotated) r c
      = shapeAt (shape piece) (Z.of_nat R - 1 - c) r.
Proof.
  intros [HR HC]%hasDims_spec Hpos.
  destruct (shape piece) as [|row0 rest] eqn:Hs; [simpl in HR; lia|].
  rewrite <- Hs in HR, HC.
  assert (length row0 = C) as Hrow0
    by (apply HC; rewrite Hs; apply list_elem_of_here).
  destruct (rotatePiece_shape piece row0 rest Hs)
    as (q & Hq & Ht & Hc & Hlen & Hrows & Hcells).
  exists q. split; [done|]. split; [done|]. split; [done|]. split.
  - apply hasDims_spec. split; [congruence|].
    intros row Hrow. by rewrite (Hrows row Hrow).
  - intros r c Hr Hcc. rewrite <- Hs. rewrite Hcells by lia. by rewrite HR.
Qed.

(** X2.  Four quarter turns give the piece back.  For a shape of [R] rows
    of [C] entries each, with [R] and [C] at least 1, applying the rotation
    four times returns and yields the very piece it started from (type,
    colour and shape). *)
Theorem rotatePiece_four_times_is_identity piece R C :
  hasDims (shape piece) R C = true -> (0 < R)%nat -> (0 < C)%nat ->
  rotateTimes 4 piece = Done piece.
Proof.
  intros Hd HR HC.
  destruct (rotatePiece_dims piece R C Hd HR)
    as (p1 & Hp1 & Ht1 & Hc1 & Hd1 & Hcells1).
  destruct (rotatePiece_dims p1 C R Hd1 HC)
    as (p2 & Hp2 & Ht2 & Hc2 & Hd2 & Hcells2).
  destruct (rotatePiece_dims p2 R C Hd2 HR)
    as (p3 & Hp3 & Ht3 & Hc3 & Hd3 & Hcells3).
  destruct (rotatePiece_dims p3 C R Hd3 HC)
    as (p4 & Hp4 & Ht4 & Hc4 & Hd4 & Hcells4).
  simpl. rewrite Hp1. simpl. rewrite Hp2. simpl. rewrite Hp3. simpl.
  rewrite Hp4. simpl. f_equal.
  assert (shape p4 = shape piece) as Hshape.
  { apply (shape_ext _ _ R C); [done..|]. intros r c Hr Hc.
    rewrite Hcells4, Hcells3, Hcells2, Hcells1 by lia. f_equal; lia. }
  destruct p4 as [t4 s4 c4], piece as [t s c]. simpl in *. congruence.
Qed.

Lemma rotatePiece_four_times_is_identity_witness :
  rotateTimes 4 (TETROMINOES TL) = Done (TETROMINOES TL).
Proof.
  apply (rotatePiece_four_times_is_identity (TETROMINOES TL) 2 3);
    [reflexivity|lia|lia].
Defined.

(** ** The display board *)

Lemma paintRow_spec mark ifFree pos y row : forall nb x,
  wfBoard nb = true ->
  exists nb',
    paintRow nb mark ifFree pos y row x = Done nb' /\ wfBoard nb' = true /\
    forall r c,
      cellAt nb' r c =
      if onBoard r c && (r =? py pos + y)
         && truthy (entryAt row (c - px pos - x))
         && negb (ifFree && cellTruthy (cellAt nb r c))
      then Color mark else cellAt nb r c.
Proof.
  induction row as [|v row IH]; intros nb x Hwf; simpl.
  - exists nb. repeat split; [done|]. intros r c.
    rewrite entryAt_nil. simpl. by rewrite andb_false_r.
  - (* how the head and the tail of the row combine *)
    assert (forall nb1 : Board,
      (forall r c, cellAt nb1 r c =
         if onBoard r c && (r =? py pos + y) && (c =? px pos + x) && truthy v
            && negb (ifFree && cellTruthy (cellAt nb r c))
         then Color mark else cellAt nb r c) ->
      forall nb', (forall r c, cellAt nb' r c =
         if onBoard r c && (r =? py pos + y)
            && truthy (entryAt row (c - px pos - (x + 1)))
            && negb (ifFree && cellTruthy (cellAt nb1 r c))
         then Color mark else cellAt nb1 r c) ->
      forall r c, cellAt nb' r c =
         if onBoard r c && (r =? py pos + y)
            && truthy (entryAt (v :: row) (c - px pos - x))
            && negb (ifFree && cellTruthy (cellAt nb r c))
         then Color mark else cellAt nb r c) as Hglue.
    { intros nb1 H1 nb' H' r c. rewrite H', H1, entryAt_cons.
      replace (c - px pos - (x + 1)) with (c - px pos - x - 1) by lia.
      destruct (c - px pos - x =? 0) eqn:E0.
      - apply Z.eqb_eq in E0.
        assert ((c =? px pos + x) = true) as -> by (apply Z.eqb_eq; lia).
        rewrite E0. unfold entryAt at 1. simpl.
        rewrite !andb_false_r, andb_true_r. done.
      - apply Z.eqb_neq in E0.
        assert ((c =? px pos + x) = false) as -> by (apply Z.eqb_neq; lia).
        rewrite !andb_false_r. simpl. done. }
    assert (forall r c, cellAt nb r c =
         if onBoard r c && (r =? py pos + y) && (c =? px pos + x) && false
            && negb (ifFree && cellTruthy (cellAt nb r c))
         then Color mark else cellAt nb r c) as Hskip.
    { intros r c. by rewrite andb_false_r. }
    destruct (truthy v) eqn:Hv.
    + destruct ((0 <=? py pos + y) && (py pos + y <? BOARD_HEIGHT)
                && (0 <=? px pos + x) && (px pos + x <? BOARD_WIDTH))
        eqn:Hin.
      * apply andb_prop in Hin as [[[Hy0 Hy1]%andb_prop Hx0]%andb_prop Hx1].
        apply Z.leb_le in Hy0, Hx0. apply Z.ltb_lt in Hy1, Hx1.
        destruct (tall_lookup nb (py pos + y)) as [line Hline];
          [by rewrite (wfBoard_length nb Hwf)|lia|]. rewrite Hline.
        pose proof (wfBoard_row _ _ _ Hwf Hline) as Hlen.
        assert (cellAt nb (py pos + y) (px pos + x)
                = rowAt line (px pos + x)) as Hcell.
        { unfold cellAt.
          destruct (py pos + y <? 0) eqn:E; [apply Z.ltb_lt in E; lia|].
          by rewrite Hline. }
        destruct (ifFree && cellTruthy (rowAt line (px pos + x))) eqn:Hfree.
        -- destruct (IH nb (x + 1) Hwf) as (nb' & -> & Hwf' & Hc').
           exists nb'. repeat split; [done|]. apply (Hglue nb); [|done].
           intros r c.
           destruct (r =? py pos + y) eqn:Er;
             [|by rewrite !andb_false_r].
           destruct (c =? px pos + x) eqn:Ec;
             [|by rewrite !andb_false_r].
           apply Z.eqb_eq in Er as ->. apply Z.eqb_eq in Ec as ->.
           rewrite Hcell, Hfree. simpl. by rewrite andb_false_r.
        -- set (nb1 := <[Z.to_nat (py pos + y) :=
                          writeAt line (px pos + x) (Color mark)]> nb).
           assert (wfBoard nb1 = true) as Hwf1.
           { eapply wfBoard_insert; [done..|]. apply length_writeAt.
             unfold BOARD_WIDTH in *. lia. }
           destruct (IH nb1 (x + 1) Hwf1) as (nb' & -> & Hwf' & Hc').
           exists nb'. repeat split; [done|]. apply (Hglue nb1); [|done].
           intros r c. unfold nb1.
           rewrite cellAt_insert by (by eapply lookup_lt_Some).
           rewrite Z2Nat.id by done. rewrite rowAt_writeAt by lia.
           destruct (r =? py pos + y) eqn:Er.
           ++ apply Z.eqb_eq in Er as ->.
              destruct (c =? px pos + x) eqn:Ec.
              ** apply Z.eqb_eq in Ec as ->. rewrite Hcell, Hfree.
                 unfold onBoard.
                 assert ((0 <=? py pos + y) = true) as ->
                   by by apply Z.leb_le.
                 assert ((py pos + y <? BOARD_HEIGHT) = true) as ->
                   by by apply Z.ltb_lt.
                 assert ((0 <=? px pos + x) = true) as ->
                   by by apply Z.leb_le.
                 assert ((px pos + x <? BOARD_WIDTH) = true) as ->
                   by by apply Z.ltb_lt.
                 done.
              ** rewrite !andb_false_r. simpl. unfold cellAt.
                 destruct (py pos + y <? 0) eqn:E;
                   [apply Z.ltb_lt in E; lia|].
                 by rewrite Hline.
           ++ by rewrite !andb_false_r.
      * destruct (IH nb (x + 1) Hwf) as (nb' & -> & Hwf' & Hc').
        exists nb'. repeat split; [done|]. apply (Hglue nb); [|done].
        intros r c.
        destruct (r =? py pos + y) eqn:Er; [|by rewrite !andb_false_r].
        destruct (c =? px pos + x) eqn:Ec; [|by rewrite !andb_false_r].
        apply Z.eqb_eq in Er as ->. apply Z.eqb_eq in Ec as ->.
        unfold onBoard. by rewrite Hin.
    + destruct (IH nb (x + 1) Hwf) as (nb' & -> & Hwf' & Hc').
      exists nb'. repeat split; [done|]. by apply (Hglue nb).
Qed.

Lemma paintRows_spec mark ifFree pos rows : forall nb y,
  wfBoard nb = true ->
  exists nb',
    paintRows nb mark ifFree pos rows y = Done nb' /\ wfBoard nb' = true /\
    forall r c,
      cellAt nb' r c =
      if onBoard r c
         && truthy (shapeAt rows (r - py pos - y) (c - px pos))
         && negb (ifFree && cellTruthy (cellAt nb r c))
      then Color mark else cellAt nb r c.
Proof.
  induction rows as [|row rows IH]; intros nb y Hwf; simpl.
  - exists nb. repeat split; [done|]. intros r c.
    rewrite shapeAt_nil. simpl. by rewrite andb_false_r.
  - destruct (paintRow_spec mark ifFree pos y row nb 0 Hwf)
      as (nb1 & -> & Hwf1 & Hc1).
    simpl. destruct (IH nb1 (y + 1) Hwf1) as (nb' & -> & Hwf' & Hc').
    exists nb'. repeat split; [done|]. intros r c.
    rewrite Hc', Hc1, shapeAt_cons.
    replace (r - py pos - (y + 1)) with (r - py pos - y - 1) by lia.
    replace (c - px pos - 0) with (c - px pos) by lia.
    destruct (r - py pos - y =? 0) eqn:E0.
    + apply Z.eqb_eq in E0.
      assert ((r =? py pos + y) = true) as -> by (apply Z.eqb_eq; lia).
      rewrite E0. unfold shapeAt at 1. simpl.
      by rewrite !andb_false_r, andb_true_r.
    + apply Z.eqb_neq in E0.
      assert ((r =? py pos + y) = false) as -> by (apply Z.eqb_neq; lia).
      by rewrite !andb_false_r.
Qed.

(** X15.  What is drawn.  For a board of 20 rows of 10 cells the display
    board is built without an error, has 20 rows of 10 cells, and is the
    board itself when there is no active piece.  With an active piece, a
    cell of the display holds the piece's colour if it is on the board and
    under an occupied cell of the piece at its position; otherwise it holds
    the ghost mark if the stored ghost row differs from the piece's row, the
    cell is on the board, under an occupied cell of the piece at the stored
    ghost position, and empty on the board; otherwise it is the cell of the
    board.  So the piece is drawn over the ghost and over locked cells,
    the ghost never over a locked cell, and the ghost is not drawn at all
    when its row is the piece's row. *)
Theorem renderBoard_shows_piece_over_ghost_over_board c :
  wfBoard (board c) = true ->
  exists displayBoard,
    renderBoard c = Done displayBoard /\ wfBoard displayBoard = true /\
    forall r col,
      cellAt displayBoard r col =
      match currentPiece c with
      | None => cellAt (board c) r col
      | Some piece =>
          if onBoard r col && covered piece (position c) r col
          then Color (color piece)
          else if negb (py (ghostPosition c) =? py (position c))
                  && onBoard r col && covered piece (ghostPosition c) r col
                  && negb (cellTruthy (cellAt (board c) r col))
          then Color "ghost"
          else cellAt (board c) r col
      end.
Proof.
  intros Hwf. unfold renderBoard.
  destruct (currentPiece c) as [piece|]; [|by exists (board c)].
  assert (forall r col, onBoard r col = true ->
            forall pos, covered piece pos r col
                        = truthy (shapeAt (shape piece) (r - py pos - 0)
                                    (col - px pos))) as Hcov.
  { intros r col Hon pos. unfold covered. rewrite Z.sub_0_r.
    unfold onBoard in Hon.
    apply andb_prop in Hon as [[[Hr _]%andb_prop _]%andb_prop _].
    by rewrite Hr. }
  destruct (negb (py (ghostPosition c) =? py (position c))) eqn:Hshow.
  - destruct (paintRows_spec "ghost" true (ghostPosition c) (shape piece)
                (board c) 0 Hwf) as (d1 & -> & Hwf1 & Hc1).
    simpl.
    destruct (paintRows_spec (color piece) false (position c) (shape piece)
                d1 0 Hwf1) as (d2 & -> & Hwf2 & Hc2).
    exists d2. repeat split; [done|]. intros r col. rewrite Hc2, Hc1.
    destruct (onBoard r col) eqn:Hon; [|done].
    rewrite !Hcov by done. simpl. by rewrite !andb_true_r.
  - simpl.
    destruct (paintRows_spec (color piece) false (position c) (shape piece)
                (board c) 0 Hwf) as (d2 & -> & Hwf2 & Hc2).
    exists d2. repeat split; [done|]. intros r col. rewrite Hc2.
    destruct (onBoard r col) eqn:Hon; [|done].
    rewrite !Hcov by done. simpl. by rewrite !andb_true_r.
Qed.

Lemma renderBoard_shows_piece_over_ghost_over_board_witness :
  exists displayBoard,
    renderBoard (now freshGame) = Done displayBoard /\
    wfBoard displayBoard = true /\
    forall r col,
      cellAt displayBoard r col =
      if onBoard r col && covered (TETROMINOES TO) (mkPosition 4 0) r col
      then Color "#f0f000"
      else if negb (18 =? 0)
              && onBoard r col && covered (TETROMINOES TO) (mkPosition 4 18) r col
              && negb (cellTruthy (cellAt createEmptyBoard r col))
      then Color "ghost"
      else cellAt createEmptyBoard r col.
Proof.
  apply (renderBoard_shows_piece_over_ghost_over_board (now freshGame)).
  reflexivity.
Defined.

(** ** Full rows *)

Lemma fullRows_app (b1 b2 : Board) :
  fullRows (b1 ++ b2) = (fullRows b1 + fullRows b2)%nat.
Proof. unfold fullRows. by rewrite filter_app, length_app. Qed.

Lemma fullRows_replicate_emptyRow n : fullRows (replicate n emptyRow) = 0%nat.
Proof.
  induction n as [|n IH]; [done|]. unfold fullRows in *. simpl.
  rewrite filter_cons. by rewrite decide_False by done.
Qed.

Lemma fullRows_filter_not_full (b : Board) :
  fullRows (filter (fun row => isFull row = false) b) = 0%nat.
Proof.
  unfold fullRows. induction b as [|row b IH]; [done|].
  rewrite filter_cons. destruct (isFull row) eqn:Hrow.
  - by rewrite decide_False by done.
  - rewrite decide_True by done. rewrite filter_cons.
    by rewrite decide_False by congruence.
Qed.

Lemma fullRows_clearRows b : fullRows (fst (clearRows b)) = 0%nat.
Proof.
  rewrite clearRows_spec. simpl.
  by rewrite fullRows_app, fullRows_replicate_emptyRow,
    fullRows_filter_not_full.
Qed.

Lemma filter_not_full_id (b : Board) :
  fullRows b = 0%nat -> filter (fun row => isFull row = false) b = b.
Proof.
  unfold fullRows. induction b as [|row b IH]; [done|].
  rewrite !filter_cons. destruct (isFull row) eqn:Hrow.
  - rewrite decide_True by done. simpl. lia.
  - rewrite decide_False by congruence. rewrite decide_True by done.
    intros H. by rewrite IH.
Qed.

(** X4.  Line clearing leaves no full row and is idempotent: the board that
    the clearing pass of [checkLines] builds from a board of 20 rows of 10
    cells has no full row, and a second pass over it clears nothing and
    gives the same board back. *)
Theorem clearRows_leaves_no_full_row b :
  wfBoard b = true ->
  fullRows (fst (clearRows b)) = 0%nat /\
  clearRows (fst (clearRows b)) = (fst (clearRows b), 0).
Proof.
  intros Hb. pose proof (fullRows_clearRows b) as Hnone.
  split; [done|].
  pose proof (clearRows_wfBoard b Hb) as Hwf.
  rewrite (clearRows_spec (fst (clearRows b))).
  rewrite filter_not_full_id by done. fold (fullRows (fst (clearRows b))).
  rewrite Hnone. apply wfBoard_length in Hwf. rewrite Hwf.
  by replace (Z.to_nat BOARD_HEIGHT - Z.to_nat BOARD_HEIGHT)%nat
    with 0%nat by lia.
Qed.

Lemma clearRows_leaves_no_full_row_witness :
  fullRows (fst (clearRows stackBoard)) = 0%nat /\
  clearRows (fst (clearRows stackBoard)) = (fst (clearRows stackBoard), 0).
Proof. apply (clearRows_leaves_no_full_row stackBoard). reflexivity. Defined.

(** X5.  A lock that completes no row.  In a well-formed render with an
    active piece the lock returns; when the board with the piece written in
    has no full row, the lock queues that board, sets the combo counter to 0
    and re-enables hold, and queues nothing else: score, lines, level and
    speed stay as they are, no piece is drawn and no timeout is set (the
    spawn that follows is a separate call). *)
Theorem lock_without_full_row_resets_combo c w piece :
  wfState c = true -> currentPiece c = Some piece ->
  exists nb w',
    lockCells (board c) piece (position c) = Done nb /\
    mergePiece c w = Done (tt, w') /\
    (fullRows nb = 0%nat ->
     now w' = withCanHold true (withCombo 0 (withBoard nb (now w))) /\
     draws w' = draws w /\ timeouts w' = timeouts w).
Proof.
  intros Hwf Hp.
  destruct (mergePiece_total c Hwf w piece Hp) as (nb & Hnb & _ & Hrun).
  exists nb. rewrite Hrun. eexists. split; [done|]. split; [done|].
  intros Hnone. simpl. unfold afterCheckLines. rewrite clearRows_spec.
  cbn [fst snd]. fold (fullRows nb). rewrite Hnone. done.
Qed.

Lemma lock_without_full_row_resets_combo_witness :
  exists nb w',
    lockCells towerBoard (TETROMINOES TI) (mkPosition 0 19) = Done nb /\
    mergePiece towerState (mkWorld towerState 0 []) = Done (tt, w') /\
    (fullRows nb = 0%nat ->
     now w' = withCanHold true (withCombo 0 (withBoard nb towerState)) /\
     draws w' = 0%nat /\ timeouts w' = []).
Proof.
  apply (lock_without_full_row_resets_combo towerState
           (mkWorld towerState 0 []) (TETROMINOES TI)); reflexivity.
Defined.

(** ** Starting a game *)

Lemma isValidOn_empty_spawn piece :
  okPiece piece = true ->
  isValidOn createEmptyBoard piece (spawnPosition piece) = Done true.
Proof.
  intros Hok. destruct (hasCell_startXOf piece (okPiece_hasCell _ Hok))
    as (row0 & rest & Hs & _).
  pose proof (okPiece_spawn_withinWalls piece row0 rest Hok Hs) as Hin.
  unfold withinWalls in Hin. unfold spawnPosition. rewrite Hs. simpl.
  by destruct (isValidOn createEmptyBoard piece _) as [[]| |].
Qed.

(** What a spawn does, by the answer of the validator. *)
Lemma spawnNewPiece_cases random c w :
  wfState c = true ->
  let piece := spawnedPiece random c w in
  exists valid ghost,
    isValidPosition c piece (spawnPosition piece) = Done valid /\
    (valid = true ->
     calculateGhostPosition c piece (spawnPosition piece) = Done ghost) /\
    spawnNewPiece random c w =
    Done (tt, mkWorld
      (if valid then
         withGhostPosition ghost
           (withNextPiece
              (Some (TETROMINOES (random (Nat.pred (spawnDraws c w)))))
              (withPosition (spawnPosition piece)
                 (withCurrentPiece (Some piece) (now w))))
       else withGameOver true (now w))
      (spawnDraws c w) (timeouts w)).
Proof.
  intros Hwf piece. pose proof (spawnedPiece_ok random c Hwf w) as Hok.
  fold piece in Hok.
  destruct (hasCell_startXOf _ (okPiece_hasCell _ Hok))
    as (row0 & rest & Hs & _).
  assert (spawnPosition piece
          = mkPosition (BOARD_WIDTH / 2 - Z.of_nat (length row0) / 2) 0)
    as Hsp by (unfold spawnPosition; by rewrite Hs).
  destruct (isValidPosition_total c Hwf piece (spawnPosition piece))
    as [valid Hv].
  destruct (calculateGhostPosition_total c Hwf piece (spawnPosition piece)
              Hok) as [ghost Hg].
  exists valid, ghost. split; [done|]. split; [done|].
  rewrite (spawnNewPiece_run random c w piece row0 rest (spawnPosition piece)
             valid eq_refl Hs Hsp Hv).
  destruct valid; [|done]. by rewrite Hg.
Qed.

(** X7.  Starting a game.  In a well-formed render [startGame] returns and
    queues an empty board, score 0, level 1, lines 0, combo 0, the initial
    speed, an empty hold slot, hold enabled, not paused and started.  The
    piece it brings in is validated at its spawn position against the board
    of the render that [startGame] closes over, not against the empty board
    it has just queued: the game is over afterwards exactly when that
    validation fails, and otherwise the piece is active at the spawn
    position.  When the board of the render is already empty, the validation
    succeeds. *)
Theorem startGame_resets_and_spawns_on_old_board random c w :
  wfState c = true ->
  let piece := spawnedPiece random c
                 (mkWorld (now w) (S (draws w)) (timeouts w)) in
  exists valid w',
    isValidPosition c piece (spawnPosition piece) = Done valid /\
    startGame random c w = Done (tt, w') /\
    board (now w') = createEmptyBoard /\
    score (now w') = Int 0 /\ level (now w') = 1 /\ lines (now w') = 0 /\
    combo (now w') = 0 /\ speed (now w') = INITIAL_SPEED /\
    heldPiece (now w') = None /\ canHold (now w') = true /\
    paused (now w') = false /\ gameStarted (now w') = true /\
    gameOver (now w') = negb valid /\
    (valid = true ->
     currentPiece (now w') = Some piece /\
     position (now w') = spawnPosition piece) /\
    (board c = createEmptyBoard -> valid = true).
Proof.
  intros Hwf piece.
  set (w1 := mkWorld (resetState (TETROMINOES (random (draws w))) (now w))
               (S (draws w)) (timeouts w)).
  assert (startGame random c w = spawnNewPiece random c w1) as ->.
  { unfold startGame. unfold_m. unfold createRandomTetromino. done. }
  destruct (spawnNewPiece_cases random c w1 Hwf)
    as (valid & ghost & Hv & _ & ->).
  assert (spawnedPiece random c w1 = piece) as Hpiece by done.
  rewrite Hpiece in *. exists valid. eexists. split; [done|].
  split; [done|]. cbn [now].
  assert (okPiece piece = true) as Hok
    by (rewrite <- Hpiece; by apply spawnedPiece_ok).
  destruct valid; simpl; repeat split; try done.
  intros Hempty. unfold isValidPosition in Hv. rewrite Hempty in Hv.
  rewrite isValidOn_empty_spawn in Hv by done. congruence.
Qed.

Lemma startGame_resets_and_spawns_on_old_board_witness :
  let piece := spawnedPiece inOrder initialState
                 (mkWorld initialState 1 []) in
  exists valid w',
    isValidPosition initialState piece (spawnPosition piece) = Done valid /\
    startGame inOrder initialState (mkWorld initialState 0 [])
      = Done (tt, w') /\
    board (now w') = createEmptyBoard /\
    score (now w') = Int 0 /\ level (now w') = 1 /\ lines (now w') = 0 /\
    combo (now w') = 0 /\ speed (now w') = INITIAL_SPEED /\
    heldPiece (now w') = None /\ canHold (now w') = true /\
    paused (now w') = false /\ gameStarted (now w') = true /\
    gameOver (now w') = negb valid /\
    (valid = true ->
     currentPiece (now w') = Some piece /\
     position (now w') = spawnPosition piece) /\
    (board initialState = createEmptyBoard -> valid = true).
Proof.
  apply (startGame_resets_and_spawns_on_old_board inOrder initialState
           (mkWorld initialState 0 [])).
  reflexivity.
Defined.

(** A game over that the restart button does not leave at once: the spawn
    of the restart is validated against the board of the game that ended. *)
Example play_again_on_a_blocked_board_stays_over :
  exists w1 w2,
    step inOrder PlayAgain (mkWorld (withGameOver true towerState) 0 [])
      = Done w1 /\
    board (now w1) = createEmptyBoard /\ gameOver (now w1) = true /\
    step inOrder PlayAgain w1 = Done w2 /\ gameOver (now w2) = false.
Proof.
  eexists. eexists. split; [by cbv|]. split; [by cbv|]. split; [by cbv|].
  split; [by cbv|]. by cbv.
Qed.

(** ** Keys *)

(** X8.  Pause.  In a started game that is not paused, Escape sets the
    pause flag and changes nothing else.  While paused, every key other than
    Escape and ArrowDown, and every gravity tick, leaves the state as it is;
    ArrowDown moves nothing but still adds 1 to the score; a second Escape
    gives back exactly the state before the pause. *)
Theorem pause_freezes_the_game_and_resumes_it random w :
  gameStarted (now w) = true -> paused (now w) = false ->
  exists w1,
    step random (KeyDown Escape) w = Done w1 /\
    now w1 = withPaused true (now w) /\
    (forall code,
       code <> Escape -> code <> ArrowDown ->
       step random (KeyDown code) w1 = Done w1) /\
    step random Tick w1 = Done w1 /\
    step random (KeyDown ArrowDown) w1
      = Done (mkWorld
                (withScore (addNum (score (now w)) (Int 1)) (now w1))
                (draws w1) (timeouts w1)) /\
    step random (KeyDown Escape) w1 = Done w.
Proof.
  intros Hstarted Hpaused. destruct w as [s d ts]. simpl in *.
  exists (mkWorld (withPaused true s) d ts).
  split.
  { unfold step, handleKeyPress. simpl. rewrite Hstarted. simpl.
    unfold run, setPaused, update. simpl. by rewrite Hpaused. }
  split; [done|]. split.
  { intros code Hesc Hdown. unfold step, handleKeyPress. simpl.
    rewrite Hstarted. simpl.
    destruct code; try done; simpl;
      unfold run, moveLeft, moveRight, rotate, hardDrop, holdPiece; simpl;
      destruct (currentPiece s); simpl; try done;
      by rewrite ?orb_true_r. }
  split.
  { unfold step. simpl. by rewrite Hstarted, andb_false_r. }
  split.
  { unfold step, handleKeyPress. simpl. rewrite Hstarted. simpl.
    unfold run, moveDown, mbind, M_bind. simpl.
    destruct (currentPiece s); simpl; by rewrite ?orb_true_r. }
  unfold step, handleKeyPress. simpl. rewrite Hstarted. simpl.
  unfold run, setPaused, update. simpl. rewrite <- Hpaused.
  destruct s. simpl in *. by subst.
Qed.

Lemma pause_freezes_the_game_and_resumes_it_witness :
  exists w1,
    step inOrder (KeyDown Escape) freshGame = Done w1 /\
    now w1 = withPaused true (now freshGame) /\
    (forall code,
       code <> Escape -> code <> ArrowDown ->
       step inOrder (KeyDown code) w1 = Done w1) /\
    step inOrder Tick w1 = Done w1 /\
    step inOrder (KeyDown ArrowDown) w1
      = Done (mkWorld
                (withScore (addNum (score (now freshGame)) (Int 1)) (now w1))
                (draws w1) (timeouts w1)) /\
    step inOrder (KeyDown Escape) w1 = Done freshGame.
Proof.
  apply (pause_freezes_the_game_and_resumes_it inOrder freshGame);
    reflexivity.
Defined.

(** What a hard drop does when it gets past its guard. *)
Lemma hardDrop_run c w piece :
  wfState c = true -> currentPiece c = Some piece ->
  gameOver c = false -> paused c = false ->
  exists rest,
    calculateGhostPosition c piece (position c) = Done rest /\
    px rest = px (position c) /\ py (position c) <= py rest /\
    isValidPosition c piece (mkPosition (px rest) (py rest + 1))
      = Done false /\
    hardDrop c w =
    Done (tt, mkWorld
      (withScore (addNum (score (now w))
                    (Int ((py rest - py (position c)) * 2)))
         (withPosition rest (now w)))
      (draws w) (timeouts w ++ [c])).
Proof.
  intros Hwf Hp Hover Hpaused.
  pose proof (wfState_fields c Hwf) as (Hb & Hc & _).
  rewrite Hp in Hc. simpl in Hc.
  destruct (ghostLoop_resting (loopBound (py (position c))) (board c) piece
              (px (position c)) (py (position c)))
    as (g & Hg & Hle & Hrest & _);
    [done|by apply okPiece_hasCell|unfold loopBound; lia|].
  exists (mkPosition (px (position c)) g).
  unfold calculateGhostPosition, ghostOn. rewrite Hg. simpl.
  repeat split; try done.
  unfold hardDrop. rewrite Hp, Hover, Hpaused. simpl.
  unfold mbind, M_bind, lift, dropOn. rewrite dropLoop_ghostLoop, Hg.
  simpl. unfold_setters. simpl. by rewrite Z.add_0_l.
Qed.

(** X9.  Hard drop.  In a well-formed, running render with an active piece,
    Space moves the piece to the resting position that the ghost projection
    computes from its position, adds 2 points for every row fallen, and
    schedules one timeout that closes over the values of this render;
    nothing else changes, and in particular the piece is not locked yet. *)
Theorem hardDrop_moves_to_rest_and_pays_two_per_row random w piece :
  wfState (now w) = true -> gameStarted (now w) = true ->
  currentPiece (now w) = Some piece ->
  gameOver (now w) = false -> paused (now w) = false ->
  exists rest,
    calculateGhostPosition (now w) piece (position (now w)) = Done rest /\
    step random (KeyDown Space) w =
    Done (mkWorld
      (withScore (addNum (score (now w))
                    (Int (2 * (py rest - py (position (now w))))))
         (withPosition rest (now w)))
      (draws w) (timeouts w ++ [now w])).
Proof.
  intros Hwf Hstarted Hp Hover Hpaused.
  destruct (hardDrop_run (now w) w piece Hwf Hp Hover Hpaused)
    as (rest & Hg & _ & _ & _ & Hrun).
  exists rest. split; [done|].
  unfold step, handleKeyPress. rewrite Hstarted. simpl.
  unfold run. rewrite Hrun. simpl.
  by replace (2 * (py rest - py (position (now w))))
    with ((py rest - py (position (now w))) * 2) by lia.
Qed.

Lemma hardDrop_moves_to_rest_and_pays_two_per_row_witness :
  exists rest,
    calculateGhostPosition (now freshGame) (TETROMINOES TO) (mkPosition 4 0)
      = Done rest /\
    step inOrder (KeyDown Space) freshGame =
    Done (mkWorld
      (withScore (addNum (Int 0) (Int (2 * (py rest - 0))))
         (withPosition rest (now freshGame)))
      3 ([] ++ [now freshGame])).
Proof.
  apply (hardDrop_moves_to_rest_and_pays_two_per_row inOrder freshGame
           (TETROMINOES TO)); reflexivity.
Defined.

(** X10.  The lock after a hard drop.  When the timeout set by a hard drop
    fires (with no other timeout pending), the board that results is the
    board of the render of the key press with the piece written in at the
    position it had BEFORE the drop (line clearing applied), not at the
    resting position the drop moved it to: the callback reads the position
    of the render that scheduled it. *)
Theorem hardDrop_timeout_locks_at_the_position_of_its_render random w piece :
  wfState (now w) = true -> gameStarted (now w) = true ->
  currentPiece (now w) = Some piece ->
  gameOver (now w) = false -> paused (now w) = false ->
  timeouts w = [] ->
  exists w1 nb w2,
    step random (KeyDown Space) w = Done w1 /\
    lockCells (board (now w)) piece (position (now w)) = Done nb /\
    step random TimeoutFires w1 = Done w2 /\
    board (now w2)
      = (if 0 <? snd (clearRows nb) then fst (clearRows nb) else nb) /\
    timeouts w2 = [].
Proof.
  intros Hwf Hstarted Hp Hover Hpaused Hnone.
  destruct (hardDrop_run (now w) w piece Hwf Hp Hover Hpaused)
    as (rest & _ & _ & _ & _ & Hrun).
  set (w1 := mkWorld
       (withScore (addNum (score (now w))
                     (Int ((py rest - py (position (now w))) * 2)))
          (withPosition rest (now w)))
       (draws w) [now w]).
  assert (step random (KeyDown Space) w = Done w1) as Hstep.
  { unfold step, handleKeyPress. rewrite Hstarted. simpl.
    unfold run. rewrite Hrun. simpl. by rewrite Hnone. }
  exists w1.
  destruct (mergePiece_total (now w) Hwf
              (mkWorld (now w1) (draws w1) []) piece Hp)
    as (nb & Hnb & _ & Hmerge).
  exists nb.
  destruct (spawnNewPiece_cases random (now w)
              (mkWorld (withCanHold true
                          (afterCheckLines (now w) nb
                             (withBoard nb (now w1)))) (draws w1) []) Hwf)
    as (valid & ghost & _ & _ & Hspawn).
  eexists. split; [exact Hstep|]. split; [done|].
  unfold step. cbn [timeouts w1].
  unfold run, hardDropTimeout, mbind, M_bind.
  rewrite Hmerge. cbn [now draws timeouts]. rewrite Hspawn. cbn [rbind snd].
  split; [reflexivity|]. cbn [now timeouts]. split; [|done].
  assert (board (afterCheckLines (now w) nb (withBoard nb (now w1)))
          = if 0 <? snd (clearRows nb) then fst (clearRows nb) else nb)
    as Hboard.
  { unfold afterCheckLines. destruct (0 <? snd (clearRows nb)); [|done].
    by destruct (_ =? _). }
  destruct valid; simpl; exact Hboard.
Qed.

Lemma hardDrop_timeout_locks_at_the_position_of_its_render_witness :
  exists w1 nb w2,
    step inOrder (KeyDown Space) freshGame = Done w1 /\
    lockCells createEmptyBoard (TETROMINOES TO) (mkPosition 4 0) = Done nb /\
    step inOrder TimeoutFires w1 = Done w2 /\
    board (now w2)
      = (if 0 <? snd (clearRows nb) then fst (clearRows nb) else nb) /\
    timeouts w2 = [].
Proof.
  apply (hardDrop_timeout_locks_at_the_position_of_its_render inOrder
           freshGame (TETROMINOES TO)); reflexivity.
Defined.

(** X11.  Hold with a piece in the hold slot.  In a well-formed, running
    render where hold is enabled, KeyC makes the held piece active at its
    centred spawn position, puts the active piece in the hold slot, disables
    hold and recomputes the ghost; the spawn position is not validated, the
    game-over flag is not touched, and no piece is drawn. *)
Theorem hold_swaps_active_and_held_without_validation random w piece temp :
  wfState (now w) = true -> gameStarted (now w) = true ->
  currentPiece (now w) = Some piece -> heldPiece (now w) = Some temp ->
  canHold (now w) = true -> gameOver (now w) = false ->
  paused (now w) = false ->
  exists ghost,
    calculateGhostPosition (now w) temp (spawnPosition temp) = Done ghost /\
    step random (KeyDown KeyC) w =
    Done (mkWorld
      (withGhostPosition ghost
         (withPosition (spawnPosition temp)
            (withCurrentPiece (Some temp)
               (withHeldPiece (Some piece)
                  (withCanHold false (now w))))))
      (draws w) (timeouts w)).
Proof.
  intros Hwf Hstarted Hp Hheld Hcan Hover Hpaused.
  pose proof (wfState_fields _ Hwf) as (_ & _ & _ & Hh & _).
  rewrite Hheld in Hh. simpl in Hh.
  destruct (hasCell_startXOf temp (okPiece_hasCell _ Hh))
    as (row0 & rest & Hs & HstartX).
  assert (spawnPosition temp
          = mkPosition (BOARD_WIDTH / 2 - Z.of_nat (length row0) / 2) 0)
    as Hsp by (unfold spawnPosition; by rewrite Hs).
  destruct (calculateGhostPosition_total (now w) Hwf temp
              (spawnPosition temp) Hh) as [ghost Hg].
  exists ghost. split; [done|].
  unfold step, handleKeyPress. rewrite Hstarted. simpl.
  unfold run, holdPiece. rewrite Hp, Hcan, Hover, Hpaused, Hheld. simpl.
  unfold_m. simpl. rewrite HstartX. simpl. rewrite <- Hsp, Hg. done.
Qed.

Lemma hold_swaps_active_and_held_without_validation_witness :
  exists ghost,
    calculateGhostPosition (withHeldPiece (Some (TETROMINOES TT)) towerState)
      (TETROMINOES TT) (spawnPosition (TETROMINOES TT)) = Done ghost /\
    step inOrder (KeyDown KeyC)
      (mkWorld (withHeldPiece (Some (TETROMINOES TT)) towerState) 0 []) =
    Done (mkWorld
      (withGhostPosition ghost
         (withPosition (spawnPosition (TETROMINOES TT))
            (withCurrentPiece (Some (TETROMINOES TT))
               (withHeldPiece (Some (TETROMINOES TI))
                  (withCanHold false
                     (withHeldPiece (Some (TETROMINOES TT)) towerState))))))
      0 []).
Proof.
  apply (hold_swaps_active_and_held_without_validation inOrder
           (mkWorld (withHeldPiece (Some (TETROMINOES TT)) towerState) 0 [])
           (TETROMINOES TI) (TETROMINOES TT)); reflexivity.
Defined.

(** X12.  Hold is usable once.  From a well-formed world in which a hold
    is possible, KeyC returns and leaves hold disabled, and a further KeyC
    or ShiftLeft then changes nothing at all. *)
Theorem second_hold_is_a_no_op random w :
  wfWorld w = true -> holds (now w) = true ->
  exists w1,
    step random (KeyDown KeyC) w = Done w1 /\
    canHold (now w1) = false /\
    step random (KeyDown KeyC) w1 = Done w1 /\
    step random (KeyDown ShiftLeft) w1 = Done w1.
Proof.
  intros Hw Hholds.
  destruct (step_ok random (KeyDown KeyC) w Hw) as (w1 & Hstep & _ & Hcan).
  exists w1. split; [done|].
  assert (canHold (now w1) = false) as Hcan1.
  { rewrite Hcan. unfold canHoldAfter. simpl.
    rewrite andb_false_r. by rewrite Hholds. }
  split; [done|].
  assert (forall code, code = KeyC \/ code = ShiftLeft ->
            step random (KeyDown code) w1 = Done w1) as Hnoop.
  { intros code Hcode. unfold step, handleKeyPress.
    assert (bool_decide (code = Space) = false) as ->
      by (destruct Hcode as [-> | ->]; done).
    rewrite andb_false_r.
    assert (bool_decide (code = Escape) = false) as ->
      by (destruct Hcode as [-> | ->]; done).
    assert (holdPiece random (now w1) w1 = Done (tt, w1)) as Hhold.
    { unfold holdPiece. destruct (currentPiece (now w1)); [|done].
      by rewrite Hcan1. }
    destruct Hcode as [-> | ->]; unfold run; by rewrite Hhold. }
  split; apply Hnoop; auto.
Qed.

Lemma second_hold_is_a_no_op_witness :
  exists w1,
    step inOrder (KeyDown KeyC) freshGame = Done w1 /\
    canHold (now w1) = false /\
    step inOrder (KeyDown KeyC) w1 = Done w1 /\
    step inOrder (KeyDown ShiftLeft) w1 = Done w1.
Proof.
  apply (second_hold_is_a_no_op inOrder freshGame); reflexivity.
Defined.

(** What a horizontal move does, by the answer of the validator. *)
Lemma moveLeft_run c w piece :
  wfState c = true -> currentPiece c = Some piece ->
  gameOver c = false -> paused c = false ->
  let newPos := mkPosition (px (position c) - 1) (py (position c)) in
  exists valid ghost,
    isValidPosition c piece newPos = Done valid /\
    calculateGhostPosition c piece newPos = Done ghost /\
    moveLeft c w =
    Done (tt, if valid
              then mkWorld (withGhostPosition ghost (withPosition newPos (now w)))
                     (draws w) (timeouts w)
              else w).
Proof.
  intros Hwf Hp Hover Hpaused newPos.
  pose proof (wfState_fields c Hwf) as (_ & Hc & _).
  rewrite Hp in Hc. simpl in Hc.
  destruct (isValidPosition_total c Hwf piece newPos) as [valid Hv].
  destruct (commitMove_run c Hwf piece newPos w Hc) as (ghost & Hg & Hrun).
  exists valid, ghost. split; [done|]. split; [done|].
  unfold moveLeft. rewrite Hp, Hover, Hpaused. simpl.
  unfold mbind, M_bind, lift. fold newPos. rewrite Hv. simpl.
  by destruct valid.
Qed.

Lemma moveRight_run c w piece :
  wfState c = true -> currentPiece c = Some piece ->
  gameOver c = false -> paused c = false ->
  let newPos := mkPosition (px (position c) + 1) (py (position c)) in
  exists valid ghost,
    isValidPosition c piece newPos = Done valid /\
    calculateGhostPosition c piece newPos = Done ghost /\
    moveRight c w =
    Done (tt, if valid
              then mkWorld (withGhostPosition ghost (withPosition newPos (now w)))
                     (draws w) (timeouts w)
              else w).
Proof.
  intros Hwf Hp Hover Hpaused newPos.
  pose proof (wfState_fields c Hwf) as (_ & Hc & _).
  rewrite Hp in Hc. simpl in Hc.
  destruct (isValidPosition_total c Hwf piece newPos) as [valid Hv].
  destruct (commitMove_run c Hwf piece newPos w Hc) as (ghost & Hg & Hrun).
  exists valid, ghost. split; [done|]. split; [done|].
  unfold moveRight. rewrite Hp, Hover, Hpaused. simpl.
  unfold mbind, M_bind, lift. fold newPos. rewrite Hv. simpl.
  by destruct valid.
Qed.

Lemma step_ArrowLeft random w :
  step random (KeyDown ArrowLeft) w = run (moveLeft (now w)) w.
Proof.
  unfold step, handleKeyPress. simpl. by rewrite andb_false_r.
Qed.

Lemma step_ArrowRight random w :
  step random (KeyDown ArrowRight) w = run (moveRight (now w)) w.
Proof.
  unfold step, handleKeyPress. simpl. by rewrite andb_false_r.
Qed.

(** X13.  A horizontal move that the validator rejects changes nothing:
    in a well-formed render with an active piece, if the position one column
    to the left (right) is rejected, ArrowLeft (ArrowRight) leaves the whole
    state as it is. *)
Theorem rejected_horizontal_move_changes_nothing random w piece :
  wfState (now w) = true -> currentPiece (now w) = Some piece ->
  (isValidPosition (now w) piece
     (mkPosition (px (position (now w)) - 1) (py (position (now w))))
   = Done false ->
   step random (KeyDown ArrowLeft) w = Done w) /\
  (isValidPosition (now w) piece
     (mkPosition (px (position (now w)) + 1) (py (position (now w))))
   = Done false ->
   step random (KeyDown ArrowRight) w = Done w).
Proof.
  intros Hwf Hp.
  assert (gameOver (now w) || paused (now w) = true ->
          step random (KeyDown ArrowLeft) w = Done w /\
          step random (KeyDown ArrowRight) w = Done w) as Hguard.
  { intros Hor. rewrite step_ArrowLeft, step_ArrowRight.
    unfold run, moveLeft, moveRight. by rewrite Hp, Hor. }
  destruct (gameOver (now w)) eqn:Hover;
    [destruct Hguard as [? ?]; by auto|].
  destruct (paused (now w)) eqn:Hpaused;
    [destruct Hguard as [? ?]; by auto|].
  split; intros Hv.
  - rewrite step_ArrowLeft.
    destruct (moveLeft_run (now w) w piece Hwf Hp Hover Hpaused)
      as (valid & ghost & Hv' & _ & Hrun).
    unfold run. rewrite Hrun. simpl.
    assert (valid = false) as -> by congruence. done.
  - rewrite step_ArrowRight.
    destruct (moveRight_run (now w) w piece Hwf Hp Hover Hpaused)
      as (valid & ghost & Hv' & _ & Hrun).
    unfold run. rewrite Hrun. simpl.
    assert (valid = false) as -> by congruence. done.
Qed.

Lemma rejected_horizontal_move_changes_nothing_witness :
  (isValidPosition lineState (TETROMINOES TI) (mkPosition (0 - 1) 19)
   = Done false ->
   step inOrder (KeyDown ArrowLeft) (mkWorld lineState 0 [])
   = Done (mkWorld lineState 0 [])) /\
  (isValidPosition lineState (TETROMINOES TI) (mkPosition (0 + 1) 19)
   = Done false ->
   step inOrder (KeyDown ArrowRight) (mkWorld lineState 0 [])
   = Done (mkWorld lineState 0 [])).
Proof.
  apply (rejected_horizontal_move_changes_nothing inOrder
           (mkWorld lineState 0 []) (TETROMINOES TI)); reflexivity.
Defined.

(** X14.  Left, then right.  In a well-formed, running render whose active
    piece is at an accepted position, with the position one column to the
    left accepted too, ArrowLeft moves the piece one column to the left and
    ArrowRight then brings it back: the state after both is the state before
    them, except that the stored ghost is the ghost of that position. *)
Theorem left_then_right_restores_the_position random w piece :
  wfState (now w) = true -> currentPiece (now w) = Some piece ->
  gameOver (now w) = false -> paused (now w) = false ->
  isValidPosition (now w) piece (position (now w)) = Done true ->
  isValidPosition (now w) piece
    (mkPosition (px (position (now w)) - 1) (py (position (now w))))
  = Done true ->
  exists w1 w2 ghost,
    step random (KeyDown ArrowLeft) w = Done w1 /\
    position (now w1)
    = mkPosition (px (position (now w)) - 1) (py (position (now w))) /\
    step random (KeyDown ArrowRight) w1 = Done w2 /\
    calculateGhostPosition (now w) piece (position (now w)) = Done ghost /\
    w2 = mkWorld (withGhostPosition ghost (now w)) (draws w) (timeouts w).
Proof.
  intros Hwf Hp Hover Hpaused Hhere Hleft.
  destruct (moveLeft_run (now w) w piece Hwf Hp Hover Hpaused)
    as (valid & ghost1 & Hv & Hg1 & Hrun).
  assert (valid = true) as -> by congruence.
  set (w1 := mkWorld _ _ _) in Hrun.
  assert (wfState (now w1) = true) as Hwf1.
  { pose proof (wfState_fields _ Hwf) as (Hb & Hc & Hn & Hh & Hin).
    apply wfState_intro; simpl; try done.
    rewrite Hp. intros ? [= <-]. by eapply isValidOn_withinWalls. }
  destruct (moveRight_run (now w1) w1 piece Hwf1 Hp Hover Hpaused)
    as (valid2 & ghost & Hv2 & Hg2 & Hrun2).
  assert (mkPosition (px (position (now w1)) + 1) (py (position (now w1)))
          = position (now w)) as Hback.
  { simpl. destruct (position (now w)) as [x y]. simpl. f_equal. lia. }
  rewrite Hback in *.
  assert (valid2 = true) as ->.
  { unfold isValidPosition in *. simpl in Hv2. congruence. }
  exists w1, (mkWorld (withGhostPosition ghost (now w)) (draws w) (timeouts w)),
    ghost.
  split; [by rewrite step_ArrowLeft; unfold run; rewrite Hrun|].
  split; [done|]. split.
  - rewrite step_ArrowRight. unfold run. rewrite Hrun2. simpl.
    by destruct (now w).
  - split; [|done]. by unfold calculateGhostPosition in *.
Qed.

Lemma left_then_right_restores_the_position_witness :
  exists w1 w2 ghost,
    step inOrder (KeyDown ArrowLeft) freshGame = Done w1 /\
    position (now w1) = mkPosition (4 - 1) 0 /\
    step inOrder (KeyDown ArrowRight) w1 = Done w2 /\
    calculateGhostPosition (now freshGame) (TETROMINOES TO) (mkPosition 4 0)
      = Done ghost /\
    w2 = mkWorld (withGhostPosition ghost (now freshGame)) 3 [].
Proof.
  apply (left_then_right_restores_the_position inOrder freshGame
           (TETROMINOES TO)); reflexivity.
Defined.

(** X21.  [canHold], event by event.  A spawn leaves [canHold] as it is,
    and the lock ([mergePiece]) sets it to true.  For an event handled by
    the functions of the latest render in a well-formed world: a start and
    a lock leave [canHold] true, a hold that gets past its guard leaves it
    false in both branches (swap and empty hold slot), and every other
    event leaves it unchanged. *)
Theorem canHold_lowered_by_hold_raised_by_lock random c w piece e :
  wfState c = true -> wfWorld w = true -> currentPiece c = Some piece ->
  (exists w', spawnNewPiece random c w = Done (tt, w') /\
              canHold (now w') = canHold (now w)) /\
  (exists w', mergePiece c w = Done (tt, w') /\ canHold (now w') = true) /\
  (exists w', step random e w = Done w' /\
              canHold (now w') = canHoldAfter e w).
Proof.
  intros Hc Hw Hp. pose proof Hw as [Hnow _]%andb_prop. repeat split.
  - destruct (spawnNewPiece_ok random c Hc w Hnow) as (w' & ? & _ & _ & ?).
    by exists w'.
  - destruct (mergePiece_ok c Hc w piece Hp Hnow) as (w' & ? & _ & _ & _ & ?).
    by exists w'.
  - destruct (step_ok random e w Hw) as (w' & ? & _ & ?). by exists w'.
Qed.

Lemma canHold_lowered_by_hold_raised_by_lock_witness :
  (exists w', spawnNewPiece inOrder (now freshGame) freshGame = Done (tt, w') /\
              canHold (now w') = canHold (now freshGame)) /\
  (exists w', mergePiece (now freshGame) freshGame = Done (tt, w') /\
              canHold (now w') = true) /\
  (exists w', step inOrder (KeyDown KeyC) freshGame = Done w' /\
              canHold (now w') = canHoldAfter (KeyDown KeyC) freshGame).
Proof.
  apply (canHold_lowered_by_hold_raised_by_lock inOrder (now freshGame)
           freshGame (TETROMINOES TO) (KeyDown KeyC)); reflexivity.
Defined.

(** ** What every reachable state satisfies *)

(** *** Updates that leave board and counters alone *)

Lemma calm_refl s : calm s s.
Proof. by repeat split. Qed.

Lemma calm_trans s1 s2 s3 : calm s1 s2 -> calm s2 s3 -> calm s1 s3.
Proof.
  intros (? & ? & ? & ? & ? & ?) (? & ? & ? & ? & ? & ?).
  repeat split; try congruence. auto.
Qed.

Lemma calm_tidy s s' : calm s s' -> tidy s = true -> tidy s' = true.
Proof.
  intros (Hb & Hl & Hv & Hc & Hs & Hn). unfold tidy.
  rewrite Hb, Hl, Hv, Hc, Hs. rewrite !andb_true_iff.
  intros [[[[[? ?] ?] ?] ?] ?]. repeat split; try done. by apply Hn.
Qed.

Lemma spawnNewPiece_calm random c w w' :
  spawnNewPiece random c w = Done (tt, w') ->
  calm (now w) (now w') /\ timeouts w' = timeouts w.
Proof.
  unfold spawnNewPiece, createRandomTetromino. unfold_m. unfold rbind.
  intros H. repeat case_match; simplify_eq; simpl; by repeat split.
Qed.

Lemma commitMove_calm c piece newPos w w' :
  commitMove c piece newPos w = Done (tt, w') ->
  calm (now w) (now w') /\ timeouts w' = timeouts w.
Proof.
  unfold commitMove. unfold_m. unfold rbind.
  intros H. repeat case_match; simplify_eq; simpl; by repeat split.
Qed.

Lemma tryKicks_calm c rotated ks w w' :
  tryKicks c rotated ks w = Done (tt, w') ->
  calm (now w) (now w') /\ timeouts w' = timeouts w.
Proof.
  induction ks as [|k ks IH]; simpl.
  - intros [= <-]. split; [apply calm_refl|done].
  - unfold_m. unfold rbind. intros H.
    repeat case_match; simplify_eq; simpl; try by repeat split.
    by apply IH.
Qed.

Lemma moveLeft_calm c w w' :
  moveLeft c w = Done (tt, w') ->
  calm (now w) (now w') /\ timeouts w' = timeouts w.
Proof.
  unfold moveLeft. unfold mbind, M_bind, mret, M_ret, lift, rbind.
  intros H. repeat case_match; simplify_eq; try (split; [apply calm_refl|done]).
  by eapply commitMove_calm.
Qed.

Lemma moveRight_calm c w w' :
  moveRight c w = Done (tt, w') ->
  calm (now w) (now w') /\ timeouts w' = timeouts w.
Proof.
  unfold moveRight. unfold mbind, M_bind, mret, M_ret, lift, rbind.
  intros H. repeat case_match; simplify_eq; try (split; [apply calm_refl|done]).
  by eapply commitMove_calm.
Qed.

Lemma rotate_calm c w w' :
  rotate c w = Done (tt, w') ->
  calm (now w) (now w') /\ timeouts w' = timeouts w.
Proof.
  unfold rotate. unfold mbind, M_bind, mret, M_ret, lift, rbind.
  intros H. repeat case_match; simplify_eq; try (split; [apply calm_refl|done]).
  by eapply tryKicks_calm.
Qed.

Lemma hardDrop_calm c w w' :
  hardDrop c w = Done (tt, w') ->
  calm (now w) (now w') /\
  (timeouts w' = timeouts w \/ timeouts w' = timeouts w ++ [c]).
Proof.
  unfold hardDrop. unfold_m. unfold rbind.
  intros H. repeat case_match; simplify_eq; simpl;
    try (split; [apply calm_refl|by left]).
  split; [|by right]. repeat split; try done.
  simpl. by destruct (score _).
Qed.

Lemma holdPiece_calm random c w w' :
  holdPiece random c w = Done (tt, w') ->
  calm (now w) (now w') /\ timeouts w' = timeouts w.
Proof.
  unfold holdPiece. unfold_m. unfold rbind.
  intros H. repeat case_match; simplify_eq; simpl;
    try (split; [apply calm_refl|done]); try by repeat split.
  match goal with
  | H : spawnNewPiece _ _ _ = Done _ |- _ =>
      apply spawnNewPiece_calm in H as [Hcalm Ht]
  end.
  split; [|done]. eapply calm_trans; [|exact Hcalm]. by repeat split.
Qed.

(** *** Full rows after a lock *)

Lemma fullRows_insert (b : Board) i line :
  (fullRows (<[i := line]> b) <= S (fullRows b))%nat.
Proof.
  revert i. induction b as [|row b IH]; intros i;
    [unfold fullRows; simpl; lia|].
  destruct i as [|i]; simpl.
  - unfold fullRows. rewrite !filter_cons.
    repeat case_decide; simpl; lia.
  - specialize (IH i). unfold fullRows in *. rewrite !filter_cons.
    case_decide; simpl; lia.
Qed.

Lemma lockRow_one_row paint pos y row : forall nb x nb',
  lockRow nb paint pos y row x = Done nb' ->
  nb' = nb \/ exists line, nb' = <[Z.to_nat (py pos + y) := line]> nb.
Proof.
  induction row as [|v row IH]; intros nb x nb'; simpl.
  - intros [= <-]. by left.
  - destruct (truthy v); [|apply IH].
    destruct (0 <=? py pos + y); [|apply IH].
    destruct (nb !! Z.to_nat (py pos + y)) as [line|]; [|done].
    intros H. apply IH in H as [->|[line' ->]].
    + right. by eexists.
    + right. exists line'. by rewrite list_insert_insert_eq.
Qed.

Lemma lockRows_fullRows paint pos rows : forall nb y nb',
  lockRows nb paint pos rows y = Done nb' ->
  (fullRows nb' <= fullRows nb + length rows)%nat.
Proof.
  induction rows as [|row rows IH]; intros nb y nb'; simpl.
  - intros [= <-]. lia.
  - destruct (lockRow nb paint pos y row 0) as [nb1| |] eqn:Hrow; try done.
    simpl. intros H. apply IH in H.
    apply lockRow_one_row in Hrow as [->|[line ->]]; [lia|].
    pose proof (fullRows_insert nb (Z.to_nat (py pos + y)) line). lia.
Qed.

(** A lock by a well-formed piece completes at most four rows when none
    was full before. *)
Lemma lockCells_fullRows b piece pos nb :
  okPiece piece = true -> fullRows b = 0%nat ->
  lockCells b piece pos = Done nb -> (fullRows nb <= 4)%nat.
Proof.
  intros Hok Hnone Hnb. apply lockRows_fullRows in Hnb. rewrite Hnone in Hnb.
  unfold okPiece, small in Hok.
  apply andb_prop in Hok as [_ [Hrows _]%andb_prop].
  apply Nat.leb_le in Hrows. lia.
Qed.

Lemma tidy_fields s :
  tidy s = true <->
  fullRows (board s) = 0%nat /\ isNumber (score s) = true /\
  0 <= lines s /\ 1 <= level s /\ 0 <= combo s /\
  speed s = Z.max MIN_SPEED (INITIAL_SPEED - (level s - 1) * 100).
Proof.
  unfold tidy. rewrite !andb_true_iff, Nat.eqb_eq, !Z.leb_le, Z.eqb_eq.
  tauto.
Qed.

Lemma linePoints_number k newCombo levelBonus :
  0 <= k <= 4 -> isNumber (linePoints k newCombo levelBonus) = true.
Proof.
  intros Hk.
  assert (k = 0 \/ k = 1 \/ k = 2 \/ k = 3 \/ k = 4)
    as [->|[->|[->|[->| ->]]]] by lia; reflexivity.
Qed.

Lemma startGame_tidy random c w w' :
  startGame random c w = Done (tt, w') ->
  tidy (now w') = true /\ timeouts w' = timeouts w.
Proof.
  unfold startGame. unfold_m. unfold createRandomTetromino. simpl.
  intros H. apply spawnNewPiece_calm in H as [Hcalm Ht]. simpl in *.
  split; [|done]. eapply calm_tidy; [exact Hcalm|]. reflexivity.
Qed.

(** *** Boards whose rows have grown *)

Lemma tallBoard_spec b :
  tallBoard b = true <->
  length b = Z.to_nat BOARD_HEIGHT /\
  (forall row, row ∈ b -> (Z.to_nat BOARD_WIDTH <= length row)%nat).
Proof.
  unfold tallBoard. rewrite andb_true_iff, Nat.eqb_eq, forallb_forall.
  split; intros [Hl Hr]; (split; [done|]); intros row Hrow.
  - apply Nat.leb_le, Hr. by apply list_elem_of_In.
  - apply Nat.leb_le, Hr. by apply list_elem_of_In.
Qed.

Lemma wfBoard_tallBoard b : wfBoard b = true -> tallBoard b = true.
Proof.
  rewrite wfBoard_forall, tallBoard_spec. intros [Hl Hr]. split; [done|].
  intros row Hrow. rewrite (Hr row Hrow). lia.
Qed.

Lemma length_writeAt_le row x v : (length row <= length (writeAt row x v))%nat.
Proof.
  unfold writeAt. destruct (x <? 0); [lia|].
  destruct (_ <? _)%nat.
  - by rewrite length_insert.
  - rewrite length_app. lia.
Qed.

Lemma tallBoard_insert b i line line' :
  tallBoard b = true -> b !! i = Some line ->
  (length line <= length line')%nat ->
  tallBoard (<[i := line']> b) = true.
Proof.
  rewrite !tallBoard_spec. intros [Hl Hr] Hi Hle. split.
  - by rewrite length_insert.
  - intros row Hrow. apply list_elem_of_lookup in Hrow as [j Hj].
    destruct (decide (i = j)) as [->|Hne].
    + rewrite list_lookup_insert_eq in Hj
        by (by eapply lookup_lt_Some). injection Hj as <-.
      assert (line ∈ b) as Hin by (by eapply list_elem_of_lookup_2).
      specialize (Hr line Hin). lia.
    + rewrite list_lookup_insert_ne in Hj by done.
      apply Hr. by eapply list_elem_of_lookup_2.
Qed.

Lemma lockRow_tallBoard paint pos y row : forall nb x nb',
  tallBoard nb = true ->
  lockRow nb paint pos y row x = Done nb' -> tallBoard nb' = true.
Proof.
  induction row as [|v row IH]; intros nb x nb' Hnb; simpl.
  - by intros [= <-].
  - destruct (truthy v); [|by apply IH].
    destruct (0 <=? py pos + y); [|by apply IH].
    destruct (nb !! Z.to_nat (py pos + y)) as [line|] eqn:Hline; [|done].
    apply IH. eapply tallBoard_insert; [done|done|apply length_writeAt_le].
Qed.

Lemma lockRows_tallBoard paint pos rows : forall nb y nb',
  tallBoard nb = true ->
  lockRows nb paint pos rows y = Done nb' -> tallBoard nb' = true.
Proof.
  induction rows as [|row rows IH]; intros nb y nb' Hnb; simpl.
  - by intros [= <-].
  - destruct (lockRow nb paint pos y row 0) as [nb1| |] eqn:Hrow; try done.
    simpl. apply IH. by eapply lockRow_tallBoard.
Qed.

Lemma clearRows_tallBoard b :
  tallBoard b = true -> tallBoard (fst (clearRows b)) = true.
Proof.
  rewrite !tallBoard_spec. intros [Hl Hr]. rewrite clearRows_spec. simpl.
  pose proof (length_filter_split b). split.
  - rewrite length_app, length_replicate. lia.
  - intros row [Hrow|Hrow]%elem_of_app.
    + apply elem_of_replicate in Hrow as [-> _]. done.
    + apply list_elem_of_filter in Hrow as [_ Hrow]. by apply Hr.
Qed.

Lemma tallBoard_length b :
  tallBoard b = true -> (Z.to_nat BOARD_HEIGHT <= length b)%nat.
Proof. intros [-> _]%tallBoard_spec. done. Qed.

Lemma isValidOn_tall b piece pos :
  tallBoard b = true -> exists v, isValidOn b piece pos = Done v.
Proof. intros Hb. apply checkRows_total. by apply tallBoard_length. Qed.

Lemma ghostLoop_tall rounds b piece x y0 :
  tallBoard b = true -> hasCell piece = true ->
  (Z.to_nat (BOARD_HEIGHT - y0) < rounds)%nat ->
  exists g, ghostLoop rounds b piece x y0 = Done g.
Proof.
  intros Hb Hc. revert y0.
  induction rounds as [|rounds IH]; intros y0 Hr; [lia|]. simpl.
  destruct (isValidOn_tall b piece (mkPosition x (y0 + 1)) Hb) as [[] Hv];
    rewrite Hv; [|by eexists].
  pose proof (isValidOn_true_floor _ _ _ Hv Hc) as Hfloor. simpl in Hfloor.
  apply IH. lia.
Qed.

Lemma ghostOn_tall b piece pos :
  tallBoard b = true -> hasCell piece = true ->
  exists ghost, ghostOn b piece pos = Done ghost.
Proof.
  intros Hb Hc. unfold ghostOn.
  destruct (ghostLoop_tall (loopBound (py pos)) b piece (px pos) (py pos))
    as (g & ->); [done|done|unfold loopBound; lia|].
  by eexists.
Qed.

Lemma dropOn_tall b piece pos :
  tallBoard b = true -> hasCell piece = true ->
  exists r, dropOn b piece pos = Done r.
Proof.
  intros Hb Hc. unfold dropOn. rewrite dropLoop_ghostLoop.
  destruct (ghostLoop_tall (loopBound (py pos)) b piece (px pos) (py pos))
    as (g & ->); [done|done|unfold loopBound; lia|].
  by eexists.
Qed.

(** *** The pieces in the slots *)

Lemma sound_fields s :
  sound s = true <->
  tidy s = true /\ okSlots s = true /\ tallBoard (board s) = true.
Proof. unfold sound. rewrite !andb_true_iff. tauto. Qed.

Lemma okSlots_fields s :
  okSlots s = true <->
  okSlot (currentPiece s) = true /\ okSlot (nextPiece s) = true /\
  okSlot (heldPiece s) = true.
Proof. unfold okSlots. rewrite !andb_true_iff. tauto. Qed.

Ltac slot_tac :=
  try done; try apply okPiece_TETROMINOES;
  match goal with
  | H : ?x = Some ?p, Hc : okSlot ?x = true |- okPiece ?p = true =>
      by rewrite H in Hc
  | _ => idtac
  end.

Lemma spawnNewPiece_slots random c w w' :
  okSlots c = true -> okSlots (now w) = true ->
  spawnNewPiece random c w = Done (tt, w') -> okSlots (now w') = true.
Proof.
  rewrite !okSlots_fields. intros (Hc1 & Hc2 & Hc3) (Hw1 & Hw2 & Hw3).
  unfold spawnNewPiece, createRandomTetromino. unfold_m. unfold rbind.
  intros H. repeat case_match; simplify_eq; simpl; repeat split; slot_tac.
Qed.

Lemma commitMove_slots c piece newPos w w' :
  okSlots (now w) = true ->
  commitMove c piece newPos w = Done (tt, w') -> okSlots (now w') = true.
Proof.
  unfold commitMove. unfold_m. unfold rbind.
  intros Hw H. repeat case_match; simplify_eq; by simpl.
Qed.

Lemma tryKicks_slots c rotated ks w w' :
  okPiece rotated = true -> okSlots (now w) = true ->
  tryKicks c rotated ks w = Done (tt, w') -> okSlots (now w') = true.
Proof.
  intros Hr. rewrite !okSlots_fields. intros (Hw1 & Hw2 & Hw3).
  induction ks as [|k ks IH]; simpl.
  - by intros [= <-].
  - unfold_m. unfold rbind. intros H.
    repeat case_match; simplify_eq; simpl; try by repeat split.
    by apply IH.
Qed.

Lemma moveLeft_slots c w w' :
  okSlots (now w) = true ->
  moveLeft c w = Done (tt, w') -> okSlots (now w') = true.
Proof.
  unfold moveLeft. unfold mbind, M_bind, mret, M_ret, lift, rbind.
  intros Hw H. repeat case_match; simplify_eq; try done.
  by eapply commitMove_slots.
Qed.

Lemma moveRight_slots c w w' :
  okSlots (now w) = true ->
  moveRight c w = Done (tt, w') -> okSlots (now w') = true.
Proof.
  unfold moveRight. unfold mbind, M_bind, mret, M_ret, lift, rbind.
  intros Hw H. repeat case_match; simplify_eq; try done.
  by eapply commitMove_slots.
Qed.

Lemma rotate_slots c w w' :
  okSlots c = true -> okSlots (now w) = true ->
  rotate c w = Done (tt, w') -> okSlots (now w') = true.
Proof.
  intros Hc Hw. apply okSlots_fields in Hc as (Hc1 & _).
  unfold rotate. unfold mbind, M_bind, mret, M_ret, lift, rbind.
  intros H. repeat case_match; simplify_eq; try done.
  eapply tryKicks_slots; [|done|done].
  match goal with
  | Hr : rotatePiece ?p = Done _ |- _ =>
      simpl in Hc1; destruct (okPiece_rotatePiece p Hc1) as (q & Hq & Hok)
  end.
  congruence.
Qed.

Lemma hardDrop_slots c w w' :
  okSlots (now w) = true ->
  hardDrop c w = Done (tt, w') -> okSlots (now w') = true.
Proof.
  unfold hardDrop. unfold_m. unfold rbind.
  intros Hw H. repeat case_match; simplify_eq; by simpl.
Qed.

Lemma holdPiece_slots random c w w' :
  okSlots c = true -> okSlots (now w) = true ->
  holdPiece random c w = Done (tt, w') -> okSlots (now w') = true.
Proof.
  intros Hc Hw. pose proof Hc as (Hc1 & Hc2 & Hc3)%okSlots_fields.
  pose proof Hw as (Hw1 & Hw2 & Hw3)%okSlots_fields.
  unfold holdPiece. unfold_m. unfold rbind.
  intros H. repeat case_match; simplify_eq; simpl; try done.
  - apply okSlots_fields. simpl. repeat split; slot_tac.
  - eapply spawnNewPiece_slots; [exact Hc| |done].
    apply okSlots_fields. simpl. repeat split; slot_tac.
Qed.

Lemma startGame_slots random c w w' :
  okSlots c = true -> okSlots (now w) = true ->
  startGame random c w = Done (tt, w') -> okSlots (now w') = true.
Proof.
  intros Hc Hw. pose proof Hw as (Hw1 & Hw2 & Hw3)%okSlots_fields.
  unfold startGame. unfold_m. unfold createRandomTetromino. simpl.
  intros H. eapply spawnNewPiece_slots; [exact Hc| |done].
  apply okSlots_fields. simpl. repeat split; slot_tac.
Qed.

(** *** The handlers of any render keep the state sound *)

Lemma calm_sound s s' :
  calm s s' -> okSlots s' = true -> sound s = true -> sound s' = true.
Proof.
  intros Hcalm Hs'. rewrite !sound_fields. intros (Ht & _ & Hb).
  split; [by eapply calm_tidy|]. split; [done|].
  destruct Hcalm as (-> & _). done.
Qed.

Lemma mergePiece_sound c w w' :
  sound c = true -> sound (now w) = true ->
  mergePiece c w = Done (tt, w') ->
  sound (now w') = true /\ timeouts w' = timeouts w.
Proof.
  intros Hc Hw. unfold mergePiece.
  destruct (currentPiece c) as [piece|] eqn:Hp; [|by intros [= <-]].
  unfold mbind at 1, M_bind at 1, lift, rbind.
  destruct (lockCells (board c) piece (position c)) as [nb| |] eqn:Hnb;
    try done.
  intros H.
  pose proof (mergePiece_run c w piece nb Hp Hnb) as Hrun.
  unfold mergePiece in Hrun. rewrite Hp in Hrun.
  unfold mbind at 1, M_bind at 1, lift, rbind in Hrun. rewrite Hnb in Hrun.
  rewrite Hrun in H. injection H as <-. split; [|done]. cbn [now].
  apply sound_fields in Hc as (Hct & Hcs & Hcb).
  apply sound_fields in Hw as (Hwt & Hws & Hwb).
  apply tidy_fields in Hct as (Hc0 & _ & Hcl & Hcv & Hcc & _).
  apply tidy_fields in Hwt as (_ & Hwn & Hwl & Hwv & Hwc & Hwsp).
  pose proof Hcs as (Hok & _)%okSlots_fields.
  rewrite Hp in Hok. simpl in Hok.
  pose proof (lockCells_fullRows _ _ _ _ Hok Hc0 Hnb) as Hfour.
  assert (tallBoard nb = true) as Hnbt
    by (unfold lockCells in Hnb;
        exact (lockRows_tallBoard _ _ _ _ _ _ Hcb Hnb)).
  assert (snd (clearRows nb) = Z.of_nat (fullRows nb)) as Hk
    by (by rewrite clearRows_spec).
  apply sound_fields. unfold afterCheckLines. rewrite Hk.
  destruct (0 <? Z.of_nat (fullRows nb)) eqn:Hpos.
  - apply Z.ltb_lt in Hpos.
    assert (isNumber (addNum (score (now w))
              (linePoints (Z.of_nat (fullRows nb)) (combo c + 1) (level c)))
            = true) as Hscore.
    { pose proof (linePoints_number (Z.of_nat (fullRows nb)) (combo c + 1)
                    (level c)) as Hlp.
      destruct (score (now w)); [|done].
      destruct (linePoints _ _ _); [done|]. apply Hlp. lia. }
    assert (1 <= lines c / 10 + 1) as Hlevel.
    { pose proof (Z.div_pos (lines c) 10). lia. }
    pose proof (clearRows_tallBoard nb Hnbt) as Hclear.
    destruct (lines c / 10 + 1 =? level c); simpl;
      (split; [apply tidy_fields; simpl;
               repeat split; try done; try lia; apply fullRows_clearRows
              |split; [done|done]]).
  - apply Z.ltb_ge in Hpos. simpl.
    split; [apply tidy_fields; simpl; repeat split; try done; lia|].
    split; [done|done].
Qed.

Lemma spawnNewPiece_sound random c w w' :
  sound c = true -> sound (now w) = true ->
  spawnNewPiece random c w = Done (tt, w') ->
  sound (now w') = true /\ timeouts w' = timeouts w.
Proof.
  intros Hc Hw H. pose proof (spawnNewPiece_calm _ _ _ _ H) as [Hcalm Ht].
  split; [|done]. eapply calm_sound; [done| |done].
  apply sound_fields in Hc as (_ & Hcs & _).
  apply sound_fields in Hw as (_ & Hws & _).
  exact (spawnNewPiece_slots _ _ _ _ Hcs Hws H).
Qed.

Lemma moveDown_sound random c w w' :
  sound c = true -> sound (now w) = true ->
  moveDown random c w = Done (tt, w') ->
  sound (now w') = true /\ timeouts w' = timeouts w.
Proof.
  intros Hc Hw. unfold moveDown.
  unfold mbind, M_bind, mret, M_ret, lift, rbind. intros H.
  repeat case_match; simplify_eq; try done.
  - pose proof (commitMove_calm _ _ _ _ _ H) as [Hcalm Ht].
    split; [|done]. eapply calm_sound; [done| |done].
    apply sound_fields in Hw as (_ & Hws & _). by eapply commitMove_slots.
  - match goal with u : unit |- _ => destruct u end.
    match goal with
    | Hm : mergePiece _ _ = Done _ |- _ =>
        apply mergePiece_sound in Hm as [Hs Ht]; [|done..]
    end.
    apply spawnNewPiece_sound in H as [Hs' Ht']; [|done..].
    split; [done|congruence].
Qed.

Lemma hardDropTimeout_sound random c w w' :
  sound c = true -> sound (now w) = true ->
  hardDropTimeout random c w = Done (tt, w') ->
  sound (now w') = true /\ timeouts w' = timeouts w.
Proof.
  intros Hc Hw. unfold hardDropTimeout, mbind, M_bind. intros H.
  destruct (mergePiece c w) as [[[] w1]| |] eqn:Hmerge; try done.
  apply mergePiece_sound in Hmerge as [Hs Ht]; [|done..].
  apply spawnNewPiece_sound in H as [Hs' Ht']; [|done..].
  split; [done|congruence].
Qed.

Lemma startGame_sound random c w w' :
  sound c = true -> sound (now w) = true ->
  startGame random c w = Done (tt, w') ->
  sound (now w') = true /\ timeouts w' = timeouts w.
Proof.
  intros Hc Hw H. pose proof (startGame_tidy _ _ _ _ H) as [Ht Hq].
  split; [|done]. apply sound_fields. split; [done|].
  apply sound_fields in Hc as (_ & Hcs & _).
  apply sound_fields in Hw as (_ & Hws & _).
  split; [exact (startGame_slots _ _ _ _ Hcs Hws H)|].
  revert H. unfold startGame. unfold_m. unfold createRandomTetromino. simpl.
  intros H. apply spawnNewPiece_calm in H as [(-> & _) _]. reflexivity.
Qed.

Lemma handleKeyPress_sound random h code w w' :
  sound h = true -> sound (now w) = true ->
  handleKeyPress random h code w = Done (tt, w') ->
  sound (now w') = true /\
  (timeouts w' = timeouts w \/ timeouts w' = timeouts w ++ [h]).
Proof.
  intros Hh Hw.
  pose proof Hh as (_ & Hhs & _)%sound_fields.
  pose proof Hw as (_ & Hws & _)%sound_fields.
  assert (forall m : M unit,
    (forall w1, m w = Done (tt, w1) ->
                calm (now w) (now w1) /\ timeouts w1 = timeouts w) ->
    (forall w1, m w = Done (tt, w1) -> okSlots (now w1) = true) ->
    m w = Done (tt, w') ->
    sound (now w') = true /\
    (timeouts w' = timeouts w \/ timeouts w' = timeouts w ++ [h])) as Hcalm.
  { intros m Hm Hs Hmw. destruct (Hm w' Hmw) as [Hc Ht].
    split; [|by left]. eapply calm_sound; [exact Hc|by apply Hs|done]. }
  unfold handleKeyPress.
  destruct (negb (gameStarted h) && bool_decide (code = Space)).
  { intros H. apply startGame_sound in H as [? ?]; [|done..].
    split; [done|by left]. }
  destruct code; simpl.
  - apply Hcalm; intros w1; [apply moveLeft_calm|by apply moveLeft_slots].
  - apply Hcalm; intros w1; [apply moveRight_calm|by apply moveRight_slots].
  - unfold mbind, M_bind.
    destruct (moveDown random h w) as [[[] w2]| |] eqn:Hdown; try done.
    apply moveDown_sound in Hdown as [Hs Ht]; [|done..].
    unfold setScore, update. intros [= <-]. split; [|by left]. simpl.
    eapply calm_sound; [|by apply sound_fields in Hs as (_ & ? & _)|exact Hs].
    repeat split; try done. simpl. by destruct (score _).
  - apply Hcalm; intros w1; [apply rotate_calm|by apply rotate_slots].
  - apply Hcalm; intros w1; [apply rotate_calm|by apply rotate_slots].
  - intros H. pose proof (hardDrop_calm _ _ _ H) as [Hc Ht].
    split; [|done]. eapply calm_sound; [exact Hc| |done].
    by eapply hardDrop_slots.
  - apply Hcalm; intros w1; [apply holdPiece_calm|by apply holdPiece_slots].
  - apply Hcalm; intros w1; [apply holdPiece_calm|by apply holdPiece_slots].
  - apply Hcalm.
    + intros w1 [= <-]. simpl. split; [|done]. by repeat split.
    + by intros w1 [= <-].
  - apply Hcalm.
    + intros w1 [= <-]. split; [apply calm_refl|done].
    + by intros w1 [= <-].
Qed.

Lemma stepAt_sound random h e w w' :
  sound h = true -> sound (now w) = true ->
  forallb sound (timeouts w) = true ->
  stepAt random h e w = Done w' ->
  sound (now w') = true /\ forallb sound (timeouts w') = true.
Proof.
  intros Hh Hw Hts. destruct e as [code| | |]; simpl; unfold run.
  - destruct (handleKeyPress random h code w) as [[[] w1]| |] eqn:Hkey;
      try done.
    simpl. intros [= <-].
    apply handleKeyPress_sound in Hkey as [Hs Ht]; [|done..].
    split; [done|]. destruct Ht as [-> | ->]; [done|].
    rewrite forallb_app, Hts. simpl. by rewrite Hh.
  - destruct (_ && _); [|by intros [= <-]].
    destruct (moveDown random h w) as [[[] w1]| |] eqn:Hdown; try done.
    simpl. intros [= <-].
    apply moveDown_sound in Hdown as [Hs ->]; done.
  - destruct (timeouts w) as [|c rest] eqn:Hq.
    + intros [= <-]. by rewrite Hq.
    + simpl in Hts. apply andb_prop in Hts as [Hc Hrest].
      destruct (hardDropTimeout random c _) as [[[] w1]| |] eqn:Hto;
        try done.
      simpl. intros [= <-].
      apply hardDropTimeout_sound in Hto as [Hs ->]; done.
  - destruct (gameOver h); [|by intros [= <-]].
    destruct (startGame random h w) as [[[] w1]| |] eqn:Hstart; try done.
    simpl. intros [= <-].
    apply startGame_sound in Hstart as [Hs ->]; done.
Qed.

Lemma soundMounted_fields m :
  soundMounted m = true <->
  sound (now (world m)) = true /\
  forallb sound (timeouts (world m)) = true /\
  sound (committed m) = true /\ sound (installed m) = true.
Proof. unfold soundMounted. rewrite !andb_true_iff. tauto. Qed.

Lemma occur_sound random o m m' :
  soundMounted m = true -> occur random o m = Done m' ->
  soundMounted m' = true.
Proof.
  rewrite !soundMounted_fields. intros (Hnow & Hts & Hc & Hi).
  destruct o as [e| |]; simpl.
  - destruct (stepAt random (closureOf m e) e (world m)) as [w'| |] eqn:Hstep;
      try done.
    simpl. intros [= <-]. simpl.
    apply stepAt_sound in Hstep as [? ?]; [done|by destruct e|done|done].
  - by intros [= <-].
  - by intros [= <-].
Qed.

Lemma afterRaise_sound e m :
  soundMounted m = true -> soundMounted (afterRaise e m) = true.
Proof.
  rewrite !soundMounted_fields. intros (Hnow & Hts & Hc & Hi).
  destruct e; simpl; try done.
  repeat split; try done. destruct (timeouts (world m)); [done|].
  simpl in *. by apply andb_prop in Hts as [_ ?].
Qed.

Lemma reachable_sound random m :
  reachable random m -> soundMounted m = true.
Proof.
  induction 1 as [|m o m' _ IH Hocc|m e _ IH _]; [done| |].
  - by eapply occur_sound.
  - by apply afterRaise_sound.
Qed.

(** lemmas *)
Lemma reachable_occurAll random os : forall m m',
  reachable random m -> occurAll random os m = Done m' ->
  reachable random m'.
Proof.
  induction os as [|o os IH]; intros m m' Hm; simpl.
  - by intros [= <-].
  - destruct (occur random o m) as [m1| |] eqn:Ho; try done. simpl.
    apply IH. by eapply reachable_occur.
Qed.

Lemma reachable_after random os :
  occurAll random os mounted = Done (after random os) ->
  reachable random (after random os).
Proof. apply reachable_occurAll, reachable_mount. Qed.

Lemma stepAt_now random e w : stepAt random (now w) e w = step random e w.
Proof. by destruct e. Qed.

(** *** Speed, score and board of every reachable state *)

(** X16.  Speed and counters.  In every state the mounted component can
    reach, whether its events were handled by the functions of the latest
    render or by those of an earlier render whose effects were still in
    force, the gravity interval is max(100, 1000 - (level - 1) * 100)
    milliseconds, hence between 100 and 1000; the level is at least 1, and
    the line and combo counters are not negative. *)
Theorem reachable_speed_belongs_to_level random m :
  reachable random m ->
  speed (now (world m))
  = Z.max MIN_SPEED (INITIAL_SPEED - (level (now (world m)) - 1) * 100) /\
  MIN_SPEED <= speed (now (world m)) <= INITIAL_SPEED /\
  1 <= level (now (world m)) /\ 0 <= lines (now (world m)) /\
  0 <= combo (now (world m)).
Proof.
  intros Hm. apply reachable_sound, soundMounted_fields in Hm as (Hs & _).
  apply sound_fields in Hs as (Ht & _).
  apply tidy_fields in Ht as (_ & _ & Hl & Hv & Hc & Hsp).
  repeat split; try done; rewrite Hsp; unfold MIN_SPEED, INITIAL_SPEED; lia.
Qed.

(** Witnesses for X16, X17, X18 *)
Lemma reachable_speed_belongs_to_level_witness :
  speed (now (world (after iThenO staleLeft)))
  = Z.max MIN_SPEED
      (INITIAL_SPEED - (level (now (world (after iThenO staleLeft))) - 1) * 100)
  /\
  MIN_SPEED <= speed (now (world (after iThenO staleLeft))) <= INITIAL_SPEED /\
  1 <= level (now (world (after iThenO staleLeft))) /\
  0 <= lines (now (world (after iThenO staleLeft))) /\
  0 <= combo (now (world (after iThenO staleLeft))).
Proof.
  apply (reachable_speed_belongs_to_level iThenO (after iThenO staleLeft)).
  apply reachable_after. vm_compute. reflexivity.
Defined.

(** X17.  The score never becomes NaN.  In every state the mounted
    component can reach, whichever renders handled its events, the board
    has no full row left and the score is a number: the points table is
    never read past its end. *)
Theorem reachable_score_is_a_number random m :
  reachable random m ->
  fullRows (board (now (world m))) = 0%nat /\
  exists points, score (now (world m)) = Int points.
Proof.
  intros Hm. apply reachable_sound, soundMounted_fields in Hm as (Hs & _).
  apply sound_fields in Hs as (Ht & _).
  apply tidy_fields in Ht as (Hnone & Hn & _).
  split; [done|]. destruct (score _) as [points|]; [by exists points|done].
Qed.

Lemma reachable_score_is_a_number_witness :
  fullRows (board (now (world (after iThenO staleRight)))) = 0%nat /\
  exists points, score (now (world (after iThenO staleRight))) = Int points.
Proof.
  apply (reachable_score_is_a_number iThenO (after iThenO staleRight)).
  apply reachable_after. vm_compute. reflexivity.
Defined.

(** X18.  The board keeps its twenty rows.  In every state the mounted
    component can reach, whichever renders handled its events, the board
    has 20 rows and no row has fewer than 10 cells.  (A row can have more:
    see [stale_key_after_a_lock_widens_two_rows].) *)
Theorem reachable_board_has_twenty_rows random m :
  reachable random m ->
  length (board (now (world m))) = 20%nat /\
  forall row, row ∈ board (now (world m)) -> (10 <= length row)%nat.
Proof.
  intros Hm. apply reachable_sound, soundMounted_fields in Hm as (Hs & _).
  apply sound_fields in Hs as (_ & _ & Hb). by apply tallBoard_spec in Hb.
Qed.

Lemma reachable_board_has_twenty_rows_witness :
  length (board (now (world (after iThenO staleRight)))) = 20%nat /\
  forall row,
    row ∈ board (now (world (after iThenO staleRight))) ->
    (10 <= length row)%nat.
Proof.
  apply (reachable_board_has_twenty_rows iThenO (after iThenO staleRight)).
  apply reachable_after. vm_compute. reflexivity.
Defined.

(** *** Handlers that return, and the one place that raises *)

Section Returns.

Variable random : nat -> TetrominoType.
Variable c : State.
Hypothesis Hc : sound c = true.

Lemma sound_board : tallBoard (board c) = true.
Proof. by apply sound_fields in Hc as (_ & _ & ?). Qed.

Lemma sound_current piece :
  currentPiece c = Some piece -> okPiece piece = true.
Proof.
  intros Hp. apply sound_fields in Hc as (_ & Hs & _).
  apply okSlots_fields in Hs as (Hs & _). by rewrite Hp in Hs.
Qed.

Lemma sound_held piece :
  heldPiece c = Some piece -> okPiece piece = true.
Proof.
  intros Hp. apply sound_fields in Hc as (_ & Hs & _).
  apply okSlots_fields in Hs as (_ & _ & Hs). by rewrite Hp in Hs.
Qed.

Lemma sound_spawned w : okPiece (spawnedPiece random c w) = true.
Proof.
  unfold spawnedPiece. destruct (nextPiece c) as [p|] eqn:Hp;
    [|apply okPiece_TETROMINOES].
  apply sound_fields in Hc as (_ & Hs & _).
  apply okSlots_fields in Hs as (_ & Hs & _). by rewrite Hp in Hs.
Qed.

Lemma spawnNewPiece_returns w :
  exists w', spawnNewPiece random c w = Done (tt, w').
Proof.
  pose proof (sound_spawned w) as Hok.
  destruct (hasCell_startXOf _ (okPiece_hasCell _ Hok))
    as (row0 & rest & Hs & _).
  destruct (isValidOn_tall (board c) (spawnedPiece random c w)
              (mkPosition (BOARD_WIDTH / 2 - Z.of_nat (length row0) / 2) 0)
              sound_board) as [valid Hv].
  rewrite (spawnNewPiece_run random c w _ row0 rest _ valid
             eq_refl Hs eq_refl Hv).
  destruct valid; [|by eexists].
  destruct (ghostOn_tall (board c) (spawnedPiece random c w)
              (mkPosition (BOARD_WIDTH / 2 - Z.of_nat (length row0) / 2) 0)
              sound_board (okPiece_hasCell _ Hok)) as [ghost Hg].
  unfold calculateGhostPosition. rewrite Hg. simpl. by eexists.
Qed.

Lemma commitMove_returns piece newPos w :
  okPiece piece = true ->
  exists w', commitMove c piece newPos w = Done (tt, w').
Proof.
  intros Hok. unfold commitMove. unfold_m. unfold calculateGhostPosition.
  destruct (ghostOn_tall (board c) piece newPos sound_board
              (okPiece_hasCell _ Hok)) as [ghost ->].
  simpl. by eexists.
Qed.

Lemma moveLeft_returns w : exists w', moveLeft c w = Done (tt, w').
Proof.
  unfold moveLeft. destruct (currentPiece c) as [piece|] eqn:Hp;
    [|by eexists].
  destruct (_ || _); [by eexists|].
  unfold mbind, M_bind, lift, isValidPosition.
  destruct (isValidOn_tall (board c) piece
              (mkPosition (px (position c) - 1) (py (position c)))
              sound_board) as [[] ->]; simpl; [|by eexists].
  apply commitMove_returns. by apply sound_current.
Qed.

Lemma moveRight_returns w : exists w', moveRight c w = Done (tt, w').
Proof.
  unfold moveRight. destruct (currentPiece c) as [piece|] eqn:Hp;
    [|by eexists].
  destruct (_ || _); [by eexists|].
  unfold mbind, M_bind, lift, isValidPosition.
  destruct (isValidOn_tall (board c) piece
              (mkPosition (px (position c) + 1) (py (position c)))
              sound_board) as [[] ->]; simpl; [|by eexists].
  apply commitMove_returns. by apply sound_current.
Qed.

Lemma tryKicks_returns rotated ks w :
  okPiece rotated = true ->
  exists w', tryKicks c rotated ks w = Done (tt, w').
Proof.
  intros Hok. induction ks as [|k ks IH]; simpl; [by eexists|].
  unfold mbind at 1, M_bind at 1, lift, isValidPosition.
  destruct (isValidOn_tall (board c) rotated
              (mkPosition (px (position c) + px k) (py (position c) + py k))
              sound_board) as [[] ->]; simpl; [|done].
  unfold_m. unfold calculateGhostPosition.
  destruct (ghostOn_tall (board c) rotated
              (mkPosition (px (position c) + px k) (py (position c) + py k))
              sound_board (okPiece_hasCell _ Hok)) as [ghost ->].
  simpl. by eexists.
Qed.

Lemma rotate_returns w : exists w', rotate c w = Done (tt, w').
Proof.
  unfold rotate. destruct (currentPiece c) as [piece|] eqn:Hp;
    [|by eexists].
  destruct (_ || _); [by eexists|].
  destruct (okPiece_rotatePiece piece (sound_current _ Hp))
    as (rotated & Hr & Hok).
  unfold mbind, M_bind, lift. rewrite Hr. cbn [rbind].
  by apply tryKicks_returns.
Qed.

Lemma hardDrop_returns w : exists w', hardDrop c w = Done (tt, w').
Proof.
  unfold hardDrop. destruct (currentPiece c) as [piece|] eqn:Hp;
    [|by eexists].
  destruct (_ || _); [by eexists|].
  destruct (dropOn_tall (board c) piece (position c) sound_board
              (okPiece_hasCell _ (sound_current _ Hp))) as [[newPos d] Hd].
  unfold_m. rewrite Hd. simpl. by eexists.
Qed.

Lemma holdPiece_returns w :
  exists w', holdPiece random c w = Done (tt, w').
Proof.
  unfold holdPiece. destruct (currentPiece c) as [piece|] eqn:Hp;
    [|by eexists].
  destruct (_ || _); [by eexists|].
  destruct (heldPiece c) as [temp|] eqn:Hh.
  - pose proof (sound_held _ Hh) as Hok.
    destruct (hasCell_startXOf temp (okPiece_hasCell _ Hok))
      as (row0 & rest & Hs & HstartX).
    unfold_m. rewrite HstartX. simpl. unfold calculateGhostPosition.
    destruct (ghostOn_tall (board c) temp
                (mkPosition (BOARD_WIDTH / 2 - Z.of_nat (length row0) / 2) 0)
                sound_board (okPiece_hasCell _ Hok)) as [ghost ->].
    simpl. by eexists.
  - unfold_m. apply spawnNewPiece_returns.
Qed.

Lemma startGame_returns w :
  exists w', startGame random c w = Done (tt, w').
Proof.
  unfold startGame. unfold_m. unfold createRandomTetromino. simpl.
  apply spawnNewPiece_returns.
Qed.

(** The lock returns unless its board write raises; the raise comes before
    every setter. *)
Lemma mergePiece_returns_or_raises w :
  (exists w', mergePiece c w = Done (tt, w')) \/
  (mergePiece c w = TypeError /\ lockRaises c = true).
Proof.
  unfold mergePiece, lockRaises.
  destruct (currentPiece c) as [piece|] eqn:Hp; [|left; by eexists].
  destruct (lockCells (board c) piece (position c)) as [nb| |] eqn:Hnb.
  - left. pose proof (mergePiece_run c w piece nb Hp Hnb) as Hrun.
    unfold mergePiece in Hrun. rewrite Hp in Hrun. rewrite <- Hnb.
    rewrite Hrun. by eexists.
  - right. by unfold mbind, M_bind, lift.
  - exfalso. unfold lockCells in Hnb. revert Hnb.
    generalize (board c), 0.
    induction (shape piece) as [|row rows IH]; intros nb y; simpl; [done|].
    assert (forall x nb0, lockRow nb0 (color piece) (position c) y row x
                          <> Diverges) as Hrow.
    { induction row as [|v row IHr]; intros x nb0; simpl; [done|].
      repeat case_match; try done; apply IHr. }
    destruct (lockRow nb (color piece) (position c) y row 0) eqn:Hr;
      simpl; [apply IH|done|by apply Hrow in Hr].
Qed.

Lemma moveDown_returns_or_raises w :
  (exists w', moveDown random c w = Done (tt, w')) \/
  (moveDown random c w = TypeError /\ lockRaises c = true).
Proof.
  unfold moveDown. destruct (currentPiece c) as [piece|] eqn:Hp;
    [|left; by eexists].
  destruct (_ || _); [left; by eexists|].
  unfold mbind at 1, M_bind at 1, lift, isValidPosition.
  destruct (isValidOn_tall (board c) piece
              (mkPosition (px (position c)) (py (position c) + 1))
              sound_board) as [[] ->]; simpl.
  - left. apply commitMove_returns. by apply sound_current.
  - unfold mbind, M_bind.
    destruct (mergePiece_returns_or_raises w) as [[w1 ->]|[-> ?]];
      [|by right].
    left. apply spawnNewPiece_returns.
Qed.

Lemma hardDropTimeout_returns_or_raises w :
  (exists w', hardDropTimeout random c w = Done (tt, w')) \/
  (hardDropTimeout random c w = TypeError /\ lockRaises c = true).
Proof.
  unfold hardDropTimeout, mbind, M_bind.
  destruct (mergePiece_returns_or_raises w) as [[w1 ->]|[-> ?]];
    [|by right].
  left. apply spawnNewPiece_returns.
Qed.

Lemma handleKeyPress_returns_or_raises code w :
  (exists w', handleKeyPress random c code w = Done (tt, w')) \/
  (handleKeyPress random c code w = TypeError /\ code = ArrowDown /\
   lockRaises c = true).
Proof.
  unfold handleKeyPress.
  destruct (negb (gameStarted c) && bool_decide (code = Space));
    [left; apply startGame_returns|].
  destruct code; simpl; try (left; by eexists).
  - left. apply moveLeft_returns.
  - left. apply moveRight_returns.
  - unfold mbind, M_bind.
    destruct (moveDown_returns_or_raises w) as [[w1 ->]|[-> ?]];
      [left; by eexists|by right].
  - left. apply rotate_returns.
  - left. apply rotate_returns.
  - left. apply hardDrop_returns.
  - left. apply holdPiece_returns.
  - left. apply holdPiece_returns.
Qed.

End Returns.

Lemma existsb_truthy_entryAt row :
  existsb truthy row = true <-> exists j, truthy (entryAt row j) = true.
Proof.
  induction row as [|v row IH]; simpl.
  - split; [done|]. intros [j Hj]. by rewrite entryAt_nil in Hj.
  - rewrite orb_true_iff, IH. split.
    + intros [Hv|[j Hj]].
      * exists 0. by rewrite entryAt_cons.
      * exists (j + 1). rewrite entryAt_cons.
        destruct (j + 1 =? 0) eqn:E.
        -- apply Z.eqb_eq in E. replace j with (-1) in Hj by lia.
           by unfold entryAt in Hj.
        -- by replace (j + 1 - 1) with j by lia.
    + intros [j Hj]. rewrite entryAt_cons in Hj.
      destruct (j =? 0); [by left|right; by eexists].
Qed.

Lemma lockRow_raises paint pos y row : forall nb x,
  tallBoard nb = true ->
  lockRow nb paint pos y row x = TypeError <->
  existsb truthy row = true /\ BOARD_HEIGHT <= py pos + y.
Proof.
  induction row as [|v row IH]; intros nb x Hnb; simpl.
  - split; [done|]. by intros [? _].
  - destruct (truthy v); simpl; [|by apply IH].
    pose proof Hnb as [Hlen _]%tallBoard_spec.
    destruct (0 <=? py pos + y) eqn:Hy.
    + apply Z.leb_le in Hy.
      destruct (nb !! Z.to_nat (py pos + y)) as [line|] eqn:Hline.
      * pose proof (lookup_lt_Some _ _ _ Hline) as Hlt.
        rewrite IH
          by (eapply tallBoard_insert; [done|done|apply length_writeAt_le]).
        split; [|intros [_ ?]]; unfold BOARD_HEIGHT in *; lia.
      * apply lookup_ge_None in Hline.
        split; [|done]. intros _. split; [done|].
        unfold BOARD_HEIGHT in *. lia.
    + apply Z.leb_gt in Hy. rewrite IH by done.
      split; [|intros [_ ?]]; unfold BOARD_HEIGHT in *; lia.
Qed.

Lemma lockRows_raises paint pos rows : forall nb y,
  tallBoard nb = true ->
  lockRows nb paint pos rows y = TypeError <->
  exists i j, truthy (shapeAt rows i j) = true /\
              BOARD_HEIGHT <= py pos + y + i.
Proof.
  induction rows as [|row rows IH]; intros nb y Hnb; simpl.
  - split; [done|]. intros (i & j & Hij & _). by rewrite shapeAt_nil in Hij.
  - assert ((exists i j, truthy (shapeAt (row :: rows) i j) = true /\
                         BOARD_HEIGHT <= py pos + y + i) <->
            (existsb truthy row = true /\ BOARD_HEIGHT <= py pos + y) \/
            (exists i j, truthy (shapeAt rows i j) = true /\
                         BOARD_HEIGHT <= py pos + (y + 1) + i)) as ->.
    { rewrite existsb_truthy_entryAt. split.
      - intros (i & j & Hij & Hi). rewrite shapeAt_cons in Hij.
        destruct (i =? 0) eqn:E.
        + apply Z.eqb_eq in E as ->. left. split; [by exists j|lia].
        + right. exists (i - 1), j. split; [done|lia].
      - intros [[[j Hj] Hy]|(i & j & Hij & Hi)].
        + exists 0, j. rewrite shapeAt_cons. simpl. split; [done|lia].
        + assert (0 <= i) as Hi0.
          { apply shapeAt_truthy in Hij. lia. }
          exists (i + 1), j. rewrite shapeAt_cons.
          destruct (i + 1 =? 0) eqn:E; [apply Z.eqb_eq in E; lia|].
          replace (i + 1 - 1) with i by lia. split; [done|lia]. }
    destruct (lockRow nb paint pos y row 0) as [nb1| |] eqn:Hrow; simpl.
    + rewrite IH by (by eapply lockRow_tallBoard).
      split; [by right|]. intros [Hraise|?]; [|done].
      apply (lockRow_raises paint pos y row nb 0 Hnb) in Hraise. congruence.
    + split; [|done]. intros _. left.
      by apply (lockRow_raises paint pos y row nb 0 Hnb).
    + split; [done|]. intros [Hraise|Hrest].
      * apply (lockRow_raises paint pos y row nb 0 Hnb) in Hraise.
        congruence.
      * exfalso. clear -Hrow. revert nb Hrow. generalize 0.
        induction row as [|v row IHr]; intros x nb; simpl; [done|].
        repeat case_match; try done; apply IHr.
Qed.

Lemma lockCells_raises b piece pos :
  tallBoard b = true ->
  lockCells b piece pos = TypeError <-> belowFloor piece pos.
Proof.
  intros Hb. unfold lockCells, belowFloor. rewrite lockRows_raises by done.
  split; intros (i & j & Hij & Hi); exists i, j; (split; [done|lia]).
Qed.

Lemma lockRaises_belowFloor c :
  sound c = true -> lockRaises c = true ->
  exists piece, currentPiece c = Some piece /\ belowFloor piece (position c).
Proof.
  intros Hc. unfold lockRaises.
  destruct (currentPiece c) as [piece|]; [|done].
  destruct (lockCells (board c) piece (position c)) eqn:Hl; try done.
  intros _. exists piece. split; [done|].
  apply (lockCells_raises (board c)); [|done].
  by apply sound_fields in Hc as (_ & _ & ?).
Qed.

(** X19.  An event returns or raises in the lock.  In every state the
    mounted component can reach, whichever renders handled its events, an
    event is handled to completion, or its handler raises a [TypeError];
    no handler loops.  A handler raises only in the board write of
    [mergePiece]: the event is ArrowDown, a gravity tick or a timeout of a
    hard drop, and at the render whose functions run (the one whose effects
    ran last, or the one that scheduled the timeout) an occupied cell of
    the active piece lies below the last row of the board. *)
Theorem event_returns_or_the_lock_raises random m e :
  reachable random m ->
  (exists m', occur random (Handle e) m = Done m') \/
  (occur random (Handle e) m = TypeError /\
   exists c piece,
     currentPiece c = Some piece /\ belowFloor piece (position c) /\
     match e with
     | KeyDown code => code = ArrowDown /\ c = installed m
     | Tick => c = installed m
     | TimeoutFires => head (timeouts (world m)) = Some c
     | PlayAgain => False
     end).
Proof.
  intros Hm. apply reachable_sound, soundMounted_fields in Hm
    as (Hnow & Hts & Hc & Hi).
  assert (forall (h : State) (k : M unit) (w : World) (P : State -> Prop),
    sound h = true ->
    ((exists w', k w = Done (tt, w')) \/
     (k w = TypeError /\ lockRaises h = true /\ P h)) ->
    (exists m', rbind (run k w)
                  (fun w' => Done (mkMounted w' (committed m) (installed m)))
                = Done m') \/
    (rbind (run k w)
       (fun w' => Done (mkMounted w' (committed m) (installed m)))
     = TypeError /\
     exists c piece,
       currentPiece c = Some piece /\ belowFloor piece (position c) /\
       c = h /\ P h)) as Hrun.
  { intros h k w P Hh [[w' Hk]|(Hk & Hraise & HP)]; unfold run; rewrite Hk.
    - left. by eexists.
    - right. split; [done|].
      destruct (lockRaises_belowFloor h Hh Hraise) as (piece & ? & ?).
      by exists h, piece. }
  destruct e as [code| | |]; simpl.
  - destruct (Hrun (installed m) (handleKeyPress random (installed m) code)
                (world m) (fun _ => code = ArrowDown) Hi) as [?|(? & H)].
    + destruct (handleKeyPress_returns_or_raises random (installed m) Hi
                  code (world m)) as [?|(? & ? & ?)]; [by left|by right].
    + by left.
    + right. split; [done|]. destruct H as (c & piece & ? & ? & -> & ->).
      by exists (installed m), piece.
  - destruct (_ && _); [|left; by eexists].
    destruct (Hrun (installed m) (moveDown random (installed m)) (world m)
                (fun _ => True) Hi) as [?|(? & H)].
    + destruct (moveDown_returns_or_raises random (installed m) Hi (world m))
        as [?|(? & ?)]; [by left|by right].
    + by left.
    + right. split; [done|]. destruct H as (c & piece & ? & ? & -> & _).
      by exists (installed m), piece.
  - destruct (timeouts (world m)) as [|c rest] eqn:Hq; [left; by eexists|].
    simpl in Hts. apply andb_prop in Hts as [Hcs _].
    destruct (Hrun c (hardDropTimeout random c)
                (mkWorld (now (world m)) (draws (world m)) rest)
                (fun _ => True) Hcs) as [?|(? & H)].
    + destruct (hardDropTimeout_returns_or_raises random c Hcs
                  (mkWorld (now (world m)) (draws (world m)) rest))
        as [?|(? & ?)]; [by left|by right].
    + by left.
    + right. split; [done|]. destruct H as (c' & piece & ? & ? & -> & _).
      by exists c, piece.
  - destruct (gameOver (committed m)); [|left; by eexists].
    destruct (startGame_returns random (committed m) Hc (world m))
      as [w' Hw']. left. unfold run. rewrite Hw'. by eexists.
Qed.

Lemma event_returns_or_the_lock_raises_witness :
  occurAll iThenO staleLeft mounted = Done (after iThenO staleLeft) /\
  occur iThenO (Handle Tick) (after iThenO staleLeft) = TypeError /\
  exists c piece,
    currentPiece c = Some piece /\ belowFloor piece (position c) /\
    c = installed (after iThenO staleLeft).
Proof.
  assert (occurAll iThenO staleLeft mounted = Done (after iThenO staleLeft))
    as Hrun by (vm_compute; reflexivity).
  split; [exact Hrun|].
  destruct (event_returns_or_the_lock_raises iThenO (after iThenO staleLeft)
              Tick (reachable_after iThenO staleLeft Hrun))
    as [[m' Hm']|[Hraise Hwhere]].
  - exfalso. revert Hm'. vm_compute. discriminate.
  - split; [exact Hraise|exact Hwhere].
Defined.

(** What a key does when it is handled before the render that follows
    a lock.  With [iThenO] the I piece lies on the floor at (3, 19); the
    tick locks it and brings the O piece in, and ArrowLeft, handled by the
    listener of the render before the tick, sets the position to (2, 19).
    The O piece is now at (2, 19), its lower row below the floor, and the
    next tick raises in the lock. *)
Example stale_key_after_a_lock_makes_the_next_tick_raise :
  exists m,
    occurAll iThenO staleLeft mounted = Done m /\
    currentPiece (now (world m)) = Some (TETROMINOES TO) /\
    position (now (world m)) = mkPosition 2 19 /\
    occur iThenO (Handle Tick) m = TypeError.
Proof.
  exists (after iThenO staleLeft). split; [by vm_compute|].
  split; [by vm_compute|]. split; [by vm_compute|]. by vm_compute.
Qed.

(** In the same way the O piece gets to x = 9 behind the upright I piece,
    and its lock writes column 10: two rows of the board have 11 cells. *)
Example stale_key_after_a_lock_widens_two_rows :
  exists m,
    occurAll iThenO staleRight mounted = Done m /\
    map length (board (now (world m)))
    = replicate 16 10%nat ++ [11; 11; 10; 10]%nat.
Proof.
  exists (after iThenO staleRight). split; [by vm_compute|]. by vm_compute.
Qed.

(** X22.  Events in step with the renders.  In a well-formed world (a
    board of 20 rows of 10 cells, well-formed pieces, the active piece
    within the walls, and the same for the renders of the pending
    timeouts), an event that is handled by the functions of the latest
    render is handled to completion and leaves a well-formed world; in
    particular the board keeps its 20 rows of 10 cells. *)
Theorem event_in_sync_keeps_the_world_well_formed random e w :
  wfWorld w = true ->
  exists w',
    stepAt random (now w) e w = Done w' /\ wfWorld w' = true /\
    length (board (now w')) = 20%nat /\
    forall row, row ∈ board (now w') -> length row = 10%nat.
Proof.
  intros Hw. rewrite stepAt_now.
  destruct (step_ok random e w Hw) as (w' & Hstep & Hw' & _).
  exists w'. split; [done|]. split; [done|].
  apply andb_prop in Hw' as [Hnow _].
  apply wfState_fields in Hnow as (Hb & _). by apply wfBoard_forall in Hb.
Qed.

Lemma event_in_sync_keeps_the_world_well_formed_witness :
  exists w',
    stepAt inOrder (now freshGame) Tick freshGame = Done w' /\
    wfWorld w' = true /\
    length (board (now w')) = 20%nat /\
    forall row, row ∈ board (now w') -> length row = 10%nat.
Proof.
  apply (event_in_sync_keeps_the_world_well_formed inOrder Tick freshGame).
  reflexivity.
Defined.

(** ** Pieces, termination and the points table *)

Lemma GamePiece_wellformed_witness :
  okPiece (mkTetromino TT [[1; 0]; [1; 1]; [1; 0]] "#a000f0") = true /\
  hasCell (mkTetromino TT [[1; 0]; [1; 1]; [1; 0]] "#a000f0") = true.
Proof.
  apply (GamePiece_wellformed
           (mkTetromino TT [[1; 0]; [1; 1]; [1; 0]] "#a000f0")).
  apply (GamePiece_rotated (TETROMINOES TT)); [apply GamePiece_fresh|].
  reflexivity.
Defined.

(** X3.  When the downward loops end.  On a board of 20 rows of 10 cells
    the ghost projection returns for every piece with an occupied cell.  For
    a shape without an occupied cell the validator accepts every position, so
    the loop of the ghost projection and the loop of the hard drop never
    end. *)
Theorem ghost_projection_returns_unless_the_piece_is_empty c piece pos :
  wfBoard (board c) = true ->
  (hasCell piece = true ->
   exists ghost, calculateGhostPosition c piece pos = Done ghost) /\
  (hasCell piece = false ->
   (forall pos', isValidPosition c piece pos' = Done true) /\
   calculateGhostPosition c piece pos = Diverges /\
   dropOn (board c) piece pos = Diverges).
Proof.
  intros Hb. split.
  - intros Hc. by apply ghostOn_total.
  - intros Hc. split; [intros pos'; by apply isValidOn_no_cell|].
    unfold calculateGhostPosition, ghostOn, dropOn.
    rewrite dropLoop_ghostLoop. by rewrite ghostLoop_no_cell.
Qed.

Lemma ghost_projection_returns_unless_the_piece_is_empty_witness :
  (hasCell (mkTetromino TO [[0; 0]; [0; 0]] "#f0f000") = true ->
   exists ghost,
     calculateGhostPosition (now freshGame)
       (mkTetromino TO [[0; 0]; [0; 0]] "#f0f000") (mkPosition 4 0)
     = Done ghost) /\
  (hasCell (mkTetromino TO [[0; 0]; [0; 0]] "#f0f000") = false ->
   (forall pos',
      isValidPosition (now freshGame)
        (mkTetromino TO [[0; 0]; [0; 0]] "#f0f000") pos' = Done true) /\
   calculateGhostPosition (now freshGame)
     (mkTetromino TO [[0; 0]; [0; 0]] "#f0f000") (mkPosition 4 0)
   = Diverges /\
   dropOn (board (now freshGame))
     (mkTetromino TO [[0; 0]; [0; 0]] "#f0f000") (mkPosition 4 0)
   = Diverges).
Proof.
  apply (ghost_projection_returns_unless_the_piece_is_empty (now freshGame)
           (mkTetromino TO [[0; 0]; [0; 0]] "#f0f000") (mkPosition 4 0)).
  reflexivity.
Defined.

(** X6.  A lock completes at most four rows.  In a well-formed render whose
    board has no full row, writing the active piece into the board completes
    between 0 and 4 rows, so that the lookup in the five-entry points table
    is always inside the table and the points of the lock are a number,
    whatever the combo and the level. *)
Theorem lock_completes_at_most_four_rows c piece :
  wfState c = true -> fullRows (board c) = 0%nat ->
  currentPiece c = Some piece ->
  exists nb,
    lockCells (board c) piece (position c) = Done nb /\
    0 <= snd (clearRows nb) <= 4 /\
    forall newCombo levelBonus,
      exists points,
        linePoints (snd (clearRows nb)) newCombo levelBonus = Int points.
Proof.
  intros Hwf Hnone Hp.
  pose proof (wfState_fields c Hwf) as (Hb & Hok & _ & _ & Hin).
  rewrite Hp in Hok. simpl in Hok.
  destruct (lockCells_spec (board c) piece (position c) Hb (Hin _ Hp))
    as (nb & Hnb & _ & _).
  exists nb. split; [done|].
  pose proof (lockCells_fullRows _ _ _ _ Hok Hnone Hnb) as Hfour.
  assert (snd (clearRows nb) = Z.of_nat (fullRows nb)) as ->
    by (by rewrite clearRows_spec).
  split; [lia|]. intros newCombo levelBonus.
  pose proof (linePoints_number (Z.of_nat (fullRows nb)) newCombo levelBonus)
    as Hnum.
  destruct (linePoints _ _ _) as [points|]; [by exists points|].
  discriminate Hnum. lia.
Qed.

Lemma lock_completes_at_most_four_rows_witness :
  exists nb,
    lockCells (board tetrisState)
      (mkTetromino TI [[1]; [1]; [1]; [1]] "#00f0f0") (mkPosition 0 16)
    = Done nb /\
    0 <= snd (clearRows nb) <= 4 /\
    forall newCombo levelBonus,
      exists points,
        linePoints (snd (clearRows nb)) newCombo levelBonus = Int points.
Proof.
  apply (lock_completes_at_most_four_rows tetrisState
           (mkTetromino TI [[1]; [1]; [1]; [1]] "#00f0f0")); reflexivity.
Defined.
